(** * The linear-factor core of GTSAM: JacobianFactor, CameraSet, DecisionTreeFactor

    A shallow embedding of [JacobianFactor.cpp], of [CameraSet::equals] and of
    the unsupported operations of [DecisionTreeFactor], and the properties of
    them that the design document states.

    Conventions of the embedding.
    - [double] is IEEE binary64, Rocq's primitive [float].
    - [size_t] values are [nat]: every one of them is the length of, or an
      index into, a container held in memory.  Where the source subtracts two
      of them the theorems also state that the subtraction does not go below
      zero.
    - A call either returns, throws a C++ exception, stops on a failed
      [assert] (debug builds only), or has no defined behaviour (a null
      pointer, an index out of range): type [outcome].
    - [NDEBUG] is the build flag: with [NDEBUG = true] every [assert] and the
      body of [assertInvariants] is compiled out.
    - Printing to [cout] is not modelled. *)

From Stdlib Require Import String.
From Stdlib Require Import PrimFloat List Arith Bool Lia Sorted Permutation.
Import ListNotations.

Definition double := float.
Definition Index := nat.
Definition Vector := list double.

(** ** Outcomes of a call *)

Inductive exception :=
| invalid_argument (what : string)
| domain_error (what : string) (variable : Index)
| runtime_error (what : string)
| out_of_range
| CarefulCholeskyNegativeMatrixException.

Inductive outcome (A : Type) :=
| Returns (a : A)
| Throws (e : exception)
| Aborts
| Undefined.
Arguments Returns {A} a.
Arguments Throws {A} e.
Arguments Aborts {A}.
Arguments Undefined {A}.

Definition bind {A B} (c : outcome A) (k : A -> outcome B) : outcome B :=
  match c with
  | Returns a => k a
  | Throws e => Throws e
  | Aborts => Aborts
  | Undefined => Undefined
  end.

Declare Scope outcome_scope.
Delimit Scope outcome_scope with outcome.
Notation "x <- c ;; k" := (bind c (fun x => k))
  (at level 61, c at next level, right associativity) : outcome_scope.
Notation "c ;;; k" := (bind c (fun _ => k))
  (at level 61, right associativity) : outcome_scope.
Open Scope outcome_scope.

(** [assert(c)]: nothing under [NDEBUG], otherwise the program stops when [c]
    is false. *)
Definition assert_ (NDEBUG : bool) (c : bool) : outcome unit :=
  if NDEBUG then Returns tt else if c then Returns tt else Aborts.

(** [*p] for a [boost::shared_ptr]: a null pointer has no pointee. *)
Definition deref {A} (p : option A) : outcome A :=
  match p with Some a => Returns a | None => Undefined end.

(** [v[i]] and [v.back()] of a [std::vector]. *)
Definition at_ {A} (v : list A) (i : nat) : outcome A := deref (nth_error v i).
Definition back {A} (v : list A) : outcome A := deref (nth_error v (length v - 1)).

(** [v[i] = x] on a [std::vector], for [i] in range. *)
Fixpoint vector_set {A} (v : list A) (i : nat) (x : A) : list A :=
  match v, i with
  | [], _ => []
  | _ :: t, 0 => x :: t
  | h :: t, S i' => h :: vector_set t i' x
  end.

(** ** Dense matrices and vectors (Eigen) *)

Module Eigen.

Record Matrix := mkMatrix {
  rows : nat;
  cols : nat;
  coeff : nat -> nat -> double
}.

Definition Zero (r c : nat) : Matrix :=
  {| rows := r; cols := c; coeff := fun _ _ => 0%float |}.

(** [M(i,j) = x]; Eigen gives no meaning to a write outside the matrix, the
    model leaves the matrix alone there. *)
Definition set (M : Matrix) (i j : nat) (x : double) : Matrix :=
  if (i <? rows M) && (j <? cols M) then
    {| rows := rows M; cols := cols M;
       coeff := fun i' j' => if (i' =? i) && (j' =? j) then x else coeff M i' j' |}
  else M.

(** [M.block(r0, c0, nr, nc)], read as a matrix of its own. *)
Definition block (M : Matrix) (r0 c0 nr nc : nat) : Matrix :=
  {| rows := nr; cols := nc; coeff := fun i j => coeff M (r0 + i) (c0 + j) |}.

(** [M.block(r0, c0, B.rows(), B.cols()) = B]. *)
Definition assign_block (M : Matrix) (r0 c0 : nat) (B : Matrix) : Matrix :=
  {| rows := rows M; cols := cols M;
     coeff := fun i j =>
       if (r0 <=? i) && (i <? r0 + rows B) && (i <? rows M)
          && (c0 <=? j) && (j <? c0 + cols B) && (j <? cols M)
       then coeff B (i - r0) (j - c0) else coeff M i j |}.

(** [M.col(j) = v]. *)
Definition assign_col (M : Matrix) (r0 j : nat) (v : Vector) : Matrix :=
  {| rows := rows M; cols := cols M;
     coeff := fun i j' =>
       if (r0 <=? i) && (i <? r0 + length v) && (i <? rows M) && (j' =? j) && (j <? cols M)
       then nth (i - r0) v 0%float else coeff M i j' |}.

Definition row (M : Matrix) (i : nat) : Vector :=
  map (fun j => coeff M i j) (seq 0 (cols M)).

Definition col (M : Matrix) (j : nat) : Vector :=
  map (fun i => coeff M i j) (seq 0 (rows M)).

(** [-v], [u + v], [u.dot(v)], [A * x]; sums run left to right. *)
Definition neg (v : Vector) : Vector := map PrimFloat.opp v.

Fixpoint plus (u v : Vector) : Vector :=
  match u, v with
  | x :: u', y :: v' => (x + y)%float :: plus u' v'
  | _, _ => []
  end.

Definition dot (u v : Vector) : double :=
  match combine u v with
  | [] => 0%float
  | (x, y) :: rest =>
      fold_left (fun acc p => (acc + fst p * snd p)%float) rest (x * y)%float
  end.

Definition mul (A : Matrix) (x : Vector) : Vector :=
  map (fun i => dot (row A i) x) (seq 0 (rows A)).

(** [v.segment(start, n)]. *)
Definition segment (v : Vector) (start n : nat) : Vector :=
  firstn n (skipn start v).

(** [M.topRows(n).triangularView<Eigen::StrictlyLower>() = Zero]. *)
Definition zeroStrictlyLower (M : Matrix) (n : nat) : Matrix :=
  {| rows := rows M; cols := cols M;
     coeff := fun i j =>
       if (i <? n) && (i <? rows M) && (j <? i) && (j <? cols M)
       then 0%float else coeff M i j |}.

End Eigen.
Definition Matrix := Eigen.Matrix.

(** [sub(v, i1, i2)] of gtsam/base/Vector.h: the entries [i1 .. i2-1]. *)
Definition sub (v : Vector) (i1 i2 : nat) : Vector :=
  firstn (i2 - i1) (skipn i1 v).

(** ** Block-structured augmented matrix *)

Module VerticalBlockView.

(** Modelled from the spec: the block view ([VerticalBlockView], typedef
    [BlockAb]) is declared in a header that is not part of the sources.
    Following sections 3 and 4.1 of the design document, a view is a
    sequence of block widths over a backing matrix together with the active
    window [rowStart], [rowEnd], [firstBlock]; the backing matrix is the
    [matrix_] member of the owner and is passed to the operations that read
    it. *)
Record BlockAb := mkBlockAb {
  dims : list nat;
  rowStart : nat;
  rowEnd : nat;
  firstBlock : nat
}.

(** Column at which block [k] of the backing matrix starts. *)
Definition columnOffset (Ab : BlockAb) (k : nat) : nat :=
  list_sum (firstn k (dims Ab)).

(** [Ab.offset(k)]: the same for block [k] of the active window. *)
Definition offset (Ab : BlockAb) (k : nat) : nat :=
  columnOffset Ab (firstBlock Ab + k).

Definition rows (Ab : BlockAb) : nat := rowEnd Ab - rowStart Ab.

Definition nBlocks (Ab : BlockAb) : nat := length (dims Ab) - firstBlock Ab.

Definition cols (Ab : BlockAb) : nat :=
  columnOffset Ab (length (dims Ab)) - columnOffset Ab (firstBlock Ab).

(** [Ab.range(i, j)]: the blocks [i .. j-1] of the active window. *)
Definition range (M : Matrix) (Ab : BlockAb) (i j : nat) : Matrix :=
  Eigen.block M (rowStart Ab) (offset Ab i) (rows Ab) (offset Ab j - offset Ab i).

(** [Ab(k)]. *)
Definition block (M : Matrix) (Ab : BlockAb) (k : nat) : Matrix :=
  range M Ab k (k + 1).

(** [Ab.full()]. *)
Definition full (M : Matrix) (Ab : BlockAb) : Matrix :=
  range M Ab 0 (nBlocks Ab).

(** [Ab.column(k, j)]: column [j] of block [k], over the active rows. *)
Definition column (M : Matrix) (Ab : BlockAb) (k j : nat) : Vector :=
  Eigen.col (Eigen.block M (rowStart Ab) (offset Ab k + j) (rows Ab) 1) 0.

(** The view [BlockAb(matrix, dims, dims+n, m)]: [m] rows, the given block
    widths, the whole matrix active. *)
Definition fromDims (ds : list nat) (m : nat) : BlockAb :=
  {| dims := ds; rowStart := 0; rowEnd := m; firstBlock := 0 |}.

(** [Ab.copyStructureFrom(rhs)]: a backing store of the shape of the active
    window of [rhs], whose values are whatever the allocation holds
    ([uninitialized]), and the layout of that window. *)
Definition copyStructureFrom (uninitialized : nat -> nat -> double) (rhs : BlockAb)
  : Matrix * BlockAb :=
  (Eigen.mkMatrix (rows rhs) (cols rhs) uninitialized,
   fromDims (skipn (firstBlock rhs) (dims rhs)) (rows rhs)).

(** [Ab.assignNoalias(rhs)]: the structure and the values of the active
    window of [rhs]. *)
Definition assignNoalias (Mrhs : Matrix) (rhs : BlockAb) : Matrix * BlockAb :=
  (full Mrhs rhs, fromDims (skipn (firstBlock rhs) (dims rhs)) (rows rhs)).

Definition set_rowStart (Ab : BlockAb) (r : nat) : BlockAb :=
  {| dims := dims Ab; rowStart := r; rowEnd := rowEnd Ab; firstBlock := firstBlock Ab |}.
Definition set_rowEnd (Ab : BlockAb) (r : nat) : BlockAb :=
  {| dims := dims Ab; rowStart := rowStart Ab; rowEnd := r; firstBlock := firstBlock Ab |}.
Definition set_firstBlock (Ab : BlockAb) (b : nat) : BlockAb :=
  {| dims := dims Ab; rowStart := rowStart Ab; rowEnd := rowEnd Ab; firstBlock := b |}.

End VerticalBlockView.
Definition BlockAb := VerticalBlockView.BlockAb.

(** ** Noise models *)

(** Modelled from the spec: the noise models (gtsam/linear/NoiseModel) are not
    part of the sources; section 4.4 of the design document lists what a
    factor uses of them and says the engine treats them as a capability
    interface.  [SharedDiagonal] is the type of the models; [QR] works in
    place, so it yields the new coefficients of the matrix it was given (whose
    shape stays) and the new model. *)
Class NoiseModel (SharedDiagonal : Type) := {
  dim : SharedDiagonal -> nat;
  sigmas : SharedDiagonal -> Vector;
  isConstrained : SharedDiagonal -> bool;
  whiten : SharedDiagonal -> Vector -> Vector;
  Whiten : SharedDiagonal -> Matrix -> Matrix;
  QR : SharedDiagonal -> Matrix -> (nat -> nat -> double) * SharedDiagonal;
  (* the factories noiseModel::Unit::Create, noiseModel::Diagonal::Sigmas
     (without and with its second argument) and
     noiseModel::Constrained::MixedSigmas *)
  Unit_Create : nat -> SharedDiagonal;
  Diagonal_Sigmas : Vector -> SharedDiagonal;
  Diagonal_Sigmas_smart : Vector -> bool -> SharedDiagonal;
  Constrained_MixedSigmas : Vector -> SharedDiagonal
}.

(** ** Containers of the standard library *)

(** [v.resize(n, x)] on a [std::vector]. *)
Definition vector_resize {A} (v : list A) (n : nat) (x : A) : list A :=
  firstn n v ++ repeat x (n - length v).

(** [s.insert(x)] on a [std::set<Index>], kept as its ascending sequence. *)
Fixpoint set_insert (x : Index) (s : list Index) : list Index :=
  match s with
  | [] => [x]
  | y :: s' =>
      if x <? y then x :: s
      else if x =? y then s
      else y :: set_insert x s'
  end.

Fixpoint nodupb (l : list Index) : bool :=
  match l with
  | [] => true
  | x :: t => negb (existsb (Nat.eqb x) t) && nodupb t
  end.

(** ** Conditionals and Hessian factors *)

(** Modelled from the spec: [GaussianConditional] is declared outside the
    sources.  Section 4.3 builds it from the keys, the number of frontals, the
    view of the first [frontalDim] rows and their sigmas; the record keeps
    what the constructor is given, the view as a copy of its active window. *)
Record GaussianConditional := mkGaussianConditional {
  cg_keys : list Index;
  cg_nrFrontals : nat;
  cg_matrix : Matrix;
  rsd_ : BlockAb;
  cg_sigmas : Vector
}.

Definition make_conditional (keys : list Index) (nrFrontals : nat)
    (M : Matrix) (Ab : BlockAb) (sigmas : Vector) : GaussianConditional :=
  let '(M', Ab') := VerticalBlockView.assignNoalias M Ab in
  mkGaussianConditional keys nrFrontals M' Ab' sigmas.

Definition get_sigmas (cg : GaussianConditional) : Vector := cg_sigmas cg.

(** [cg.get_d()]: the right-hand side, the last column of [rsd_]. *)
Definition get_d (cg : GaussianConditional) : Vector :=
  VerticalBlockView.column (cg_matrix cg) (rsd_ cg) (length (cg_keys cg)) 0.

(** Modelled from the spec: [HessianFactor] is declared outside the sources;
    section 3 describes it as a symmetric block matrix [info_] over its
    keys. *)
Record HessianFactor := mkHessianFactor {
  hf_keys : list Index;
  hf_matrix : Matrix;
  info_ : BlockAb
}.

(** [Permutation]: a vector of indices; [Permutation::Identity(n)]. *)
Definition Permutation_Identity (n : nat) : list Index := seq 0 n.

(** ** JacobianFactor *)

Section JacobianFactor.

Context {SharedDiagonal : Type} `{NoiseModel SharedDiagonal}.

(** The build flag and what freshly allocated storage holds. *)
Variable NDEBUG : bool.
Variable uninitialized : nat -> nat -> double.

(** Functions of other translation units: [equal_with_abs_tol] of
    gtsam/base/Vector.h on two rows, and [choleskyCareful] of
    gtsam/base/cholesky.h, which works in place, returns the rank it found
    and a flag, or throws [CarefulCholeskyNegativeMatrixException]. *)
Variable equal_with_abs_tol : Vector -> Vector -> double -> bool.
Variable choleskyCareful :
  Matrix -> outcome ((nat -> nat -> double) * (nat * bool)).

(** [model_] is a shared pointer and may be null. *)
Record JacobianFactor := mkJacobianFactor {
  keys_ : list Index;
  model_ : option SharedDiagonal;
  firstNonzeroBlocks_ : list nat;
  matrix_ : Matrix;
  Ab_ : BlockAb
}.

(** The three kinds of [GaussianFactor] a reference can point to. *)
Inductive GaussianFactor :=
| IsJacobianFactor (f : JacobianFactor)
| IsHessianFactor (h : HessianFactor)
| IsOtherFactor (keys : list Index).

(** *** Accessors of the class declaration

    The declaration of the class (JacobianFactor.h) is not part of the
    sources; these are its inline accessors as the definitions in
    JacobianFactor.cpp use them. *)

Definition size (f : JacobianFactor) : nat := length (keys_ f).

Definition rows (f : JacobianFactor) : nat := VerticalBlockView.rows (Ab_ f).
Definition cols (f : JacobianFactor) : nat := VerticalBlockView.cols (Ab_ f).

(** Modelled from the spec: [empty()] is defined in the missing class
    declaration.  Section 3 of the design document calls a factor empty
    when it has zero rows (and then zero keys), and [print] (lines 228-231)
    lists the keys of an empty factor: the test is on the rows, not on the
    keys.  A factor without keys that has rows is not empty. *)
Definition empty (f : JacobianFactor) : bool := rows f =? 0.

(** [front()]: the first key. *)
Definition front (f : JacobianFactor) : outcome Index := deref (hd_error (keys_ f)).

(** [getA(var)] for the iterator at position [pos], that is [Ab_(pos)], and
    [getb()], the column of the block after the last key. *)
Definition getA (f : JacobianFactor) (pos : nat) : Matrix :=
  VerticalBlockView.block (matrix_ f) (Ab_ f) pos.

Definition getb (f : JacobianFactor) : Vector :=
  VerticalBlockView.column (matrix_ f) (Ab_ f) (size f) 0.

(** [getb() = b]. *)
Definition set_b (M : Matrix) (Ab : BlockAb) (nkeys : nat) (b : Vector) : Matrix :=
  Eigen.assign_col M (VerticalBlockView.rowStart Ab) (VerticalBlockView.offset Ab nkeys) b.

(** The entries of [A] written into block [j]. *)
Definition assign_A (M : Matrix) (Ab : BlockAb) (j : nat) (A : Matrix) : Matrix :=
  Eigen.assign_block M (VerticalBlockView.rowStart Ab) (VerticalBlockView.offset Ab j) A.

(** [Ab_(j) = A].  A block cannot be resized: Eigen asserts that [A] has the
    rows and the columns of the block (an assertion that [NDEBUG] compiles
    out with the others), and the assignment has no meaning when it has
    not. *)
Definition set_A (M : Matrix) (Ab : BlockAb) (j : nat) (A : Matrix) : outcome Matrix :=
  if (Eigen.rows A =? Eigen.rows (VerticalBlockView.block M Ab j))
     && (Eigen.cols A =? Eigen.cols (VerticalBlockView.block M Ab j))
  then Returns (assign_A M Ab j A)
  else assert_ NDEBUG false ;;; Undefined.

(** *** assertInvariants (lines 46-60) *)

(** Modelled from the spec: [GaussianFactor::assertInvariants] belongs to the
    base class, which is not part of the sources.  Line 48 says of this call
    "The base class checks for unique keys", and section 3 of the design
    document says that keys are unique within a factor.  The check is taken
    to be an assertion like the others of this function.  What a build with
    assertions does on a repeated key, stop or throw, the sources do not
    settle, and the statements below say nothing about it: where they
    concern a build with assertions they are about factors whose keys are
    distinct, or about calls that return. *)
Definition GaussianFactor_assertInvariants (f : JacobianFactor) : outcome unit :=
  assert_ NDEBUG (nodupb (keys_ f)).

Definition contains_NaN (f : JacobianFactor) : bool :=
  existsb (fun i =>
    existsb (fun j => PrimFloat.is_nan (Eigen.coeff (matrix_ f) i j))
            (seq 0 (VerticalBlockView.cols (Ab_ f))))
    (seq 0 (VerticalBlockView.rows (Ab_ f))).

Definition assertInvariants (f : JacobianFactor) : outcome unit :=
  if NDEBUG then Returns tt
  else
    GaussianFactor_assertInvariants f ;;;
    assert_ NDEBUG
      (((size f =? 0) && (VerticalBlockView.rows (Ab_ f) =? 0)
                      && (VerticalBlockView.nBlocks (Ab_ f) =? 0))
       || (size f + 1 =? VerticalBlockView.nBlocks (Ab_ f))) ;;;
    assert_ NDEBUG (length (firstNonzeroBlocks_ f) =? VerticalBlockView.rows (Ab_ f)) ;;;
    assert_ NDEBUG
      (forallb (fun b => b <? VerticalBlockView.nBlocks (Ab_ f)) (firstNonzeroBlocks_ f)) ;;;
    if contains_NaN f
    then Throws (invalid_argument "JacobianFactor contains NaN matrix entries.")
    else Returns tt.

(** Ends every constructor: the object exists when the check goes through. *)
Definition checked (f : JacobianFactor) : outcome JacobianFactor :=
  assertInvariants f ;;; Returns f.

(** *** Constructors (lines 63-170) *)

(** Copy constructor. *)
Definition JacobianFactor_copy (gf : JacobianFactor) : outcome JacobianFactor :=
  let '(M, Ab) := VerticalBlockView.assignNoalias (matrix_ gf) (Ab_ gf) in
  checked (mkJacobianFactor (keys_ gf) (model_ gf) (firstNonzeroBlocks_ gf) M Ab).

(** [operator=] (lines 216-223). *)
Definition assign (rhs : JacobianFactor) : outcome JacobianFactor :=
  let '(M, Ab) := VerticalBlockView.assignNoalias (matrix_ rhs) (Ab_ rhs) in
  checked (mkJacobianFactor (keys_ rhs) (model_ rhs) (firstNonzeroBlocks_ rhs) M Ab).

(** Default constructor. *)
Definition JacobianFactor_default : outcome JacobianFactor :=
  checked (mkJacobianFactor [] None [] (Eigen.mkMatrix 0 0 uninitialized)
                            (VerticalBlockView.fromDims [] 0)).

(** Storage and view for the block widths [ds] and [m] rows. *)
Definition allocate_blocks (ds : list nat) (m : nat) : Matrix * BlockAb :=
  VerticalBlockView.copyStructureFrom uninitialized (VerticalBlockView.fromDims ds m).

(** From the right-hand side alone. *)
Definition JacobianFactor_b (b_in : Vector) : outcome JacobianFactor :=
  let '(M, Ab) := allocate_blocks [1] (length b_in) in
  let M := set_b M Ab 0 b_in in
  checked (mkJacobianFactor [] None (repeat 0 (length b_in)) M Ab).

(** From any number of terms: the constructors for one, two and three
    terms, for a [std::vector] and for a [std::list] of terms all allocate
    the blocks, copy each [A] into its block and [b] into the last
    column. *)
Fixpoint fill_terms (M : Matrix) (Ab : BlockAb) (j : nat) (As : list Matrix)
  : outcome Matrix :=
  match As with
  | [] => Returns M
  | A :: rest => M <- set_A M Ab j A ;; fill_terms M Ab (j + 1) rest
  end.

Definition JacobianFactor_terms (terms : list (Index * Matrix)) (b : Vector)
    (model : option SharedDiagonal) : outcome JacobianFactor :=
  let ds := map (fun t => Eigen.cols (snd t)) terms ++ [1] in
  let '(M, Ab) := allocate_blocks ds (length b) in
  M <- fill_terms M Ab 0 (map snd terms) ;;
  let M := set_b M Ab (length terms) b in
  checked (mkJacobianFactor (map fst terms) model (repeat 0 (length b)) M Ab).

Definition JacobianFactor_1 (i1 : Index) (A1 : Matrix) (b : Vector)
    (model : option SharedDiagonal) : outcome JacobianFactor :=
  JacobianFactor_terms [(i1, A1)] b model.

Definition JacobianFactor_2 (i1 : Index) (A1 : Matrix) (i2 : Index) (A2 : Matrix)
    (b : Vector) (model : option SharedDiagonal) : outcome JacobianFactor :=
  JacobianFactor_terms [(i1, A1); (i2, A2)] b model.

Definition JacobianFactor_3 (i1 : Index) (A1 : Matrix) (i2 : Index) (A2 : Matrix)
    (i3 : Index) (A3 : Matrix) (b : Vector) (model : option SharedDiagonal)
    : outcome JacobianFactor :=
  JacobianFactor_terms [(i1, A1); (i2, A2); (i3, A3)] b model.

(** From a conditional. *)
Definition JacobianFactor_conditional (cg : GaussianConditional) : outcome JacobianFactor :=
  let '(M, Ab) := VerticalBlockView.assignNoalias (cg_matrix cg) (rsd_ cg) in
  checked (mkJacobianFactor (cg_keys cg)
             (Some (Diagonal_Sigmas_smart (get_sigmas cg) true))
             (vector_resize [] (length (get_d cg)) 0) M Ab).

(** *** Conversion from a Hessian factor (lines 173-213) *)

(** [set<Index> vars; for (j...) vars.insert(keys_[j])]. *)
Definition collect_vars (keys : list Index) : list Index :=
  fold_left (fun vars k => set_insert k vars) keys [].

(** [BOOST_FOREACH(var, vars) permutation[var] = jNew++]. *)
Definition number_vars (vars : list Index) (permutation : list Index) : list Index :=
  fst (fold_left (fun st var => (vector_set (fst st) var (snd st), S (snd st)))
                 vars (permutation, 0)).

(** Modelled from the spec: [permuteWithInverse] is inherited from the base
    class, which is not part of the sources and owns nothing but the keys;
    the design document speaks of an explicit permutation of the keys, and
    the model renames every key through the permutation. *)
Definition permuteWithInverse (permutation : list Index) (keys : list Index) : list Index :=
  map (fun k => nth k permutation k) keys.

(** [BOOST_FOREACH(var, vars) keys_[jNew++] = var]. *)
Definition store_vars (vars : list Index) (keys : list Index) : list Index :=
  fst (fold_left (fun st var => (vector_set (fst st) (snd st) var, S (snd st)))
                 vars (keys, 0)).

Definition JacobianFactor_Hessian (factor : HessianFactor) : outcome JacobianFactor :=
  let keys := hf_keys factor in
  let '(M, Ab) := VerticalBlockView.assignNoalias (hf_matrix factor) (info_ factor) in
  (* the handler prints the factor and throws the exception again *)
  r <- choleskyCareful M ;;
  let maxrank := fst (snd r) in
  let M := Eigen.mkMatrix (Eigen.rows M) (Eigen.cols M) (fst r) in
  let M := Eigen.zeroStrictlyLower M maxrank in
  let Ab := VerticalBlockView.set_rowEnd Ab maxrank in
  let model := Some (Unit_Create maxrank) in
  let fnz := vector_resize [] (VerticalBlockView.rows Ab) 0 in
  let vars := collect_vars keys in
  last_var <- back vars ;;
  let permutation := number_vars vars (Permutation_Identity (last_var + 1)) in
  let keys := permuteWithInverse permutation keys in
  let keys := store_vars vars keys in
  checked (mkJacobianFactor keys model fnz M Ab).

(** From a reference to any Gaussian factor (lines 70-79). *)
Definition JacobianFactor_GaussianFactor (gf : GaussianFactor) : outcome JacobianFactor :=
  match gf with
  | IsJacobianFactor rhs =>
      tmp <- JacobianFactor_copy rhs ;; this <- assign tmp ;; checked this
  | IsHessianFactor rhs =>
      tmp <- JacobianFactor_Hessian rhs ;; this <- assign tmp ;; checked this
  | IsOtherFactor _ =>
      Throws (invalid_argument
        "In JacobianFactor(const GaussianFactor& rhs), rhs is neither a JacobianFactor nor a HessianFactor")
  end.

(** *** equals (lines 241-263) *)

Definition equals (this : JacobianFactor) (f_ : GaussianFactor) (tol : double) : bool :=
  match f_ with
  | IsJacobianFactor f =>
      if empty this then empty f
      else if negb (if list_eq_dec Nat.eq_dec (keys_ this) (keys_ f) then true else false)
      then false
      else if negb ((VerticalBlockView.rows (Ab_ this) =? VerticalBlockView.rows (Ab_ f))
                    && (VerticalBlockView.cols (Ab_ this) =? VerticalBlockView.cols (Ab_ f)))
      then false
      else
        let Ab1 := VerticalBlockView.range (matrix_ this) (Ab_ this) 0
                     (VerticalBlockView.nBlocks (Ab_ this)) in
        let Ab2 := VerticalBlockView.range (matrix_ f) (Ab_ f) 0
                     (VerticalBlockView.nBlocks (Ab_ f)) in
        forallb (fun row =>
                   equal_with_abs_tol (Eigen.row Ab1 row) (Eigen.row Ab2 row) tol
                   || equal_with_abs_tol (Eigen.neg (Eigen.row Ab1 row)) (Eigen.row Ab2 row) tol)
                (seq 0 (Eigen.rows Ab1))
  | _ => false
  end.

(** *** Residuals (lines 266-285) *)

(** [VectorValues]: the vector of every variable. *)
Definition VectorValues := Index -> Vector.

Definition unweighted_error (f : JacobianFactor) (c : VectorValues) : Vector :=
  let e := Eigen.neg (getb f) in
  if empty f then e
  else
    fold_left (fun e pos => Eigen.plus e (Eigen.mul (getA f pos) (c (nth pos (keys_ f) 0))))
              (seq 0 (size f)) e.

Definition error_vector (f : JacobianFactor) (c : VectorValues) : outcome Vector :=
  if empty f then
    model <- deref (model_ f) ;; Returns (whiten model (Eigen.neg (getb f)))
  else
    model <- deref (model_ f) ;; Returns (whiten model (unweighted_error f c)).

Definition error (f : JacobianFactor) (c : VectorValues) : outcome double :=
  if empty f then Returns 0%float
  else
    weighted <- error_vector f c ;;
    Returns (0.5 * Eigen.dot weighted weighted)%float.

(** *** sparse (lines 331-357) *)

Definition triple := (nat * nat * double)%type.

#[local] Set Warnings "-inexact-float".
(** The literal [1e-12], rounded to the nearest [double] as the compiler
    does. *)
Definition sparse_tolerance : double := 1e-12%float.
#[local] Set Warnings "inexact-float".

(** The two inner loops over the entries of one whitened block. *)
Definition sparse_block (whitenedA : Matrix) (column_start : nat) : list triple :=
  flat_map (fun i =>
    flat_map (fun j =>
      let s := Eigen.coeff whitenedA i j in
      if PrimFloat.ltb sparse_tolerance (PrimFloat.abs s)
      then [(i, column_start + j, s)] else [])
      (seq 0 (Eigen.cols whitenedA)))
    (seq 0 (Eigen.rows whitenedA)).

(** The loop over the variables, from position [pos] on. *)
Fixpoint sparse_vars (f : JacobianFactor) (model : SharedDiagonal)
    (columnIndices : list nat) (pos : nat) (vars : list Index)
    (entries : list triple) : outcome (list triple) :=
  match vars with
  | [] => Returns entries
  | var :: rest =>
      let whitenedA := Whiten model (getA f pos) in
      column_start <- at_ columnIndices var ;;
      sparse_vars f model columnIndices (S pos) rest
                  (entries ++ sparse_block whitenedA column_start)
  end.

(** The last loop: the whitened right-hand side. *)
Definition sparse_b (whitenedb : Vector) (bcolumn : nat) : list triple :=
  map (fun i => (i, bcolumn, nth i whitenedb 0%float)) (seq 0 (length whitenedb)).

Definition sparse (f : JacobianFactor) (columnIndices : list nat) : outcome (list triple) :=
  model <- deref (model_ f) ;;
  entries <- sparse_vars f model columnIndices 0 (keys_ f) [] ;;
  let whitenedb := whiten model (getb f) in
  bcolumn <- back columnIndices ;;
  Returns (entries ++ sparse_b whitenedb bcolumn).

(** *** eliminate (lines 373-487) *)

(** Lines 425-428: zero the lower-left triangle below the diagonal, in the
    first [dim] rows. *)
Definition zero_lower_left (M : Matrix) (dim : nat) : Matrix :=
  if 0 <? Eigen.rows M then
    fold_left (fun M j =>
      fold_left (fun M i => Eigen.set M i j 0%float) (seq (j + 1) (dim - (j + 1))) M)
      (seq 0 (Eigen.cols M)) M
  else M.

(** Line 474: the [while] loop; it stops at the latest when [varpos] has
    reached [size()], so [fuel = size()] rounds are enough. *)
Fixpoint advance_varpos (fuel : nat) (Ab : BlockAb) (nkeys row varpos : nat) : nat :=
  match fuel with
  | 0 => varpos
  | S fuel' =>
      if (varpos <? nkeys)
         && (VerticalBlockView.offset Ab (varpos + 1) - VerticalBlockView.offset Ab 0 <=? row)
      then advance_varpos fuel' Ab nkeys row (varpos + 1)
      else varpos
  end.

(** Lines 470-478: the new staircase.  One round of the [for] loop takes
    [varpos] and the vector to their values after row [row]. *)
Definition rowstarts_step (Ab : BlockAb) (nkeys : nat) (st : nat * list nat) (row : nat)
  : nat * list nat :=
  let varpos := advance_varpos nkeys Ab nkeys row (fst st) in
  (varpos, vector_set (snd st) row varpos).

Definition rowstarts (Ab : BlockAb) (nkeys : nat) (fnz : list nat) : list nat :=
  snd (fold_left (rowstarts_step Ab nkeys)
                 (seq 0 (VerticalBlockView.rows Ab))
                 (0, vector_resize fnz (VerticalBlockView.rows Ab) 0)).

Definition singular_message : string :=
  "JacobianFactor is singular in variable %1%, discovered while attempting
to eliminate this variable.".

Definition eliminate (f : JacobianFactor) (nrFrontals : nat)
    : outcome (GaussianConditional * JacobianFactor) :=
  let Ab := Ab_ f in
  assert_ NDEBUG ((VerticalBlockView.rowStart Ab =? 0)
                  && (VerticalBlockView.rowEnd Ab =? Eigen.rows (matrix_ f))
                  && (VerticalBlockView.firstBlock Ab =? 0)) ;;;
  assert_ NDEBUG (nrFrontals <=? size f) ;;;
  assertInvariants f ;;;
  let frontalDim := Eigen.cols (VerticalBlockView.range (matrix_ f) Ab 0 nrFrontals) in
  (* in-place QR of the dense Ab, appropriate to the noise model *)
  model <- deref (model_ f) ;;
  let qr := QR model (matrix_ f) in
  let noiseModel := snd qr in
  let M := Eigen.mkMatrix (Eigen.rows (matrix_ f)) (Eigen.cols (matrix_ f)) (fst qr) in
  let M := zero_lower_left M (dim noiseModel) in
  (* check for a singular factor *)
  if dim noiseModel <? frontalDim then
    var <- front f ;; Throws (domain_error singular_message var)
  else
    (* restrict the matrix to the first nrFrontals variables *)
    let Ab := VerticalBlockView.set_rowEnd Ab (VerticalBlockView.rowStart Ab + frontalDim) in
    let sigmas_ := Eigen.segment (sigmas noiseModel) (VerticalBlockView.rowStart Ab)
                     (VerticalBlockView.rowEnd Ab - VerticalBlockView.rowStart Ab) in
    let conditionals := make_conditional (keys_ f) nrFrontals M Ab sigmas_ in
    let Ab := VerticalBlockView.set_rowStart Ab (VerticalBlockView.rowStart Ab + frontalDim) in
    let Ab := VerticalBlockView.set_firstBlock Ab (VerticalBlockView.firstBlock Ab + nrFrontals) in
    (* take the lower-right block of Ab to get the new factor *)
    let Ab := VerticalBlockView.set_rowEnd Ab (dim noiseModel) in
    let keys := skipn nrFrontals (keys_ f) in
    let model' :=
      if isConstrained noiseModel
      then Constrained_MixedSigmas (sub (sigmas noiseModel) frontalDim (dim noiseModel))
      else Diagonal_Sigmas (sub (sigmas noiseModel) frontalDim (dim noiseModel)) in
    (* [Ab_.cols()-1] is the largest [size_t] when [Ab_.cols()] is 0 *)
    assert_ NDEBUG ((VerticalBlockView.cols Ab =? 0)
                    || (VerticalBlockView.rows Ab <=? VerticalBlockView.cols Ab - 1)) ;;;
    let fnz := rowstarts Ab (length keys) (firstNonzeroBlocks_ f) in
    let f' := mkJacobianFactor keys (Some model') fnz M Ab in
    assertInvariants f' ;;;
    Returns (conditionals, f').

Definition eliminateFirst (f : JacobianFactor) := eliminate f 1.

End JacobianFactor.

Arguments JacobianFactor SharedDiagonal : clear implicits.
Arguments GaussianFactor SharedDiagonal : clear implicits.

(** ** CameraSet (gtsam/geometry/CameraSet.h, lines 82-93) *)

Module CameraSet.
Section CameraSet.

(** The template parameter and its [equals]. *)
Variable CAMERA : Type.
Variable CAMERA_equals : CAMERA -> CAMERA -> double -> bool.

Definition CameraSet := list CAMERA.

(** [v.at(i)] of a [std::vector], which checks the index. *)
Definition at_checked (v : CameraSet) (i : nat) : outcome CAMERA :=
  match nth_error v i with
  | Some c => Returns c
  | None => Throws out_of_range
  end.

(** One round of the body of the loop: the new value of [camerasAreEqual]
    and whether the round ended in [break]. *)
Definition equals_body (this p : CameraSet) (tol : double) (i : nat)
    (camerasAreEqual : bool) : outcome (bool * bool) :=
  a <- at_checked this i ;;
  b <- at_checked p i ;;
  let camerasAreEqual :=
    if Bool.eqb (CAMERA_equals a b tol) false then false else camerasAreEqual in
  Returns (camerasAreEqual, true).

(** The [for] loop from index [i] on; it runs at most [size() - i] rounds. *)
Fixpoint equals_loop (rounds : nat) (this p : CameraSet) (tol : double) (i : nat)
    (camerasAreEqual : bool) : outcome bool :=
  match rounds with
  | 0 => Returns camerasAreEqual
  | S rounds' =>
      if i <? length this then
        r <- equals_body this p tol i camerasAreEqual ;;
        if snd r then Returns (fst r)
        else equals_loop rounds' this p tol (i + 1) (fst r)
      else Returns camerasAreEqual
  end.

Definition equals (this p : CameraSet) (tol : double) : outcome bool :=
  if negb (length this =? length p) then Returns false
  else equals_loop (length this) this p tol 0 true.

End CameraSet.

(** *** ErrorVector, project2 and reprojectionError (lines 48-62 and 101-138 of
    the same file) *)

Section Projection.

(** The template parameters: the cameras, of dimension [D]; their
    measurements [Z], of dimension [ZDim], with their difference, their
    [vector()] and the value a default-constructed [Z] has; the points, of
    dimension [N]; and [project2] of a camera, which is told whether the two
    derivatives are wanted and may throw.  [uninitialized_vector] and
    [uninitialized] are what a fresh allocation holds. *)
Variables CAMERA POINT Z : Type.
Variables D ZDim N : nat.
Variable Z_minus : Z -> Z -> Z.
Variable Z_vector : Z -> Vector.
Variable Z_default : Z.
Variable CAMERA_project2 : CAMERA -> POINT -> bool -> bool -> outcome (Z * Matrix * Matrix).
Variable uninitialized_vector : nat -> double.
Variable uninitialized : nat -> nat -> double.

(** [b.segment<n>(start) = v], for a segment inside [b] and a [v] of [n]
    entries. *)
Definition assign_segment (b : Vector) (start n : nat) (v : Vector) : Vector :=
  firstn start b ++ firstn n v ++ skipn (start + n) b.

Definition size_mismatch : string := "CameraSet::errors: size mismatch".

(** The loop runs over [predicted[i]] and [measured[i]] for [i < m], both
    vectors having [m] entries when it is reached. *)
Definition ErrorVector (predicted measured : list Z) : outcome Vector :=
  let m := length predicted in
  if negb (length measured =? m) then Throws (runtime_error size_mismatch)
  else
    let b := map uninitialized_vector (seq 0 (ZDim * m)) in
    Returns
      (snd (fold_left
              (fun st pm =>
                 let e := Z_minus (fst pm) (snd pm) in
                 (fst st + ZDim, assign_segment (snd st) (fst st) ZDim (Z_vector e)))
              (combine predicted measured) (0, b))).

(** [E->resize(r, c)]: a matrix of that shape keeps its values, another one
    is allocated anew. *)
Definition resize (E : Matrix) (r c : nat) : Matrix :=
  if (Eigen.rows E =? r) && (Eigen.cols E =? c) then E
  else Eigen.mkMatrix r c uninitialized.

(** A matrix read at the fixed size [r] by [c]. *)
Definition fixed (r c : nat) (M : Matrix) : Matrix :=
  Eigen.mkMatrix r c (Eigen.coeff M).

(** Whether an optional argument is there. *)
Definition given {A} (o : option A) : bool :=
  match o with Some _ => true | None => false end.

(** The loop of [project2] from camera [i] on.  [Fs] and [E] are the
    optional arguments, passed by reference: the loop returns them as it
    leaves them. *)
Fixpoint project2_loop (point : POINT) (cameras : list CAMERA) (i : nat)
    (z : list Z) (Fs : option (list Matrix)) (E : option Matrix)
  : outcome (list Z * option (list Matrix) * option Matrix) :=
  match cameras with
  | [] => Returns (z, Fs, E)
  | camera :: rest =>
      r <- CAMERA_project2 camera point (given Fs) (given E) ;;
      let z := vector_set z i (fst (fst r)) in
      let Fs := option_map (fun Fs => vector_set Fs i (snd (fst r))) Fs in
      let E := option_map
                 (fun E => Eigen.assign_block E (ZDim * i) 0 (fixed ZDim N (snd r))) E in
      project2_loop point rest (i + 1) z Fs E
  end.

Definition project2 (this : CameraSet CAMERA) (point : POINT)
    (Fs : option (list Matrix)) (E : option Matrix)
  : outcome (list Z * option (list Matrix) * option Matrix) :=
  let m := length this in
  let z := repeat Z_default m in
  let E := option_map (fun E => resize E (ZDim * m) N) E in
  let Fs := option_map
              (fun Fs => vector_resize Fs m (Eigen.mkMatrix ZDim D uninitialized)) Fs in
  project2_loop point this 0 z Fs E.

Definition reprojectionError (this : CameraSet CAMERA) (point : POINT)
    (measured : list Z) (Fs : option (list Matrix)) (E : option Matrix)
  : outcome (Vector * option (list Matrix) * option Matrix) :=
  r <- project2 this point Fs E ;;
  b <- ErrorVector (fst (fst r)) measured ;;
  Returns (b, snd (fst r), snd r).

End Projection.
End CameraSet.

(** ** DecisionTreeFactor (gtsam/discrete/DecisionTreeFactor.h, lines 119-140) *)

Module DecisionTreeFactor.
Section DecisionTreeFactor.

(** The factor, the assignments, the domains and the result of
    [partiallyApply] are kept abstract: the three members read none of
    them. *)
Variables DecisionTreeFactor Values Domain DiscreteFactor : Type.

(** [domains] is passed by reference; the call returns it as it leaves
    it. *)
Definition ensureArcConsistency (this : DecisionTreeFactor) (j : nat)
    (domains : list Domain) : outcome (bool * list Domain) :=
  Returns (false, domains).

Definition not_implemented : string :=
  "DecisionTreeFactor::partiallyApply not implemented".

Definition partiallyApply (this : DecisionTreeFactor) (values : Values)
    : outcome DiscreteFactor :=
  Throws (runtime_error not_implemented).

Definition partiallyApply_domains (this : DecisionTreeFactor) (domains : list Domain)
    : outcome DiscreteFactor :=
  Throws (runtime_error not_implemented).

End DecisionTreeFactor.
End DecisionTreeFactor.

(** ** Vocabulary of the statements *)

Section Vocabulary.

Context {SharedDiagonal : Type} `{NoiseModel SharedDiagonal}.

(** The precondition of [eliminate]: the active view spans the full extent
    of the matrix. *)
Definition spans_full_extent (f : JacobianFactor SharedDiagonal) : Prop :=
  VerticalBlockView.rowStart (Ab_ f) = 0
  /\ VerticalBlockView.rowEnd (Ab_ f) = Eigen.rows (matrix_ f)
  /\ VerticalBlockView.firstBlock (Ab_ f) = 0.

(** The matrix with every term written into its block, the first term into
    block 0: what the loop of the constructors from terms leaves when every
    assignment is a defined one. *)
Definition blocks_written (M : Matrix) (Ab : BlockAb) (As : list Matrix) : Matrix :=
  fold_left (fun M jA => assign_A M Ab (fst jA) (snd jA)) (combine (seq 0 (length As)) As) M.

(** The blocks of the view are the columns of the matrix. *)
Definition blocks_cover (f : JacobianFactor SharedDiagonal) : Prop :=
  Eigen.cols (matrix_ f) = list_sum (VerticalBlockView.dims (Ab_ f)).

(** The total column width of the first [nrFrontals] blocks of the active
    view. *)
Definition frontalDim (f : JacobianFactor SharedDiagonal) (nrFrontals : nat) : nat :=
  list_sum (firstn nrFrontals
              (skipn (VerticalBlockView.firstBlock (Ab_ f)) (VerticalBlockView.dims (Ab_ f)))).

(** The model QR returns on the matrix of [f], and the rank it reports. *)
Definition QR_model (model : SharedDiagonal) (f : JacobianFactor SharedDiagonal)
  : SharedDiagonal := snd (QR model (matrix_ f)).

Definition QR_rank (model : SharedDiagonal) (f : JacobianFactor SharedDiagonal) : nat :=
  dim (QR_model model f).

(** What the QR of an augmented matrix of [m] rows and [n + 1] columns can
    report as its rank: at most [m] and at most [n]. *)
Definition QR_rank_in_bounds (model : SharedDiagonal) (f : JacobianFactor SharedDiagonal)
  : Prop :=
  QR_rank model f <= Eigen.rows (matrix_ f) /\ QR_rank model f < Eigen.cols (matrix_ f).

(** Block [k] of the view ends at or before column [row] of the active
    window. *)
Definition ends_before (Ab : BlockAb) (k row : nat) : Prop :=
  VerticalBlockView.offset Ab (k + 1) - VerticalBlockView.offset Ab 0 <= row.

(** Row [r] of the active view has an entry different from zero in block
    [k] (an entry [x] with [x == 0] false, so that a NaN counts as different
    from zero and [-0.0] does not); the first such block, if there is one; and
    the staircase invariant: the recorded block is at most that one. *)
Definition block_has_nonzero (f : JacobianFactor SharedDiagonal) (r k : nat) : bool :=
  existsb (fun j => negb (PrimFloat.eqb (Eigen.coeff (getA f k) r j) 0%float))
          (seq 0 (Eigen.cols (getA f k))).

Definition true_first_nonzero_block (f : JacobianFactor SharedDiagonal) (r : nat)
  : option nat :=
  find (block_has_nonzero f r) (seq 0 (VerticalBlockView.nBlocks (Ab_ f))).

Definition staircase (f : JacobianFactor SharedDiagonal) : Prop :=
  forall r k, r < rows f -> true_first_nonzero_block f r = Some k ->
              nth r (firstNonzeroBlocks_ f) 0 <= k.

(** [-b + sum_i A_i * c[key_i]], the terms added from left to right. *)
Definition residual (f : JacobianFactor SharedDiagonal) (c : VectorValues) : Vector :=
  fold_left Eigen.plus
    (map (fun pk => Eigen.mul (getA f (fst pk)) (c (snd pk)))
         (combine (seq 0 (size f)) (keys_ f)))
    (Eigen.neg (getb f)).

(** [0.5 * |v|^2]. *)
Definition half_squared_norm (v : Vector) : double :=
  (0.5 * Eigen.dot v v)%float.

(** [g] is [f] with some of the rows of its augmented matrix negated: same
    keys, same dimensions, and every row of the one is the row of the other
    or its negation. *)
Definition rows_negated (f g : JacobianFactor SharedDiagonal) : Prop :=
  keys_ g = keys_ f
  /\ VerticalBlockView.rows (Ab_ g) = VerticalBlockView.rows (Ab_ f)
  /\ VerticalBlockView.cols (Ab_ g) = VerticalBlockView.cols (Ab_ f)
  /\ forall row, row < VerticalBlockView.rows (Ab_ f) ->
       let r1 := Eigen.row (VerticalBlockView.full (matrix_ f) (Ab_ f)) row in
       let r2 := Eigen.row (VerticalBlockView.full (matrix_ g) (Ab_ g)) row in
       r2 = r1 \/ r2 = Eigen.neg r1.

(** The comparison [equal_with_abs_tol] accepts, at [tol], every row of the
    active view of [f] against itself, and its negation against itself. *)
Definition accepts_own_rows (equal_with_abs_tol : Vector -> Vector -> double -> bool)
    (f : JacobianFactor SharedDiagonal) (tol : double) : Prop :=
  forall row, row < VerticalBlockView.rows (Ab_ f) ->
    let r := Eigen.row (VerticalBlockView.full (matrix_ f) (Ab_ f)) row in
    equal_with_abs_tol r r tol = true
    /\ equal_with_abs_tol (Eigen.neg r) (Eigen.neg r) tol = true.

Definition with_model (f : JacobianFactor SharedDiagonal) (model : option SharedDiagonal)
  : JacobianFactor SharedDiagonal :=
  mkJacobianFactor (keys_ f) model (firstNonzeroBlocks_ f) (matrix_ f) (Ab_ f).


(** The factors the constructors, [operator=] and [eliminate] produce.  A
    constructor produces the factor it returns.  [eliminate] leaves a factor
    behind when it is called as its precondition asks (the active view spans
    the full extent) on a factor whose blocks are the columns of its matrix,
    and the QR of its noise model reports a rank within the bounds of that
    matrix. *)
Section Produced.

Variable NDEBUG : bool.
Variable uninitialized : nat -> nat -> double.
Variable choleskyCareful :
  Matrix -> outcome ((nat -> nat -> double) * (nat * bool)).

Inductive produced : JacobianFactor SharedDiagonal -> Prop :=
| produced_default f :
    JacobianFactor_default NDEBUG uninitialized = Returns f -> produced f
| produced_b b f :
    JacobianFactor_b NDEBUG uninitialized b = Returns f -> produced f
| produced_1 i1 A1 b model f :
    JacobianFactor_1 NDEBUG uninitialized i1 A1 b model = Returns f -> produced f
| produced_2 i1 A1 i2 A2 b model f :
    JacobianFactor_2 NDEBUG uninitialized i1 A1 i2 A2 b model = Returns f -> produced f
| produced_3 i1 A1 i2 A2 i3 A3 b model f :
    JacobianFactor_3 NDEBUG uninitialized i1 A1 i2 A2 i3 A3 b model = Returns f ->
    produced f
| produced_terms terms b model f :
    JacobianFactor_terms NDEBUG uninitialized terms b model = Returns f -> produced f
| produced_conditional cg f :
    JacobianFactor_conditional NDEBUG cg = Returns f -> produced f
| produced_Hessian factor f :
    JacobianFactor_Hessian NDEBUG choleskyCareful factor = Returns f -> produced f
| produced_GaussianFactor_Jacobian rhs f :
    produced rhs ->
    JacobianFactor_GaussianFactor NDEBUG choleskyCareful (IsJacobianFactor rhs) = Returns f ->
    produced f
| produced_GaussianFactor_Hessian rhs f :
    JacobianFactor_GaussianFactor NDEBUG choleskyCareful (IsHessianFactor rhs) = Returns f ->
    produced f
| produced_copy g f :
    produced g -> JacobianFactor_copy NDEBUG g = Returns f -> produced f
| produced_assign g f :
    produced g -> assign NDEBUG g = Returns f -> produced f
| produced_eliminate g nrFrontals model conditional f :
    spans_full_extent g -> blocks_cover g ->
    model_ g = Some model -> QR_rank_in_bounds model g ->
    eliminate NDEBUG g nrFrontals = Returns (conditional, f) -> produced f.

End Produced.

End Vocabulary.

(** ** JacobianFactor: the other members (lines 308-329 and 490-541) *)

(** [_RowSource], declared with the class: the first variable a row involves,
    the factor it comes from and its row there. *)
Record RowSource := mkRowSource {
  firstNonzeroVar : Index;
  factorI : nat;
  factorRowI : nat
}.

(** [v[i] = x] on a [std::vector]: no meaning outside the vector. *)
Definition store_ {A} (v : list A) (i : nat) (x : A) : outcome (list A) :=
  if i <? length v then Returns (vector_set v i x) else Undefined.

(** [alpha * v] on an Eigen vector. *)
Definition scaled (alpha : double) (v : Vector) : Vector :=
  map (fun x => (alpha * x)%float) v.

(** [x[key] = v] on a [VectorValues]. *)
Definition VectorValues_set (x : VectorValues) (key : Index) (v : Vector) : VectorValues :=
  fun k => if k =? key then v else x k.

(** [block.row(row) = v] for block [slot] of the view, entry by entry;
    [setZero()] is the case of the constant 0. *)
Definition set_block_row (M : Matrix) (Ab : BlockAb) (slot row : nat)
    (v : nat -> double) : Matrix :=
  Eigen.mkMatrix (Eigen.rows M) (Eigen.cols M)
    (fun i j =>
       if (i =? VerticalBlockView.rowStart Ab + row)
          && (row <? VerticalBlockView.rows Ab)
          && (VerticalBlockView.offset Ab slot <=? j)
          && (j <? VerticalBlockView.offset Ab (slot + 1))
          && (i <? Eigen.rows M) && (j <? Eigen.cols M)
       then v (j - VerticalBlockView.offset Ab slot)
       else Eigen.coeff M i j).

Section JacobianFactorMembers.

Context {SharedDiagonal : Type} `{NoiseModel SharedDiagonal}.

Variable NDEBUG : bool.
Variable uninitialized : nat -> nat -> double.

(** Members of the noise model and a function of gtsam/base/Matrix.h that
    are outside the sources: [WhitenInPlace] and [WhitenSystem] work in place
    on what they are given, and [gtsam::transposeMultiplyAdd(alpha, A, e, x)]
    leaves its result in [x]. *)
Variable WhitenInPlace : SharedDiagonal -> Matrix -> nat -> nat -> double.
Variable WhitenSystem : SharedDiagonal -> Matrix -> Vector -> Matrix * Vector.
Variable gtsam_transposeMultiplyAdd : double -> Matrix -> Vector -> Vector -> Vector.

Definition with_matrix (f : JacobianFactor SharedDiagonal) (M : Matrix)
  : JacobianFactor SharedDiagonal :=
  mkJacobianFactor (keys_ f) (model_ f) (firstNonzeroBlocks_ f) M (Ab_ f).

Definition with_firstNonzeroBlocks (f : JacobianFactor SharedDiagonal) (fnz : list nat)
  : JacobianFactor SharedDiagonal :=
  mkJacobianFactor (keys_ f) (model_ f) fnz (matrix_ f) (Ab_ f).

(** *** transposeMultiplyAdd (lines 308-314) *)

Definition transposeMultiplyAdd (f : JacobianFactor SharedDiagonal) (alpha : double)
    (e : Vector) (x : VectorValues) : outcome VectorValues :=
  model <- deref (model_ f) ;;
  let E := scaled alpha (whiten model e) in
  Returns
    (fold_left (fun x pos =>
                  let key := nth pos (keys_ f) 0 in
                  VectorValues_set x key
                    (gtsam_transposeMultiplyAdd 1%float (getA f pos) E (x key)))
               (seq 0 (size f)) x).

(** *** matrix and matrix_augmented (lines 317-329) *)

Definition matrix (f : JacobianFactor SharedDiagonal) (weight : bool)
  : outcome (Matrix * Vector) :=
  let A := VerticalBlockView.range (matrix_ f) (Ab_ f) 0 (size f) in
  let b := getb f in
  if weight then
    model <- deref (model_ f) ;; Returns (WhitenSystem model A b)
  else Returns (A, b).

Definition matrix_augmented (f : JacobianFactor SharedDiagonal) (weight : bool)
  : outcome Matrix :=
  if weight then
    let Ab := VerticalBlockView.range (matrix_ f) (Ab_ f) 0
                (VerticalBlockView.nBlocks (Ab_ f)) in
    model <- deref (model_ f) ;;
    Returns (Eigen.mkMatrix (Eigen.rows Ab) (Eigen.cols Ab) (WhitenInPlace model Ab))
  else
    Returns (VerticalBlockView.range (matrix_ f) (Ab_ f) 0
               (VerticalBlockView.nBlocks (Ab_ f))).

(** *** collectInfo (lines 490-503) *)

(** [Index] is [size_t], an unsigned type: [i + 1] on the largest value,
    [numeric_limits<Index>::max()], is 0.  The largest value depends on the
    platform and is a parameter; no key is above it. *)
Variable Index_max : Index.

Definition Index_succ (i : Index) : Index :=
  if i =? Index_max then 0 else i + 1.

(** The body of the loop for one row.  In the last branch [assert(false)]
    stops a debug build; otherwise [firstNonzeroVar] is read without ever
    having been given a value. *)
Definition collectInfo_row (f : JacobianFactor SharedDiagonal) (index row : nat)
  : outcome RowSource :=
  block <- at_ (firstNonzeroBlocks_ f) row ;;
  var <- (if block <? size f then at_ (keys_ f) block
          else if block =? size f then
            last_key <- back (keys_ f) ;; Returns (Index_succ last_key)
          else assert_ NDEBUG false ;;; Undefined) ;;
  Returns (mkRowSource var index row).

Fixpoint collectInfo_rows (f : JacobianFactor SharedDiagonal) (index : nat)
    (rows_ : list nat) (rowSources : list RowSource) : outcome (list RowSource) :=
  match rows_ with
  | [] => Returns rowSources
  | row :: rest =>
      source <- collectInfo_row f index row ;;
      collectInfo_rows f index rest (rowSources ++ [source])
  end.

Definition collectInfo (f : JacobianFactor SharedDiagonal) (index : nat)
    (rowSources : list RowSource) : outcome (list RowSource) :=
  assertInvariants NDEBUG f ;;;
  collectInfo_rows f index (seq 0 (rows f)) rowSources.

(** *** allocate (lines 506-514) *)

(** [VariableSlots] is a map from a variable to its slots in the factors
    being combined; it is read here as the sequence of its entries.  The call
    changes the factor and [varDims], and returns both. *)
Definition allocate (f : JacobianFactor SharedDiagonal)
    (variableSlots : list (Index * list nat)) (varDims : list nat) (m : nat)
  : JacobianFactor SharedDiagonal * list nat :=
  let keys := map fst variableSlots in
  let varDims := varDims ++ [1] in
  let '(M, Ab) := allocate_blocks uninitialized varDims m in
  (mkJacobianFactor keys (model_ f) (vector_resize (firstNonzeroBlocks_ f) m 0) M Ab,
   varDims).

(** *** copyRow (lines 517-530) *)

(** [sourceSlot] is [numeric_limits<Index>::max()] for a variable the source
    does not involve: [None] stands for that value.  Assigning a row to a row
    of another width has no meaning in Eigen. *)
Definition copyRow (this source : JacobianFactor SharedDiagonal) (sourceRow : nat)
    (sourceSlot : option nat) (row slot : nat) : outcome (JacobianFactor SharedDiagonal) :=
  match sourceSlot with
  | Some sourceSlot =>
      block <- at_ (firstNonzeroBlocks_ source) sourceRow ;;
      if block <=? sourceSlot then
        let sourceBlock := getA source sourceSlot in
        if Eigen.cols sourceBlock =? Eigen.cols (getA this slot) then
          Returns (with_matrix this
                     (set_block_row (matrix_ this) (Ab_ this) slot row
                                    (fun j => Eigen.coeff sourceBlock sourceRow j)))
        else Undefined
      else
        Returns (with_matrix this
                   (set_block_row (matrix_ this) (Ab_ this) slot row (fun _ => 0%float)))
  | None =>
      Returns (with_matrix this
                 (set_block_row (matrix_ this) (Ab_ this) slot row (fun _ => 0%float)))
  end.

(** *** copyFNZ (lines 533-541) *)

(** The [while] loop: it stops at the latest when [i] has reached [n], so
    [n] rounds are enough. *)
Fixpoint copyFNZ_while (fuel : nat) (keys : list Index) (n : nat)
    (rowSources : list RowSource) (row i : nat) : outcome nat :=
  match fuel with
  | 0 => Returns i
  | S fuel' =>
      if i <? n then
        source <- at_ rowSources row ;;
        key <- at_ keys i ;;
        if key <? firstNonzeroVar source
        then copyFNZ_while fuel' keys n rowSources row (i + 1)
        else Returns i
      else Returns i
  end.

Fixpoint copyFNZ_rows (keys : list Index) (n : nat) (rowSources : list RowSource)
    (rows_ : list nat) (i : nat) (fnz : list nat) : outcome (list nat) :=
  match rows_ with
  | [] => Returns fnz
  | row :: rest =>
      i <- copyFNZ_while n keys n rowSources row i ;;
      fnz <- store_ fnz row i ;;
      copyFNZ_rows keys n rowSources rest i fnz
  end.

Definition copyFNZ (f : JacobianFactor SharedDiagonal) (m n : nat)
    (rowSources : list RowSource) : outcome (JacobianFactor SharedDiagonal) :=
  fnz <- copyFNZ_rows (keys_ f) n rowSources (seq 0 m) 0 (firstNonzeroBlocks_ f) ;;
  Returns (with_firstNonzeroBlocks f fnz).

End JacobianFactorMembers.

(** The structure [assertInvariants] asserts: as many blocks as keys and one
    more (or nothing at all), a staircase entry for every row, each naming a
    block of the view. *)
Definition structure_holds {SharedDiagonal : Type} (f : JacobianFactor SharedDiagonal)
  : Prop :=
  ((size f = 0 /\ VerticalBlockView.rows (Ab_ f) = 0 /\ VerticalBlockView.nBlocks (Ab_ f) = 0)
   \/ size f + 1 = VerticalBlockView.nBlocks (Ab_ f))
  /\ length (firstNonzeroBlocks_ f) = VerticalBlockView.rows (Ab_ f)
  /\ Forall (fun b => b < VerticalBlockView.nBlocks (Ab_ f)) (firstNonzeroBlocks_ f).

(** ** Concrete instances, for the examples *)

Module Example.

(** Modelled from the spec: a noise model with the three variants section 3
    of the design document names, unit (identity weighting), diagonal (a sigma
    per row) and constrained.  Whitening divides by the sigmas.  Its [QR] is
    the QR of a system that is already upper triangular: the rows are
    whitened and stay where they are, the new model is the unit model, and the
    rank is the smaller of the number of rows and the number of columns of
    [A].  The examples use it on triangular systems only. *)
Inductive Model :=
| Unit (n : nat)
| Diagonal (sigmas : Vector)
| Constrained (sigmas : Vector).

Definition Model_sigmas (m : Model) : Vector :=
  match m with
  | Unit n => repeat 1%float n
  | Diagonal s => s
  | Constrained s => s
  end.

Definition Model_dim (m : Model) : nat := length (Model_sigmas m).

Definition Model_isConstrained (m : Model) : bool :=
  match m with Constrained _ => true | _ => false end.

Fixpoint divide (v s : Vector) : Vector :=
  match v, s with
  | x :: v', y :: s' => (x / y)%float :: divide v' s'
  | _, _ => []
  end.

Definition Model_whiten (m : Model) (v : Vector) : Vector :=
  match m with
  | Unit _ => v
  | _ => divide v (Model_sigmas m)
  end.

Definition Model_Whiten (m : Model) (A : Matrix) : Matrix :=
  match m with
  | Unit _ => A
  | _ => Eigen.mkMatrix (Eigen.rows A) (Eigen.cols A)
           (fun i j => (Eigen.coeff A i j / nth i (Model_sigmas m) 1)%float)
  end.

Definition Model_QR (m : Model) (Ab : Matrix) : (nat -> nat -> double) * Model :=
  (Eigen.coeff (Model_Whiten m Ab), Unit (Nat.min (Eigen.rows Ab) (Eigen.cols Ab - 1))).

#[global] Instance Model_NoiseModel : NoiseModel Model := {|
  dim := Model_dim;
  sigmas := Model_sigmas;
  isConstrained := Model_isConstrained;
  whiten := Model_whiten;
  Whiten := Model_Whiten;
  QR := Model_QR;
  Unit_Create := Unit;
  Diagonal_Sigmas := Diagonal;
  Diagonal_Sigmas_smart := fun s _ => Diagonal s;
  Constrained_MixedSigmas := Constrained
|}.



(** A comparison of two rows in the manner of [equal_with_abs_tol]: the same
    length and no pair of entries further apart than [tol]. *)
Definition equal_with_abs_tol (u v : Vector) (tol : double) : bool :=
  (length u =? length v)
  && forallb (fun p => negb (PrimFloat.ltb tol (PrimFloat.abs (fst p - snd p))))
             (combine u v).

(** Stands for [choleskyCareful] on a matrix that is its own square root
    factor, such as the identity: it refuses a negative leading entry and
    otherwise leaves the matrix as it is and reports all its rows. *)
Definition choleskyCareful (M : Matrix)
  : outcome ((nat -> nat -> double) * (nat * bool)) :=
  if PrimFloat.ltb (Eigen.coeff M 0 0) 0
  then Throws CarefulCholeskyNegativeMatrixException
  else Returns (Eigen.coeff M, (Eigen.rows M, true)).

#[local] Set Warnings "-inexact-float".
(** The default tolerance [1e-9] of the [equals] members. *)
Definition default_tolerance : double := 1e-9%float.
#[local] Set Warnings "inexact-float".

Definition matrix_of_rows (l : list (list double)) : Matrix :=
  Eigen.mkMatrix (length l) (length (hd [] l))
                 (fun i j => nth j (nth i l []) 0%float).

Definition zero_storage : nat -> nat -> double := fun _ _ => 0%float.

(** A prior on the two-dimensional variable 0, [A = I] and [b = (1, 1)]. *)
Definition prior : JacobianFactor Model :=
  mkJacobianFactor [0] (Some (Unit 2)) [0; 0]
    (matrix_of_rows [[1; 0; 1]; [0; 1; 1]]%float)
    (VerticalBlockView.fromDims [2; 1] 2).

(** One measurement row on the two-dimensional variable 0. *)
Definition underdetermined : JacobianFactor Model :=
  mkJacobianFactor [0] (Some (Unit 1)) [0]
    (matrix_of_rows [[1; 1; 1]]%float)
    (VerticalBlockView.fromDims [2; 1] 1).

(** Two scalar variables 0 and 1 in a triangular system. *)
Definition two_variables : JacobianFactor Model :=
  mkJacobianFactor [0; 1] (Some (Unit 2)) [0; 0]
    (matrix_of_rows [[1; 2; 3]; [0; 1; 1]]%float)
    (VerticalBlockView.fromDims [1; 1; 1] 2).


(** Two scalar variables 0 and 1; the second row has nothing left but its
    right-hand side, and the staircase records that. *)
Definition exhausted_row : JacobianFactor Model :=
  mkJacobianFactor [0; 1] (Some (Unit 2)) [0; 2]
    (matrix_of_rows [[1; 2; 3]; [0; 0; 1]]%float)
    (VerticalBlockView.fromDims [1; 1; 1] 2).

(** [two_variables] with its second row negated and another noise model. *)
Definition two_variables_flipped : JacobianFactor Model :=
  mkJacobianFactor [0; 1] (Some (Diagonal [2; 2]%float)) [0; 0]
    (matrix_of_rows [[1; 2; 3]; [-0; -1; -1]]%float)
    (VerticalBlockView.fromDims [1; 1; 1] 2).

(** The factor without keys, with the right-hand side [(1)] and a unit model,
    as the constructor from terms builds it. *)
Definition no_keys : JacobianFactor Model :=
  mkJacobianFactor [] (Some (Unit 1)) [0]
    (set_b (Eigen.mkMatrix 1 1 zero_storage) (VerticalBlockView.fromDims [1] 1) 0 [1%float])
    (VerticalBlockView.fromDims [1] 1).

(** A factor on the two-dimensional variable 0 that has no row left. *)
Definition no_rows : JacobianFactor Model :=
  mkJacobianFactor [0] (Some (Unit 0)) []
    (Eigen.mkMatrix 0 3 zero_storage) (VerticalBlockView.fromDims [2; 1] 0).

(** The assignment that gives every variable the vector [(1, 1)]. *)
Definition ones : VectorValues := fun _ => [1; 1]%float.



(** The identity on a two-dimensional variable. *)
Definition identity2 : Matrix := matrix_of_rows [[1; 0]; [0; 1]]%float.

(** A Hessian factor without keys. *)
Definition keyless_Hessian : HessianFactor :=
  mkHessianFactor [] (matrix_of_rows [[1]]%float) (VerticalBlockView.fromDims [1] 1).

(** Row sources for the two rows of [two_variables]: the first row starts at
    variable 0, the second at variable 1. *)
Definition two_row_sources : list RowSource :=
  [mkRowSource 0 0 0; mkRowSource 1 0 1].

(** Stand-ins for [WhitenSystem] and [WhitenInPlace] of a unit model, which
    change nothing. *)
Definition WhitenSystem_unit (m : Model) (A : Matrix) (b : Vector) : Matrix * Vector :=
  (A, b).
Definition WhitenInPlace_unit (m : Model) (A : Matrix) : nat -> nat -> double :=
  Eigen.coeff A.

(** Measurements in the manner of [Point2], and a camera that is an offset
    [c] in the image: it projects the point [(x, y, z)] to
    [(x/z + c, y/z + c)] and throws for a point that is not in front of it
    (the exception stands for [CheiralityException]). *)
Definition Point2 : Type := double * double.
Definition Point2_minus (p q : Point2) : Point2 :=
  (fst p - fst q, snd p - snd q)%float.
Definition Point2_vector (p : Point2) : Vector := [fst p; snd p].
Definition Point3 : Type := double * double * double.

Definition offset_camera_project (c : double) (point : Point3) : Point2 * Matrix * Matrix :=
  let '(x, y, z) := point in
  ((x / z + c, y / z + c)%float, Eigen.Zero 2 1, Eigen.Zero 2 3).

Definition offset_camera_project2 (c : double) (point : Point3) (wantF wantE : bool)
  : outcome (Point2 * Matrix * Matrix) :=
  let '(x, y, z) := point in
  if PrimFloat.leb z 0 then Throws (runtime_error "CheiralityException")
  else Returns (offset_camera_project c point).

End Example.

(** * Properties *)

(** ** Outcomes *)

Lemma bind_Returns {A B} (c : outcome A) (k : A -> outcome B) (b : B) :
  bind c k = Returns b -> exists a, c = Returns a /\ k a = Returns b.
Proof.
  destruct c as [a| | |]; simpl; intros E; try discriminate.
  exists a; split; [reflexivity | exact E].
Qed.

Lemma bind_Throws {A B} (c : outcome A) (k : A -> outcome B) (e : exception) :
  bind c k = Throws e -> c = Throws e \/ exists a, c = Returns a /\ k a = Throws e.
Proof.
  destruct c as [a| | |]; simpl; intros E; try discriminate.
  - right. exists a. split; [reflexivity | exact E].
  - left. injection E as ->. reflexivity.
Qed.

Lemma assert_holds (NDEBUG : bool) : assert_ NDEBUG true = Returns tt.
Proof. destruct NDEBUG; reflexivity. Qed.

Lemma assert_never_throws (NDEBUG c : bool) (e : exception) : assert_ NDEBUG c <> Throws e.
Proof. unfold assert_. destruct NDEBUG, c; discriminate. Qed.


(** ** Block offsets *)

Lemma list_sum_firstn_add (l : list nat) (a n : nat) :
  list_sum (firstn (a + n) l) = list_sum (firstn a l) + list_sum (firstn n (skipn a l)).
Proof.
  revert l. induction a as [|a IH]; intros l; simpl.
  - reflexivity.
  - destruct l as [|x l]; simpl.
    + now rewrite firstn_nil.
    + rewrite IH. lia.
Qed.

Lemma list_sum_firstn_le (l : list nat) (n : nat) :
  list_sum (firstn n l) <= list_sum l.
Proof.
  revert n. induction l as [|x l IH]; intros [|n]; simpl; try lia.
  specialize (IH n). lia.
Qed.

Lemma columnOffset_mono (Ab : BlockAb) (a b : nat) :
  a <= b -> VerticalBlockView.columnOffset Ab a <= VerticalBlockView.columnOffset Ab b.
Proof.
  intros L. unfold VerticalBlockView.columnOffset.
  replace b with (a + (b - a)) by lia. rewrite list_sum_firstn_add. lia.
Qed.

Lemma columnOffset_le_total (Ab : BlockAb) (a : nat) :
  VerticalBlockView.columnOffset Ab a <= list_sum (VerticalBlockView.dims Ab).
Proof. apply list_sum_firstn_le. Qed.

Section EliminateProperties.

Context {SharedDiagonal : Type} `{NoiseModel SharedDiagonal}.
Variable NDEBUG : bool.

(** The expression of line 413 is the width of the first [nrFrontals]
    blocks, and the subtraction in it does not go below zero. *)
Lemma frontalDim_range (f : JacobianFactor SharedDiagonal) (nrFrontals : nat) :
  Eigen.cols (VerticalBlockView.range (matrix_ f) (Ab_ f) 0 nrFrontals)
  = frontalDim f nrFrontals
  /\ VerticalBlockView.offset (Ab_ f) 0 <= VerticalBlockView.offset (Ab_ f) nrFrontals.
Proof.
  unfold VerticalBlockView.range, VerticalBlockView.offset, VerticalBlockView.columnOffset,
    frontalDim; simpl.
  rewrite Nat.add_0_r, list_sum_firstn_add. split; lia.
Qed.

(** The view [eliminate] leaves behind. *)
Lemma eliminate_Returns (f : JacobianFactor SharedDiagonal) (nrFrontals : nat)
    (conditional : GaussianConditional) (f' : JacobianFactor SharedDiagonal) :
  eliminate NDEBUG f nrFrontals = Returns (conditional, f') ->
  exists model,
    model_ f = Some model
    /\ frontalDim f nrFrontals <= QR_rank model f
    /\ let noiseModel := QR_model model f in
       let fd := frontalDim f nrFrontals in
       let Ab := VerticalBlockView.mkBlockAb
                   (VerticalBlockView.dims (Ab_ f))
                   (VerticalBlockView.rowStart (Ab_ f) + fd)
                   (dim noiseModel)
                   (VerticalBlockView.firstBlock (Ab_ f) + nrFrontals) in
       f' = mkJacobianFactor
              (skipn nrFrontals (keys_ f))
              (Some (if isConstrained noiseModel
                     then Constrained_MixedSigmas (sub (sigmas noiseModel) fd (dim noiseModel))
                     else Diagonal_Sigmas (sub (sigmas noiseModel) fd (dim noiseModel))))
              (rowstarts Ab (length (skipn nrFrontals (keys_ f))) (firstNonzeroBlocks_ f))
              (zero_lower_left
                 (Eigen.mkMatrix (Eigen.rows (matrix_ f)) (Eigen.cols (matrix_ f))
                                 (fst (QR model (matrix_ f))))
                 (dim noiseModel))
              Ab.
Proof.
  unfold eliminate. intros E.
  apply bind_Returns in E as (_ & _ & E).
  apply bind_Returns in E as (_ & _ & E).
  apply bind_Returns in E as (_ & _ & E).
  apply bind_Returns in E as (model & Hm & E).
  destruct (model_ f) as [m|] eqn:Em; simpl in Hm; [|discriminate].
  injection Hm as <-.
  exists m. split; [reflexivity|].
  destruct (frontalDim_range f nrFrontals) as [Hfd _].
  rewrite Hfd in E.
  fold (QR_model m f) in E.
  destruct (dim (QR_model m f) <? frontalDim f nrFrontals) eqn:Esing.
  - apply bind_Returns in E as (var & _ & E). discriminate.
  - apply Nat.ltb_ge in Esing. split; [exact Esing|].
    apply bind_Returns in E as (_ & _ & E).
    apply bind_Returns in E as (_ & _ & E).
    injection E as _ <-. reflexivity.
Qed.


Lemma assertInvariants_Throws (f : JacobianFactor SharedDiagonal) (e : exception) :
  assertInvariants NDEBUG f = Throws e ->
  e = invalid_argument "JacobianFactor contains NaN matrix entries.".
Proof.
  unfold assertInvariants, GaussianFactor_assertInvariants.
  destruct NDEBUG; [discriminate|].
  intros E.
  repeat (apply bind_Throws in E as [E | (_ & _ & E)];
          [exfalso; exact (assert_never_throws _ _ _ E)|]).
  destruct (contains_NaN f); [|discriminate].
  injection E as <-. reflexivity.
Qed.

(** C1: for a factor whose active view spans its full extent and
    [nrFrontals] at most its number of keys, [eliminate] throws the domain
    error of a singular elimination exactly when the rank reported by the QR
    of the noise model is below [frontalDim], the width of the first
    [nrFrontals] blocks; the error names the first key, and a call that
    throws returns no conditional. *)
Theorem eliminate_singular_iff (f : JacobianFactor SharedDiagonal) (nrFrontals : nat)
    (model : SharedDiagonal) :
  spans_full_extent f -> nrFrontals <= size f ->
  assertInvariants NDEBUG f = Returns tt ->
  model_ f = Some model ->
  ((exists what var, eliminate NDEBUG f nrFrontals = Throws (domain_error what var))
   <-> QR_rank model f < frontalDim f nrFrontals)
  /\ (QR_rank model f < frontalDim f nrFrontals ->
      exists var, hd_error (keys_ f) = Some var
        /\ eliminate NDEBUG f nrFrontals = Throws (domain_error singular_message var))
  /\ (forall e, eliminate NDEBUG f nrFrontals = Throws e ->
      forall conditional f', eliminate NDEBUG f nrFrontals <> Returns (conditional, f')).
Proof.
  intros (Hrs & Hre & Hfb) Hn Hinv Hm.
  assert (Hsing : QR_rank model f < frontalDim f nrFrontals ->
            exists var, hd_error (keys_ f) = Some var
              /\ eliminate NDEBUG f nrFrontals = Throws (domain_error singular_message var)).
  { intros Hlt.
    assert (Hpos : 0 < nrFrontals).
    { destruct nrFrontals; [|lia]. unfold frontalDim in Hlt. simpl in Hlt. lia. }
    unfold size in Hn.
    destruct (keys_ f) as [|var keys] eqn:Ek; [simpl in Hn; lia|].
    exists var. split; [reflexivity|].
    unfold eliminate. cbv zeta.
    destruct (frontalDim_range f nrFrontals) as [-> _].
    rewrite Hrs, Hre, Hfb, !Nat.eqb_refl. simpl andb. rewrite assert_holds.
    unfold size. rewrite Ek. apply Nat.leb_le in Hn. rewrite Hn, assert_holds.
    rewrite Hinv, Hm. simpl bind.
    fold (QR_model model f). fold (QR_rank model f).
    apply Nat.ltb_lt in Hlt. rewrite Hlt.
    unfold front. rewrite Ek. reflexivity. }
  split; [split|split].
  - intros (what & var & E).
    destruct (Nat.lt_ge_cases (QR_rank model f) (frontalDim f nrFrontals)) as [L|G];
      [exact L|exfalso].
    unfold eliminate in E. cbv zeta in E.
    destruct (frontalDim_range f nrFrontals) as [Hfd _]. rewrite Hfd in E.
    repeat (apply bind_Throws in E as [E | (_ & _ & E)];
            [first [ exact (assert_never_throws _ _ _ E)
                   | apply assertInvariants_Throws in E; discriminate ]|]).
    rewrite Hm in E. simpl bind in E.
    fold (QR_model model f) in E. fold (QR_rank model f) in E.
    apply Nat.ltb_ge in G. rewrite G in E.
    repeat (apply bind_Throws in E as [E | (_ & _ & E)];
            [first [ exact (assert_never_throws _ _ _ E)
                   | apply assertInvariants_Throws in E; discriminate ]|]).
    discriminate.
  - intros Hlt. destruct (Hsing Hlt) as (var & _ & E).
    exists singular_message, var. exact E.
  - exact Hsing.
  - intros e E conditional f' R. rewrite E in R. discriminate.
Qed.

(** In a build without assertions [eliminate] returns whenever the factor has
    a noise model and the rank is not below [frontalDim]: together with the
    singular case these are all the factors with a noise model. *)
Lemma eliminate_returns (f : JacobianFactor SharedDiagonal) (nrFrontals : nat)
    (model : SharedDiagonal) :
  NDEBUG = true -> model_ f = Some model ->
  frontalDim f nrFrontals <= QR_rank model f ->
  exists conditional f', eliminate NDEBUG f nrFrontals = Returns (conditional, f').
Proof.
  intros Hnd Hm Hle. unfold eliminate. cbv zeta.
  destruct (frontalDim_range f nrFrontals) as [-> _].
  unfold assertInvariants, assert_. rewrite Hnd, Hm. cbn [bind deref].
  fold (QR_model model f). fold (QR_rank model f).
  apply Nat.ltb_ge in Hle. rewrite Hle.
  eexists. eexists. reflexivity.
Qed.

(** C2: when [eliminate] succeeds, the first [nrFrontals] keys are gone,
    [rowStart] has advanced by [frontalDim], [firstBlock] by [nrFrontals],
    [rowEnd] is the rank QR reported, and the new noise model is built from
    the sigmas of the rows [frontalDim .. rank - 1], by
    [Constrained::MixedSigmas] exactly when the model QR returned is
    constrained and by [Diagonal::Sigmas] otherwise. *)
Theorem eliminate_shrinks_factor (f : JacobianFactor SharedDiagonal) (nrFrontals : nat)
    (conditional : GaussianConditional) (f' : JacobianFactor SharedDiagonal) :
  eliminate NDEBUG f nrFrontals = Returns (conditional, f') ->
  exists model,
    model_ f = Some model
    /\ let noiseModel := QR_model model f in
       let rank := QR_rank model f in
       let fd := frontalDim f nrFrontals in
       let surviving := sub (sigmas noiseModel) fd rank in
       keys_ f' = skipn nrFrontals (keys_ f)
       /\ VerticalBlockView.rowStart (Ab_ f') = VerticalBlockView.rowStart (Ab_ f) + fd
       /\ VerticalBlockView.firstBlock (Ab_ f')
          = VerticalBlockView.firstBlock (Ab_ f) + nrFrontals
       /\ VerticalBlockView.rowEnd (Ab_ f') = rank
       /\ (isConstrained noiseModel = true ->
           model_ f' = Some (Constrained_MixedSigmas surviving))
       /\ (isConstrained noiseModel = false ->
           model_ f' = Some (Diagonal_Sigmas surviving))
       /\ fd <= rank.
Proof.
  intros E. apply eliminate_Returns in E as (model & Hm & Hle & ->).
  exists model. split; [exact Hm|]. simpl.
  repeat split; try reflexivity; try exact Hle.
  - intros ->. reflexivity.
  - intros ->. reflexivity.
Qed.


End EliminateProperties.

(** ** Loops over lists *)

Section FoldLeft.

Context {S A : Type} (step : S -> A -> S).
(** [Q] holds all along, [P] is kept once it holds. *)
Variables Q P : S -> Prop.
Hypothesis Q_step : forall s a, Q s -> Q (step s a).
Hypothesis P_step : forall s a, Q s -> P s -> P (step s a).

Lemma fold_left_keeps_Q (l : list A) (s : S) : Q s -> Q (fold_left step l s).
Proof. revert s. induction l as [|a l IH]; simpl; auto. Qed.

Lemma fold_left_keeps_P (l : list A) (s : S) : Q s -> P s -> P (fold_left step l s).
Proof. revert s. induction l as [|a l IH]; simpl; auto. Qed.

Lemma fold_left_reaches (x : A) (l : list A) (s : S) :
  (forall s, Q s -> P (step s x)) -> In x l -> Q s -> P (fold_left step l s).
Proof.
  intros Hx. revert s. induction l as [|a l IH]; simpl; intros s Hin Hq.
  - contradiction.
  - destruct Hin as [->|Hin].
    + apply fold_left_keeps_P; auto.
    + apply IH; auto.
Qed.

End FoldLeft.

Lemma find_agree {A} (p q : A -> bool) (l : list A) :
  (forall x, p x = q x) -> find p l = find q l.
Proof.
  intros E. induction l as [|x l IH]; simpl; [reflexivity|].
  rewrite E, IH. reflexivity.
Qed.

Lemma existsb_agree {A} (p q : A -> bool) (l : list A) :
  (forall x, p x = q x) -> existsb p l = existsb q l.
Proof.
  intros E. induction l as [|x l IH]; simpl; [reflexivity|].
  rewrite E, IH. reflexivity.
Qed.

Lemma nth_repeat_zero (r n : nat) : nth r (repeat 0 n) 0 = 0.
Proof. revert r. induction n as [|n IH]; intros [|r]; simpl; auto. Qed.

Lemma vector_set_length {A} (v : list A) (i : nat) (x : A) :
  length (vector_set v i x) = length v.
Proof.
  revert i. induction v as [|h t IH]; intros [|i]; simpl; auto.
Qed.

Lemma nth_vector_set_same {A} (v : list A) (i : nat) (x d : A) :
  i < length v -> nth i (vector_set v i x) d = x.
Proof.
  revert i. induction v as [|h t IH]; intros [|i]; simpl; intros L; try lia; auto.
  apply IH. lia.
Qed.

Lemma nth_vector_set_other {A} (v : list A) (i j : nat) (x d : A) :
  i <> j -> nth j (vector_set v i x) d = nth j v d.
Proof.
  revert i j. induction v as [|h t IH]; intros [|i] [|j]; simpl; intros N; try lia; auto.
Qed.

Lemma vector_resize_length {A} (v : list A) (n : nat) (x : A) :
  length (vector_resize v n x) = n.
Proof.
  unfold vector_resize. rewrite length_app, length_firstn, repeat_length. lia.
Qed.

Lemma vector_resize_nil {A} (n : nat) (x : A) : vector_resize [] n x = repeat x n.
Proof. unfold vector_resize. rewrite firstn_nil, Nat.sub_0_r. reflexivity. Qed.

(** ** The lower-left triangle after QR *)

Lemma set_shape (M : Matrix) (i j : nat) (x : double) :
  Eigen.rows (Eigen.set M i j x) = Eigen.rows M
  /\ Eigen.cols (Eigen.set M i j x) = Eigen.cols M.
Proof. unfold Eigen.set. destruct (_ && _); split; reflexivity. Qed.

Lemma set_zero_keeps_zero (M : Matrix) (i j i0 j0 : nat) :
  Eigen.coeff M i0 j0 = 0%float -> Eigen.coeff (Eigen.set M i j 0%float) i0 j0 = 0%float.
Proof.
  unfold Eigen.set. destruct (_ && _); simpl; [|auto].
  destruct (_ && _); auto.
Qed.

Lemma set_zero_here (M : Matrix) (i j : nat) :
  i < Eigen.rows M -> j < Eigen.cols M ->
  Eigen.coeff (Eigen.set M i j 0%float) i j = 0%float.
Proof.
  intros Hi Hj. unfold Eigen.set.
  apply Nat.ltb_lt in Hi, Hj. rewrite Hi, Hj. simpl.
  now rewrite !Nat.eqb_refl.
Qed.

Lemma zero_lower_left_shape (M : Matrix) (dim : nat) :
  Eigen.rows (zero_lower_left M dim) = Eigen.rows M
  /\ Eigen.cols (zero_lower_left M dim) = Eigen.cols M.
Proof.
  unfold zero_lower_left. destruct (0 <? Eigen.rows M); [|split; reflexivity].
  set (Q := fun M' : Matrix => Eigen.rows M' = Eigen.rows M /\ Eigen.cols M' = Eigen.cols M).
  change (Q (fold_left
               (fun M0 j => fold_left (fun M1 i => Eigen.set M1 i j 0%float)
                                      (seq (j + 1) (dim - (j + 1))) M0)
               (seq 0 (Eigen.cols M)) M)).
  apply fold_left_keeps_Q; [|split; reflexivity].
  intros M0 j HQ. apply fold_left_keeps_Q; [|exact HQ].
  intros M1 i [Hr Hc]. destruct (set_shape M1 i j 0%float) as [Hr' Hc'].
  split; congruence.
Qed.

(** After lines 425-428 every entry below the diagonal in the first [dim]
    rows is zero. *)
Lemma zero_lower_left_zero (M : Matrix) (dim i j : nat) :
  j < i -> i < dim -> i < Eigen.rows M -> j < Eigen.cols M ->
  Eigen.coeff (zero_lower_left M dim) i j = 0%float.
Proof.
  intros Hji Hid Hi Hj. unfold zero_lower_left.
  assert (Hpos : (0 <? Eigen.rows M) = true) by (apply Nat.ltb_lt; lia).
  rewrite Hpos.
  set (Q := fun M' : Matrix => Eigen.rows M' = Eigen.rows M /\ Eigen.cols M' = Eigen.cols M).
  set (P := fun M' : Matrix => Eigen.coeff M' i j = 0%float).
  assert (Qset : forall M1 i1 j1, Q M1 -> Q (Eigen.set M1 i1 j1 0%float)).
  { intros M1 i1 j1 [Hr Hc]. destruct (set_shape M1 i1 j1 0%float) as [Hr' Hc'].
    split; congruence. }
  assert (Qin : forall j1 M0, Q M0 ->
            Q (fold_left (fun M1 i1 => Eigen.set M1 i1 j1 0%float)
                         (seq (j1 + 1) (dim - (j1 + 1))) M0)).
  { intros j1 M0 HQ. apply fold_left_keeps_Q; [|exact HQ]. intros; apply Qset; auto. }
  change (P (fold_left
               (fun M0 j1 => fold_left (fun M1 i1 => Eigen.set M1 i1 j1 0%float)
                                       (seq (j1 + 1) (dim - (j1 + 1))) M0)
               (seq 0 (Eigen.cols M)) M)).
  apply fold_left_reaches with (Q := Q) (x := j).
  - intros M0 j1 HQ. apply Qin; exact HQ.
  - intros M0 j1 HQ HP.
    apply fold_left_keeps_P with (Q := Q); auto.
    intros M1 i1 _ HP1. apply set_zero_keeps_zero. exact HP1.
  - intros M0 HQ.
    apply fold_left_reaches with (Q := Q) (x := i); auto.
    + intros M1 i1 _ HP1. apply set_zero_keeps_zero. exact HP1.
    + intros M1 [Hr Hc]. apply set_zero_here; congruence.
    + apply in_seq. lia.
  - apply in_seq. lia.
  - split; reflexivity.
Qed.

(** ** The staircase computed by eliminate *)

Section Rowstarts.

Variable Ab : BlockAb.
Variable nkeys : nat.

(** The subtraction of line 474 does not go below zero. *)
Lemma offset_from_first (k : nat) :
  VerticalBlockView.offset Ab 0 <= VerticalBlockView.offset Ab (k + 1).
Proof. apply columnOffset_mono. lia. Qed.

Lemma advance_varpos_blocks (fuel row varpos : nat) :
  (forall k, k < varpos -> ends_before Ab k row) ->
  forall k, k < advance_varpos fuel Ab nkeys row varpos -> ends_before Ab k row.
Proof.
  revert varpos. induction fuel as [|fuel IH]; simpl; intros varpos Hv k Hk.
  - auto.
  - destruct ((varpos <? nkeys)
              && (VerticalBlockView.offset Ab (varpos + 1) - VerticalBlockView.offset Ab 0
                  <=? row)) eqn:Ec.
    + apply andb_prop in Ec as [_ Ec]. apply Nat.leb_le in Ec.
      apply (IH (varpos + 1)); [|exact Hk].
      intros k' Hk'. destruct (Nat.eq_dec k' varpos) as [->|N].
      * exact Ec.
      * apply Hv. lia.
    + auto.
Qed.

(** The loop of line 474 has left its condition false when it stops: the
    rounds granted are enough. *)
Lemma advance_varpos_stops (fuel row varpos : nat) :
  nkeys - varpos <= fuel ->
  let v := advance_varpos fuel Ab nkeys row varpos in
  (v <? nkeys)
  && (VerticalBlockView.offset Ab (v + 1) - VerticalBlockView.offset Ab 0 <=? row) = false.
Proof.
  revert varpos. induction fuel as [|fuel IH]; simpl; intros varpos Hf.
  - assert (E : (varpos <? nkeys) = false) by (apply Nat.ltb_ge; lia).
    rewrite E. reflexivity.
  - destruct ((varpos <? nkeys)
              && (VerticalBlockView.offset Ab (varpos + 1) - VerticalBlockView.offset Ab 0
                  <=? row)) eqn:Ec.
    + apply IH. apply andb_prop in Ec as [Ec _]. apply Nat.ltb_lt in Ec. lia.
    + exact Ec.
Qed.

Lemma rowstarts_fold (n a : nat) (st : nat * list nat) :
  length (snd st) = a + n ->
  (forall r k, r < a -> k < nth r (snd st) 0 -> ends_before Ab k r) ->
  (forall k, k < fst st -> ends_before Ab k a) ->
  forall r k, r < a + n ->
    k < nth r (snd (fold_left (rowstarts_step Ab nkeys) (seq a n) st)) 0 -> ends_before Ab k r.
Proof.
  revert a st. induction n as [|n IH]; intros a st Hlen Hdone Hvar r k Hr Hk.
  - simpl in Hk. apply Hdone; [lia|exact Hk].
  - simpl in Hk.
    assert (Hadv : forall k', k' < advance_varpos nkeys Ab nkeys a (fst st) ->
                              ends_before Ab k' a).
    { apply advance_varpos_blocks. exact Hvar. }
    apply (IH (S a) (rowstarts_step Ab nkeys st a)); try (exact Hk); try lia.
    + unfold rowstarts_step; simpl. rewrite vector_set_length. lia.
    + intros r' k' Hr' Hk'. unfold rowstarts_step in Hk'; simpl in Hk'.
      destruct (Nat.eq_dec r' a) as [->|N].
      * rewrite nth_vector_set_same in Hk' by lia. apply Hadv. exact Hk'.
      * rewrite nth_vector_set_other in Hk' by lia. apply Hdone; [lia|exact Hk'].
    + intros k' Hk'. unfold rowstarts_step in Hk'; simpl in Hk'.
      specialize (Hadv k' Hk'). unfold ends_before in *. lia.
Qed.

(** Every block before the one recorded for row [r] ends at or before
    column [r]. *)
Lemma rowstarts_blocks (fnz : list nat) (r k : nat) :
  r < VerticalBlockView.rows Ab ->
  k < nth r (rowstarts Ab nkeys fnz) 0 ->
  VerticalBlockView.offset Ab (k + 1) - VerticalBlockView.offset Ab 0 <= r.
Proof.
  intros Hr Hk. unfold rowstarts in Hk.
  apply (rowstarts_fold (VerticalBlockView.rows Ab) 0
           (0, vector_resize fnz (VerticalBlockView.rows Ab) 0)).
  - apply vector_resize_length.
  - intros r' k' Hr'. lia.
  - intros k' Hk'. simpl in Hk'. lia.
  - lia.
  - exact Hk.
Qed.

Lemma rowstarts_length (fnz : list nat) :
  length (rowstarts Ab nkeys fnz) = VerticalBlockView.rows Ab.
Proof.
  unfold rowstarts.
  set (Q := fun st : nat * list nat => length (snd st) = VerticalBlockView.rows Ab).
  change (Q (fold_left (rowstarts_step Ab nkeys) (seq 0 (VerticalBlockView.rows Ab))
               (0, vector_resize fnz (VerticalBlockView.rows Ab) 0))).
  apply fold_left_keeps_Q.
  - intros st row HQ. unfold Q, rowstarts_step in *; simpl. now rewrite vector_set_length.
  - unfold Q; simpl. apply vector_resize_length.
Qed.

End Rowstarts.

(** ** The staircase invariant *)

Section Staircase.

Context {SharedDiagonal : Type} `{NoiseModel SharedDiagonal}.
Variable NDEBUG : bool.
Variable uninitialized : nat -> nat -> double.
Variable choleskyCareful : Matrix -> outcome ((nat -> nat -> double) * (nat * bool)).

Lemma checked_Returns (f0 f : JacobianFactor SharedDiagonal) :
  checked NDEBUG f0 = Returns f -> f = f0.
Proof.
  unfold checked. intros E. apply bind_Returns in E as (_ & _ & E).
  now injection E.
Qed.

(** A staircase that records block 0 everywhere claims nothing. *)
Lemma staircase_all_zero (f : JacobianFactor SharedDiagonal) :
  (forall r, nth r (firstNonzeroBlocks_ f) 0 = 0) -> staircase f.
Proof. intros Hz r k _ _. rewrite Hz. lia. Qed.

Lemma staircase_repeat (f : JacobianFactor SharedDiagonal) (n : nat) :
  firstNonzeroBlocks_ f = repeat 0 n -> staircase f.
Proof.
  intros E. apply staircase_all_zero. intros r. rewrite E. apply nth_repeat_zero.
Qed.

(** The copy made by [assignNoalias] has the blocks of the active view of the
    original. *)
Lemma assignNoalias_offset (M : Matrix) (Ab : BlockAb) (k : nat) :
  VerticalBlockView.offset Ab k
  = VerticalBlockView.offset Ab 0
    + VerticalBlockView.offset (snd (VerticalBlockView.assignNoalias M Ab)) k.
Proof.
  unfold VerticalBlockView.assignNoalias, VerticalBlockView.offset,
    VerticalBlockView.columnOffset, VerticalBlockView.fromDims.
  cbn [snd VerticalBlockView.firstBlock VerticalBlockView.dims].
  rewrite (list_sum_firstn_add _ (VerticalBlockView.firstBlock Ab) k).
  rewrite Nat.add_0_r. reflexivity.
Qed.

Lemma assignNoalias_getA (g : JacobianFactor SharedDiagonal)
    (keys : list Index) (model : option SharedDiagonal) (fnz : list nat) (k : nat) :
  let f := mkJacobianFactor keys model fnz
             (fst (VerticalBlockView.assignNoalias (matrix_ g) (Ab_ g)))
             (snd (VerticalBlockView.assignNoalias (matrix_ g) (Ab_ g))) in
  Eigen.cols (getA f k) = Eigen.cols (getA g k)
  /\ forall r j, Eigen.coeff (getA f k) r j = Eigen.coeff (getA g k) r j.
Proof.
  intros f.
  pose proof (assignNoalias_offset (matrix_ g) (Ab_ g) k) as Ok.
  pose proof (assignNoalias_offset (matrix_ g) (Ab_ g) (k + 1)) as Ok1.
  unfold getA, VerticalBlockView.block, VerticalBlockView.range, Eigen.block.
  cbn [Eigen.cols Eigen.coeff]. subst f. cbn [matrix_ Ab_].
  split.
  - rewrite Ok, Ok1. lia.
  - intros r j. rewrite Ok.
    unfold VerticalBlockView.assignNoalias at 1 2.
    cbn [fst snd VerticalBlockView.rowStart VerticalBlockView.fromDims].
    unfold VerticalBlockView.full, VerticalBlockView.range, Eigen.block.
    cbn [Eigen.coeff]. f_equal. lia.
Qed.

Lemma assignNoalias_staircase (g : JacobianFactor SharedDiagonal)
    (keys : list Index) (model : option SharedDiagonal) :
  staircase g ->
  staircase (mkJacobianFactor keys model (firstNonzeroBlocks_ g)
               (fst (VerticalBlockView.assignNoalias (matrix_ g) (Ab_ g)))
               (snd (VerticalBlockView.assignNoalias (matrix_ g) (Ab_ g)))).
Proof.
  intros Hg r k Hr Hfind.
  cbn [firstNonzeroBlocks_].
  apply (Hg r k).
  - unfold rows in *. cbn [Ab_] in Hr.
    unfold VerticalBlockView.assignNoalias, VerticalBlockView.fromDims,
      VerticalBlockView.rows in Hr.
    cbn [snd VerticalBlockView.rowStart VerticalBlockView.rowEnd] in Hr.
    unfold VerticalBlockView.rows. lia.
  - rewrite <- Hfind. unfold true_first_nonzero_block.
    replace (VerticalBlockView.nBlocks (Ab_ (mkJacobianFactor keys model
               (firstNonzeroBlocks_ g)
               (fst (VerticalBlockView.assignNoalias (matrix_ g) (Ab_ g)))
               (snd (VerticalBlockView.assignNoalias (matrix_ g) (Ab_ g))))))
      with (VerticalBlockView.nBlocks (Ab_ g)).
    2:{ unfold VerticalBlockView.nBlocks; simpl. rewrite length_skipn. lia. }
    apply find_agree. intros k'. unfold block_has_nonzero.
    destruct (assignNoalias_getA g keys model (firstNonzeroBlocks_ g) k') as [Hc Hx].
    cbv zeta in Hc, Hx. rewrite Hc.
    apply existsb_agree. intros j. now rewrite Hx.
Qed.

Lemma copy_staircase (g f : JacobianFactor SharedDiagonal) :
  staircase g -> JacobianFactor_copy NDEBUG g = Returns f -> staircase f.
Proof.
  intros Hg E. unfold JacobianFactor_copy in E.
  destruct (VerticalBlockView.assignNoalias (matrix_ g) (Ab_ g)) as [M Ab] eqn:EA.
  apply checked_Returns in E. subst f.
  pose proof (assignNoalias_staircase g (keys_ g) (model_ g) Hg) as S.
  rewrite EA in S. exact S.
Qed.

Lemma assign_staircase (g f : JacobianFactor SharedDiagonal) :
  staircase g -> assign NDEBUG g = Returns f -> staircase f.
Proof.
  intros Hg E. unfold assign in E.
  destruct (VerticalBlockView.assignNoalias (matrix_ g) (Ab_ g)) as [M Ab] eqn:EA.
  apply checked_Returns in E. subst f.
  pose proof (assignNoalias_staircase g (keys_ g) (model_ g) Hg) as S.
  rewrite EA in S. exact S.
Qed.

Lemma terms_staircase (terms : list (Index * Matrix)) (b : Vector)
    (model : option SharedDiagonal) (f : JacobianFactor SharedDiagonal) :
  JacobianFactor_terms NDEBUG uninitialized terms b model = Returns f -> staircase f.
Proof.
  unfold JacobianFactor_terms. intros E.
  destruct (allocate_blocks _ _ _) as [M Ab].
  apply bind_Returns in E as (M' & _ & E).
  apply checked_Returns in E. subst f.
  now apply staircase_repeat with (n := length b).
Qed.

Lemma Hessian_staircase (factor : HessianFactor) (f : JacobianFactor SharedDiagonal) :
  JacobianFactor_Hessian NDEBUG choleskyCareful factor = Returns f -> staircase f.
Proof.
  unfold JacobianFactor_Hessian. intros E.
  destruct (VerticalBlockView.assignNoalias _ _) as [M Ab].
  apply bind_Returns in E as (r & _ & E).
  apply bind_Returns in E as (last_var & _ & E).
  apply checked_Returns in E. subst f.
  eapply staircase_repeat. cbn [firstNonzeroBlocks_]. apply vector_resize_nil.
Qed.

(** The factor [eliminate] leaves behind. *)
Lemma eliminate_staircase (g : JacobianFactor SharedDiagonal) (nrFrontals : nat)
    (model : SharedDiagonal) (conditional : GaussianConditional)
    (f : JacobianFactor SharedDiagonal) :
  spans_full_extent g -> blocks_cover g ->
  model_ g = Some model -> QR_rank_in_bounds model g ->
  eliminate NDEBUG g nrFrontals = Returns (conditional, f) -> staircase f.
Proof.
  intros (Hrs & Hre & Hfb) Hcover Hm (Hrank & _) E.
  apply eliminate_Returns in E as (model' & Hm' & Hle & ->).
  rewrite Hm in Hm'. injection Hm' as <-.
  fold (QR_rank model g) in *.
  assert (Hfd : frontalDim g nrFrontals
                = list_sum (firstn nrFrontals (VerticalBlockView.dims (Ab_ g)))).
  { unfold frontalDim. rewrite Hfb. reflexivity. }
  set (fd := frontalDim g nrFrontals) in *.
  intros r k Hr Hfind.
  cbn [firstNonzeroBlocks_]. apply Nat.nlt_ge. intros G.
  unfold rows, VerticalBlockView.rows in Hr.
  cbn [Ab_ VerticalBlockView.rowStart VerticalBlockView.rowEnd] in Hr.
  apply rowstarts_blocks in G;
    [|unfold VerticalBlockView.rows;
      cbn [VerticalBlockView.rowStart VerticalBlockView.rowEnd]; lia].
  apply find_some in Hfind as [_ Hnz].
  unfold block_has_nonzero in Hnz. apply existsb_exists in Hnz as (j & Hj & Hnz).
  apply in_seq in Hj.
  unfold getA, VerticalBlockView.block, VerticalBlockView.range in Hj, Hnz.
  simpl in Hj, Hnz.
  unfold VerticalBlockView.offset, VerticalBlockView.columnOffset in Hj, Hnz, G.
  simpl in Hj, Hnz, G.
  rewrite Hrs, Hfb in *. simpl in Hj, Hnz, G.
  rewrite Nat.add_0_r, <- Hfd in G.
  pose proof (list_sum_firstn_le (VerticalBlockView.dims (Ab_ g)) (nrFrontals + (k + 1))) as Htot.
  unfold blocks_cover in Hcover.
  rewrite zero_lower_left_zero in Hnz; simpl; try lia.
  discriminate.
Qed.

Lemma GaussianFactor_Jacobian_staircase (rhs f : JacobianFactor SharedDiagonal) :
  staircase rhs ->
  JacobianFactor_GaussianFactor NDEBUG choleskyCareful (IsJacobianFactor rhs) = Returns f ->
  staircase f.
Proof.
  intros Hs E. simpl in E.
  apply bind_Returns in E as (tmp & Etmp & E).
  apply bind_Returns in E as (this & Ethis & E).
  apply checked_Returns in E. subst f.
  eapply assign_staircase; [|exact Ethis].
  eapply copy_staircase; [exact Hs|exact Etmp].
Qed.

Lemma GaussianFactor_Hessian_staircase (rhs : HessianFactor)
    (f : JacobianFactor SharedDiagonal) :
  JacobianFactor_GaussianFactor NDEBUG choleskyCareful (IsHessianFactor rhs) = Returns f ->
  staircase f.
Proof.
  intros E. simpl in E.
  apply bind_Returns in E as (tmp & Etmp & E).
  apply bind_Returns in E as (this & Ethis & E).
  apply checked_Returns in E. subst f.
  eapply assign_staircase; [|exact Ethis].
  eapply Hessian_staircase. exact Etmp.
Qed.

(** C5: every factor that a constructor produces or that [eliminate] leaves
    behind satisfies the staircase invariant: for every row [r] of its active
    view, [firstNonzeroBlocks_[r]] is at most the index of the first block in
    which the row has an entry different from zero. *)
Theorem staircase_invariant (f : JacobianFactor SharedDiagonal) :
  produced NDEBUG uninitialized choleskyCareful f ->
  forall r k, r < rows f -> true_first_nonzero_block f r = Some k ->
              nth r (firstNonzeroBlocks_ f) 0 <= k.
Proof.
  intros P. change (staircase f).
  induction P as
    [ f E | b f E | i1 A1 b model f E | i1 A1 i2 A2 b model f E
    | i1 A1 i2 A2 i3 A3 b model f E | terms b model f E | cg f E | factor f E
    | rhs f P IH E | rhs f E | g f P IH E | g f P IH E
    | g nrFrontals model conditional f Hfull Hcover Hm Hqr E ].
  - apply checked_Returns in E. subst f. now apply staircase_repeat with (n := 0).
  - unfold JacobianFactor_b in E. destruct (allocate_blocks _ _ _) as [M Ab].
    apply checked_Returns in E. subst f. now apply staircase_repeat with (n := length b).
  - eapply terms_staircase. exact E.
  - eapply terms_staircase. exact E.
  - eapply terms_staircase. exact E.
  - eapply terms_staircase. exact E.
  - unfold JacobianFactor_conditional in E.
    destruct (VerticalBlockView.assignNoalias _ _) as [M Ab].
    apply checked_Returns in E. subst f.
    eapply staircase_repeat. cbn [firstNonzeroBlocks_]. apply vector_resize_nil.
  - eapply Hessian_staircase. exact E.
  - eapply GaussianFactor_Jacobian_staircase; [exact IH|exact E].
  - eapply GaussianFactor_Hessian_staircase. exact E.
  - eapply copy_staircase; [exact IH|exact E].
  - eapply assign_staircase; [exact IH|exact E].
  - eapply eliminate_staircase; eauto.
Qed.

End Staircase.

(** ** Residuals and error *)

Lemma fold_left_agree_in {St A} (f g : St -> A -> St) (l : list A) (s : St) :
  (forall s x, In x l -> f s x = g s x) -> fold_left f l s = fold_left g l s.
Proof.
  revert s. induction l as [|x l IH]; simpl; intros s E; [reflexivity|].
  rewrite E by auto. apply IH. intros; apply E; auto.
Qed.

(** A loop over the positions that reads [keys[pos]] is a loop over the keys
    with their positions. *)
Lemma fold_left_positions {St} (F : St -> nat -> Index -> St) (keys : list Index) :
  forall (a : nat) (s : St),
    fold_left (fun s pos => F s pos (nth (pos - a) keys 0)) (seq a (length keys)) s
    = fold_left (fun s pk => F s (fst pk) (snd pk)) (combine (seq a (length keys)) keys) s.
Proof.
  induction keys as [|k keys IH]; intros a s; simpl; [reflexivity|].
  rewrite Nat.sub_diag. rewrite <- IH.
  apply fold_left_agree_in. intros s' pos Hin. apply in_seq in Hin.
  replace (pos - a) with (S (pos - S a)) by lia. reflexivity.
Qed.

Lemma fold_left_over_map {St A B} (f : St -> B -> St) (g : A -> B) (l : list A) (s : St) :
  fold_left f (map g l) s = fold_left (fun s x => f s (g x)) l s.
Proof. revert s. induction l as [|x l IH]; simpl; auto. Qed.

Lemma combine_seq_nth_error {A} (l : list A) (a pos : nat) (x : A) :
  nth_error l pos = Some x ->
  nth_error (combine (seq a (length l)) l) pos = Some (a + pos, x).
Proof.
  revert a pos. induction l as [|y l IH]; intros a [|pos]; simpl; intros E;
    try discriminate.
  - injection E as ->. now rewrite Nat.add_0_r.
  - rewrite (IH (S a) pos E). f_equal. f_equal. lia.
Qed.

Lemma nth_error_combine_seq {A} (l : list A) (a n p : nat) (x : A) :
  nth_error (combine (seq a (length l)) l) n = Some (p, x) ->
  p = a + n /\ nth_error l n = Some x.
Proof.
  revert a n. induction l as [|y l IH]; intros a [|n]; simpl; intros E;
    try discriminate.
  - injection E as <- <-. split; [lia|reflexivity].
  - apply IH in E as [-> E]. split; [lia|exact E].
Qed.

Section Residuals.

Context {SharedDiagonal : Type} `{NoiseModel SharedDiagonal}.

Lemma fold_plus_nil (l : list Vector) : fold_left Eigen.plus l [] = [].
Proof. induction l as [|v l IH]; simpl; [reflexivity|exact IH]. Qed.

Lemma getb_length (f : JacobianFactor SharedDiagonal) : length (getb f) = rows f.
Proof.
  unfold getb, VerticalBlockView.column, Eigen.col, Eigen.block, rows. cbn [Eigen.rows].
  now rewrite length_map, length_seq.
Qed.

(** The right-hand side of a factor without rows has no entry. *)
Lemma getb_no_rows (f : JacobianFactor SharedDiagonal) : rows f = 0 -> getb f = [].
Proof.
  intros Hr. pose proof (getb_length f) as Hl. rewrite Hr in Hl.
  destruct (getb f); [reflexivity|discriminate].
Qed.

Lemma unweighted_error_residual (f : JacobianFactor SharedDiagonal) (c : VectorValues) :
  unweighted_error f c = residual f c.
Proof.
  unfold unweighted_error, residual, empty.
  destruct (rows f =? 0) eqn:Ee.
  - apply Nat.eqb_eq in Ee. rewrite (getb_no_rows f Ee). cbn [Eigen.neg map].
    symmetry. apply fold_plus_nil.
  - unfold size. rewrite fold_left_over_map.
    rewrite <- (fold_left_positions
                  (fun e pos key => Eigen.plus e (Eigen.mul (getA f pos) (c key)))
                  (keys_ f) 0).
    apply fold_left_agree_in. intros e pos _. now rewrite Nat.sub_0_r.
Qed.

(** C3: the unweighted residual is [-b] plus the sum of [A_i * c[key_i]]
    over the variables of the factor, [-b] alone for a factor without keys;
    [error_vector(c)] is the whitened residual and [error(c)] is half its
    squared norm, for every factor that has a noise model, the factor without
    keys included.  For a factor without rows, where [error] returns 0
    without whitening, this supposes that whitening the vector without
    entries gives the vector without entries. *)
Theorem error_of_factor (f : JacobianFactor SharedDiagonal) (c : VectorValues) :
  unweighted_error f c = residual f c
  /\ (keys_ f = [] -> unweighted_error f c = Eigen.neg (getb f))
  /\ (forall model, model_ f = Some model ->
        error_vector f c = Returns (whiten model (residual f c)))
  /\ (forall model, model_ f = Some model ->
        (rows f = 0 -> whiten model [] = []) ->
        error f c = Returns (half_squared_norm (whiten model (residual f c))))
  /\ (rows f = 0 -> error f c = Returns 0%float).
Proof.
  split; [apply unweighted_error_residual|].
  split.
  { intros Ek. unfold unweighted_error, size. rewrite Ek.
    destruct (empty f); reflexivity. }
  split.
  { intros model Hm. unfold error_vector. rewrite Hm. simpl.
    destruct (empty f) eqn:Ee.
    - rewrite <- unweighted_error_residual. unfold unweighted_error. rewrite Ee. reflexivity.
    - rewrite unweighted_error_residual. reflexivity. }
  split.
  - intros model Hm Hw. unfold error, error_vector.
    destruct (empty f) eqn:Ee.
    + unfold empty in Ee. apply Nat.eqb_eq in Ee.
      rewrite <- unweighted_error_residual. unfold unweighted_error, empty.
      rewrite (proj2 (Nat.eqb_eq _ _) Ee), (getb_no_rows f Ee). cbn [Eigen.neg map].
      specialize (Hw Ee). unfold Vector, double in *. rewrite Hw. reflexivity.
    + rewrite Hm. simpl. rewrite unweighted_error_residual. reflexivity.
  - intros Hr. unfold error, empty. rewrite (proj2 (Nat.eqb_eq _ _) Hr). reflexivity.
Qed.

End Residuals.

(** ** Sparse entries *)

Section Sparse.

Context {SharedDiagonal : Type} `{NoiseModel SharedDiagonal}.

(** The entries [sparse_block] emits for one whitened block: the entries of
    the block above the tolerance, at their row and shifted column. *)
Lemma sparse_block_In (whitenedA : Matrix) (column_start i col : nat) (s : double) :
  In (i, col, s) (sparse_block whitenedA column_start)
  <-> exists j, i < Eigen.rows whitenedA /\ j < Eigen.cols whitenedA
                /\ col = column_start + j
                /\ s = Eigen.coeff whitenedA i j
                /\ PrimFloat.ltb sparse_tolerance (PrimFloat.abs s) = true.
Proof.
  unfold sparse_block. rewrite in_flat_map. split.
  - intros (i' & Hi' & Hin). apply in_seq in Hi'.
    apply in_flat_map in Hin as (j & Hj & Hin). apply in_seq in Hj.
    destruct (PrimFloat.ltb _ _) eqn:Et; simpl in Hin; [|contradiction].
    destruct Hin as [E|[]]. injection E as <- <- <-.
    exists j. repeat split; try lia. exact Et.
  - intros (j & Hi & Hj & -> & -> & Et).
    exists i. split; [apply in_seq; lia|].
    apply in_flat_map. exists j. split; [apply in_seq; lia|].
    rewrite Et. left. reflexivity.
Qed.

Lemma sparse_vars_Returns (f : JacobianFactor SharedDiagonal) (model : SharedDiagonal)
    (columnIndices : list nat) (vars : list Index) :
  (forall key, In key vars -> key < length columnIndices) ->
  forall pos entries,
    sparse_vars f model columnIndices pos vars entries
    = Returns (entries
               ++ flat_map (fun pk => sparse_block (Whiten model (getA f (fst pk)))
                                                   (nth (snd pk) columnIndices 0))
                           (combine (seq pos (length vars)) vars)).
Proof.
  induction vars as [|var vars IH]; intros Hcov pos entries; simpl.
  - now rewrite app_nil_r.
  - unfold at_.
    assert (Hvar : var < length columnIndices) by (apply Hcov; left; reflexivity).
    destruct (nth_error columnIndices var) as [column_start|] eqn:En.
    + simpl. rewrite IH by (intros; apply Hcov; right; assumption).
      rewrite <- app_assoc.
      rewrite (nth_error_nth _ _ 0 En). reflexivity.
    + apply nth_error_None in En. lia.
Qed.

Lemma last_as_nth {A} (v : list A) (d : A) : last v d = nth (length v - 1) v d.
Proof.
  induction v as [|x v IH]; [reflexivity|].
  destruct v as [|y v]; [reflexivity|].
  change (last (x :: y :: v) d) with (last (y :: v) d). rewrite IH.
  simpl. now rewrite Nat.sub_0_r.
Qed.

Lemma back_last (v : list nat) : v <> [] -> back v = Returns (last v 0).
Proof.
  intros Hne. unfold back.
  destruct (nth_error v (length v - 1)) as [x|] eqn:En.
  - simpl. f_equal.
    rewrite <- (nth_error_nth _ _ 0 En). symmetry. apply last_as_nth.
  - apply nth_error_None in En. destruct v; [contradiction|simpl in En; lia].
Qed.

Lemma sparse_b_nth (whitenedb : Vector) (bcolumn i : nat) :
  i < length whitenedb ->
  nth_error (sparse_b whitenedb bcolumn) i = Some (i, bcolumn, nth i whitenedb 0%float).
Proof.
  intros Hi. unfold sparse_b.
  rewrite nth_error_map, nth_error_seq.
  apply Nat.ltb_lt in Hi. rewrite Hi. reflexivity.
Qed.

(** C6: for a column-offset table that covers the keys of the factor,
    [sparse] returns first the entries of the whitened coefficient blocks and
    then one entry per row for the whitened right-hand side.  A triple
    [(i, col, s)] is among the former exactly when [s] is the entry of row
    [i] and some column [j] of the whitened block of some key, [|s|] exceeds
    [1e-12] and [col] is [columnIndices[key] + j]; they come key by key, row
    by row and column by column.  The latter are all the entries of the
    whitened [b], whatever their size, in the column
    [columnIndices.back()]. *)
Theorem sparse_entries (f : JacobianFactor SharedDiagonal) (columnIndices : list nat)
    (model : SharedDiagonal) :
  model_ f = Some model ->
  (forall key, In key (keys_ f) -> key < length columnIndices) ->
  columnIndices <> [] ->
  let whitenedb := whiten model (getb f) in
  let bcolumn := last columnIndices 0 in
  exists coefficients,
    sparse f columnIndices = Returns (coefficients ++ sparse_b whitenedb bcolumn)
    /\ coefficients
       = flat_map (fun pk => sparse_block (Whiten model (getA f (fst pk)))
                                          (nth (snd pk) columnIndices 0))
                  (combine (seq 0 (size f)) (keys_ f))
    /\ (forall i col s,
          In (i, col, s) coefficients
          <-> exists pos key j,
                nth_error (keys_ f) pos = Some key
                /\ i < Eigen.rows (Whiten model (getA f pos))
                /\ j < Eigen.cols (Whiten model (getA f pos))
                /\ col = nth key columnIndices 0 + j
                /\ s = Eigen.coeff (Whiten model (getA f pos)) i j
                /\ PrimFloat.ltb sparse_tolerance (PrimFloat.abs s) = true)
    /\ length (sparse_b whitenedb bcolumn) = length whitenedb
    /\ (forall i, i < length whitenedb ->
          nth_error (sparse_b whitenedb bcolumn) i
          = Some (i, bcolumn, nth i whitenedb 0%float)).
Proof.
  intros Hm Hcov Hne whitenedb bcolumn.
  eexists. split; [|split; [reflexivity|split; [|split]]].
  - unfold sparse. rewrite Hm. simpl.
    rewrite (sparse_vars_Returns f model columnIndices (keys_ f) Hcov). simpl.
    rewrite (back_last columnIndices Hne). simpl. reflexivity.
  - intros i col s. rewrite in_flat_map. split.
    + intros ((pos & key) & Hin & Hblock). simpl in Hblock.
      apply sparse_block_In in Hblock as (j & Hi & Hj & Hc & Hs & Ht).
      exists pos, key, j. repeat split; auto.
      apply In_nth_error in Hin as (n & Hn).
      pose proof Hn as Hn'.
      apply nth_error_combine_seq in Hn'. destruct Hn' as [-> Hk]. exact Hk.
    + intros (pos & key & j & Hk & Hi & Hj & Hc & Hs & Ht).
      exists (pos, key). split.
      * apply (nth_error_In _ pos). apply combine_seq_nth_error. exact Hk.
      * simpl. apply sparse_block_In. exists j. auto.
  - unfold sparse_b. now rewrite length_map, length_seq.
  - intros i Hi. now apply sparse_b_nth.
Qed.

End Sparse.

(** ** equals *)

Section Equals.

Context {SharedDiagonal : Type}.
Variable equal_with_abs_tol : Vector -> Vector -> double -> bool.

(** C9: [equals] does not see the sign of a row nor the noise models.  With a
    comparison [equal_with_abs_tol] that accepts, at [tol], the rows of [f]
    and their negations against themselves, a factor [f], empty or not,
    equals every [g] that has its keys and dimensions and whose rows are rows
    of [f] or their negations, whatever the two noise models are; and
    replacing the noise model of either factor never changes the result of
    [equals]. *)
Theorem equals_ignores_row_signs_and_models
    (f g : JacobianFactor SharedDiagonal) (tol : double) :
  (forall model model',
      equals equal_with_abs_tol (with_model f model)
             (IsJacobianFactor (with_model g model')) tol
      = equals equal_with_abs_tol f (IsJacobianFactor g) tol)
  /\ (accepts_own_rows equal_with_abs_tol f tol ->
      rows_negated f g ->
      forall model model',
        equals equal_with_abs_tol (with_model f model)
               (IsJacobianFactor (with_model g model')) tol = true).
Proof.
  split; [reflexivity|].
  intros Hrefl (Hk & Hr & Hc & Hrows) model model'.
  change (equals equal_with_abs_tol f (IsJacobianFactor g) tol = true).
  unfold equals.
  destruct (empty f) eqn:Hne.
  { unfold empty, rows in *. rewrite Hr. exact Hne. }
  destruct (list_eq_dec Nat.eq_dec (keys_ f) (keys_ g)) as [_|N];
    [|exfalso; apply N; now symmetry].
  rewrite Hr, Hc, !Nat.eqb_refl. cbn [negb andb].
  apply forallb_forall. intros row Hin. apply in_seq in Hin.
  unfold VerticalBlockView.range in Hin. cbn [Eigen.rows Eigen.block] in Hin.
  specialize (Hrows row ltac:(lia)). cbv zeta in Hrows.
  destruct (Hrefl row ltac:(lia)) as [Hsame Hneg]. cbv zeta in Hsame, Hneg.
  unfold VerticalBlockView.full in Hrows, Hsame, Hneg.
  destruct Hrows as [-> | ->]; [rewrite Hsame|rewrite Hneg];
    [reflexivity|apply orb_true_r].
Qed.

End Equals.

(** ** Conversion from a Hessian factor *)











Section Hessian.

Context {SharedDiagonal : Type} `{NoiseModel SharedDiagonal}.
Variable NDEBUG : bool.
Variable choleskyCareful : Matrix -> outcome ((nat -> nat -> double) * (nat * bool)).


End Hessian.

(** ** CameraSet and DecisionTreeFactor *)

(** C10: [CameraSet::equals] looks at the first cameras only.  Two sets of
    the same size that are not empty compare as their first cameras do,
    whatever the later ones are; two empty sets are equal; sets of different
    sizes are not. *)
Theorem CameraSet_equals_first_camera_only (CAMERA : Type)
    (CAMERA_equals : CAMERA -> CAMERA -> double -> bool) (tol : double) :
  CameraSet.equals CAMERA CAMERA_equals [] [] tol = Returns true
  /\ (forall (a b : CAMERA) (this p : list CAMERA),
        length this = length p ->
        CameraSet.equals CAMERA CAMERA_equals (a :: this) (b :: p) tol
        = Returns (CAMERA_equals a b tol))
  /\ (forall this p : list CAMERA,
        length this <> length p ->
        CameraSet.equals CAMERA CAMERA_equals this p tol = Returns false).
Proof.
  split; [reflexivity|split].
  - intros a b this p Hl. unfold CameraSet.equals. simpl.
    rewrite Hl, Nat.eqb_refl. simpl.
    destruct (CAMERA_equals a b tol); reflexivity.
  - intros this p Hl. unfold CameraSet.equals.
    apply Nat.eqb_neq in Hl. rewrite Hl. reflexivity.
Qed.

(** C8, as the code has it: both overloads of
    [DecisionTreeFactor::partiallyApply] throw the runtime error "not
    implemented" on every input, while [ensureArcConsistency] returns [false]
    on every input, throws nothing and leaves the domains as they are. *)
Theorem DecisionTreeFactor_unsupported_operations
    (Factor Values Domain DiscreteFactor : Type)
    (this : Factor) (values : Values) (j : nat) (domains : list Domain) :
  DecisionTreeFactor.partiallyApply Factor Values DiscreteFactor this values
  = Throws (runtime_error "DecisionTreeFactor::partiallyApply not implemented")
  /\ DecisionTreeFactor.partiallyApply_domains Factor Domain DiscreteFactor this domains
     = Throws (runtime_error "DecisionTreeFactor::partiallyApply not implemented")
  /\ DecisionTreeFactor.ensureArcConsistency Factor Domain this j domains
     = Returns (false, domains).
Proof. repeat split. Qed.

(** ** The theorems at concrete inputs *)

Lemma eliminate_singular_iff_witness :
  spans_full_extent Example.underdetermined
  /\ QR_rank (Example.Unit 1) Example.underdetermined
     < frontalDim Example.underdetermined 1
  /\ eliminate false Example.underdetermined 1
     = Throws (domain_error singular_message 0)
  /\ ~ (exists what var,
          eliminate false Example.two_variables 1 = Throws (domain_error what var)).
Proof.
  assert (Hfull : spans_full_extent Example.underdetermined) by (repeat split).
  assert (Hlt : QR_rank (Example.Unit 1) Example.underdetermined
                < frontalDim Example.underdetermined 1) by (vm_compute; lia).
  destruct (eliminate_singular_iff false Example.underdetermined 1 (Example.Unit 1)
              Hfull ltac:(vm_compute; lia) eq_refl eq_refl) as (_ & Hthrows & _).
  destruct (Hthrows Hlt) as (var & Hvar & E). injection Hvar as <-.
  assert (Hfull2 : spans_full_extent Example.two_variables) by (repeat split).
  destruct (eliminate_singular_iff false Example.two_variables 1 (Example.Unit 2)
              Hfull2 ltac:(vm_compute; lia) eq_refl eq_refl) as (Hiff & _ & _).
  repeat split; try assumption.
  intros Hex. apply Hiff in Hex. vm_compute in Hex. lia.
Defined.

Lemma eliminate_shrinks_factor_witness :
  exists conditional f',
    eliminate false Example.two_variables 1 = Returns (conditional, f')
    /\ keys_ f' = [1]
    /\ VerticalBlockView.rowStart (Ab_ f') = 1
    /\ VerticalBlockView.firstBlock (Ab_ f') = 1
    /\ VerticalBlockView.rowEnd (Ab_ f') = 2
    /\ model_ f' = Some (Example.Diagonal [1%float]).
Proof.
  destruct (eliminate false Example.two_variables 1) as [[conditional f']| | |] eqn:E;
    try (vm_compute in E; discriminate).
  exists conditional, f'. split; [reflexivity|].
  destruct (eliminate_shrinks_factor false Example.two_variables 1 conditional f' E)
    as (model & Hm & Hk & Hrs & Hfb & Hre & _ & Hd & _).
  injection Hm as <-.
  rewrite Hk, Hrs, Hfb, Hre, (Hd eq_refl).
  repeat split.
Defined.



Lemma staircase_invariant_witness :
  exists conditional f',
    eliminate false Example.two_variables 1 = Returns (conditional, f')
    /\ forall r k, r < rows f' -> true_first_nonzero_block f' r = Some k ->
                   nth r (firstNonzeroBlocks_ f') 0 <= k.
Proof.
  destruct (eliminate false Example.two_variables 1) as [[conditional f']| | |] eqn:E;
    try (vm_compute in E; discriminate).
  exists conditional, f'. split; [reflexivity|].
  apply (staircase_invariant false Example.zero_storage Example.choleskyCareful).
  apply (produced_eliminate false Example.zero_storage Example.choleskyCareful
           Example.two_variables 1 (Example.Unit 2) conditional f').
  - repeat split.
  - reflexivity.
  - reflexivity.
  - split; vm_compute; lia.
  - exact E.
Defined.

Lemma error_of_factor_witness :
  error Example.prior (fun _ => [3; 1]%float) = Returns 2%float
  /\ error Example.prior (fun _ => [3; 1]%float)
     = Returns (half_squared_norm
                  (whiten (Example.Unit 2) (residual Example.prior (fun _ => [3; 1]%float))))
  /\ keys_ Example.no_keys = []
  /\ error Example.no_keys Example.ones = Returns 0.5%float
  /\ error Example.no_keys Example.ones
     = Returns (half_squared_norm
                  (whiten (Example.Unit 1) (residual Example.no_keys Example.ones)))
  /\ rows Example.no_rows = 0
  /\ error Example.no_rows Example.ones
     = Returns (half_squared_norm
                  (whiten (Example.Unit 0) (residual Example.no_rows Example.ones))).
Proof.
  split; [reflexivity|].
  destruct (error_of_factor Example.prior (fun _ => [3; 1]%float)) as (_ & _ & _ & He & _).
  destruct (error_of_factor Example.no_keys Example.ones) as (_ & _ & _ & Hk & _).
  destruct (error_of_factor Example.no_rows Example.ones) as (_ & _ & _ & Hr & _).
  split; [apply (He (Example.Unit 2)); [reflexivity|intros E; discriminate]|].
  split; [reflexivity|]. split; [reflexivity|].
  split; [apply (Hk (Example.Unit 1)); [reflexivity|intros E; discriminate]|].
  split; [reflexivity|].
  apply (Hr (Example.Unit 0)); [reflexivity|intros _; reflexivity].
Defined.

Lemma sparse_entries_witness :
  sparse Example.prior [0; 2]
  = Returns [(0, 0, 1%float); (1, 1, 1%float); (0, 2, 1%float); (1, 2, 1%float)]
  /\ exists coefficients,
       sparse Example.prior [0; 2]
       = Returns (coefficients
                  ++ sparse_b (whiten (Example.Unit 2) (getb Example.prior)) 2).
Proof.
  split; [reflexivity|].
  destruct (sparse_entries Example.prior [0; 2] (Example.Unit 2)) as (co & E & _ & _).
  - reflexivity.
  - intros key [<-|[]]. simpl. lia.
  - discriminate.
  - exists co. exact E.
Defined.

Lemma equals_ignores_row_signs_and_models_witness :
  equals Example.equal_with_abs_tol Example.two_variables
         (IsJacobianFactor Example.two_variables_flipped) Example.default_tolerance = true.
Proof.
  destruct (equals_ignores_row_signs_and_models Example.equal_with_abs_tol
              Example.two_variables Example.two_variables_flipped Example.default_tolerance)
    as [_ Heq].
  apply (Heq) with (model := Some (Example.Unit 2))
                   (model' := Some (Example.Diagonal [2; 2]%float)).
  - intros row Hrow.
    destruct row as [|[|row]]; [split; reflexivity | split; reflexivity|].
    vm_compute in Hrow. lia.
  - split; [reflexivity|]. split; [reflexivity|]. split; [reflexivity|].
    intros row Hrow.
    destruct row as [|[|row]]; [left; reflexivity | right; reflexivity|].
    vm_compute in Hrow. lia.
Defined.


Lemma CameraSet_equals_first_camera_only_witness :
  CameraSet.equals nat (fun a b _ => a =? b) [1; 2; 3] [1; 5; 6] Example.default_tolerance = Returns true
  /\ CameraSet.equals nat (fun a b _ => a =? b) [1; 2; 3] [4; 2; 3] Example.default_tolerance
     = Returns false.
Proof.
  destruct (CameraSet_equals_first_camera_only nat (fun a b _ => a =? b) Example.default_tolerance)
    as (_ & Hfirst & _).
  split.
  - apply (Hfirst 1 1 [2; 3] [5; 6]). reflexivity.
  - apply (Hfirst 1 4 [2; 3] [2; 3]). reflexivity.
Defined.

(** [ensureArcConsistency] returns a value and throws nothing. *)
Lemma ensureArcConsistency_counterexample :
  DecisionTreeFactor.ensureArcConsistency unit nat tt 0 [1; 2] = Returns (false, [1; 2])
  /\ ~ (exists e, DecisionTreeFactor.ensureArcConsistency unit nat tt 0 [1; 2] = Throws e).
Proof.
  split; [reflexivity|]. intros (e & E). discriminate.
Qed.

(** * Further properties of the code *)

(** The names [Matrix], [Vector], [Index] and [double] stand for their
    definitions; arithmetic is done on the definitions. *)
Ltac aliases := unfold Matrix, BlockAb, Vector, Index, double in *.
Ltac alia := aliases; lia.

(** ** Lists and offsets *)

Lemma map_nth_seq_id {A} (l : list A) (d : A) :
  map (fun i => nth i l d) (seq 0 (length l)) = l.
Proof.
  induction l as [|x l IH]; simpl; [reflexivity|].
  f_equal. rewrite <- seq_shift, map_map. exact IH.
Qed.

Lemma nth_map_seq {A} (g : nat -> A) (a n i : nat) (d : A) :
  i < n -> nth i (map g (seq a n)) d = g (a + i).
Proof.
  intros Hi. rewrite (nth_indep _ d (g 0)) by (rewrite length_map, length_seq; exact Hi).
  rewrite map_nth, seq_nth by exact Hi. reflexivity.
Qed.

Lemma offset_mono (Ab : BlockAb) (a b : nat) :
  a <= b -> VerticalBlockView.offset Ab a <= VerticalBlockView.offset Ab b.
Proof. intros L. apply columnOffset_mono. lia. Qed.

Lemma forallb_repeat {A} (p : A -> bool) (x : A) (n : nat) :
  p x = true -> forallb p (repeat x n) = true.
Proof. intros E. induction n as [|n IH]; simpl; [reflexivity|]. now rewrite E, IH. Qed.

Lemma fromDims_cols (ds : list nat) (m : nat) :
  VerticalBlockView.cols (VerticalBlockView.fromDims ds m) = list_sum ds.
Proof.
  unfold VerticalBlockView.cols, VerticalBlockView.columnOffset, VerticalBlockView.fromDims.
  cbn [VerticalBlockView.dims VerticalBlockView.firstBlock].
  rewrite firstn_all. simpl. lia.
Qed.

Lemma fromDims_offset_last (ws : list nat) (m : nat) :
  VerticalBlockView.offset (VerticalBlockView.fromDims (ws ++ [1]) m) (length ws)
  = list_sum ws.
Proof.
  unfold VerticalBlockView.offset, VerticalBlockView.columnOffset, VerticalBlockView.fromDims.
  cbn [VerticalBlockView.dims VerticalBlockView.firstBlock]. simpl.
  rewrite firstn_app, firstn_all, Nat.sub_diag. simpl. now rewrite app_nil_r.
Qed.

(** Block [i] of the view [fromDims ds m] is as wide as [ds] says. *)
Lemma fromDims_offset_next (ds : list nat) (m i w : nat) :
  nth_error ds i = Some w ->
  VerticalBlockView.offset (VerticalBlockView.fromDims ds m) (i + 1)
  = VerticalBlockView.offset (VerticalBlockView.fromDims ds m) i + w.
Proof.
  intros E.
  unfold VerticalBlockView.offset, VerticalBlockView.columnOffset, VerticalBlockView.fromDims.
  cbn [VerticalBlockView.dims VerticalBlockView.firstBlock]. simpl.
  rewrite list_sum_firstn_add. f_equal.
  revert i E. induction ds as [|d ds IH]; intros [|i] E; simpl in *; try discriminate.
  - injection E as ->. destruct ds; simpl; lia.
  - apply IH. exact E.
Qed.

(** ** The constructors from terms (lines 81-170) *)

Section FillTerms.

Variable Ab : BlockAb.

Lemma fill_shape (l : list (nat * Matrix)) (M : Matrix) :
  Eigen.rows (fold_left (fun M jA => assign_A M Ab (fst jA) (snd jA)) l M) = Eigen.rows M
  /\ Eigen.cols (fold_left (fun M jA => assign_A M Ab (fst jA) (snd jA)) l M) = Eigen.cols M.
Proof.
  revert M. induction l as [|x l IH]; intros M; simpl; [split; reflexivity|].
  destruct (IH (assign_A M Ab (fst x) (snd x))) as [Hr Hc]. rewrite Hr, Hc.
  split; reflexivity.
Qed.

(** Filling blocks leaves every column outside them alone. *)
Lemma fill_frame (l : list (nat * Matrix)) (M : Matrix) (r col : nat) :
  (forall j A, In (j, A) l ->
     ~ (VerticalBlockView.offset Ab j <= col < VerticalBlockView.offset Ab j + Eigen.cols A)) ->
  Eigen.coeff (fold_left (fun M jA => assign_A M Ab (fst jA) (snd jA)) l M) r col
  = Eigen.coeff M r col.
Proof.
  revert M. induction l as [|[j A] l IH]; intros M Hout; simpl; [reflexivity|].
  rewrite IH by (intros j' A' Hin; apply Hout; now right).
  specialize (Hout j A (or_introl eq_refl)).
  unfold assign_A, Eigen.assign_block. cbn [Eigen.coeff].
  destruct (VerticalBlockView.offset Ab j <=? col) eqn:E1;
    [|now rewrite !andb_false_r].
  destruct (col <? VerticalBlockView.offset Ab j + Eigen.cols A) eqn:E2;
    [|now rewrite !andb_false_r].
  apply Nat.leb_le in E1. apply Nat.ltb_lt in E2. lia.
Qed.

(** Every block holds the matrix it was given. *)
Lemma fill_content (As : list Matrix) :
  forall (a : nat) (M : Matrix) (i : nat) (A : Matrix) (r c : nat),
    (forall i A, nth_error As i = Some A ->
       VerticalBlockView.offset Ab (a + i + 1)
       = VerticalBlockView.offset Ab (a + i) + Eigen.cols A) ->
    nth_error As i = Some A ->
    r < Eigen.rows A -> VerticalBlockView.rowStart Ab + r < Eigen.rows M ->
    c < Eigen.cols A -> VerticalBlockView.offset Ab (a + i) + c < Eigen.cols M ->
    Eigen.coeff (fold_left (fun M jA => assign_A M Ab (fst jA) (snd jA))
                           (combine (seq a (length As)) As) M)
                (VerticalBlockView.rowStart Ab + r) (VerticalBlockView.offset Ab (a + i) + c)
    = Eigen.coeff A r c.
Proof.
  induction As as [|A0 As IH]; intros a M i A r c Hw Hi Hr HrM Hc HcM.
  - destruct i; discriminate.
  - destruct i as [|i]; simpl in Hi |- *.
    + injection Hi as ->. rewrite Nat.add_0_r in *.
      rewrite fill_frame.
      * unfold assign_A, Eigen.assign_block. cbn [Eigen.coeff].
        replace (VerticalBlockView.rowStart Ab <=? VerticalBlockView.rowStart Ab + r)
          with true by (symmetry; apply Nat.leb_le; lia).
        replace (VerticalBlockView.rowStart Ab + r
                 <? VerticalBlockView.rowStart Ab + Eigen.rows A)
          with true by (symmetry; apply Nat.ltb_lt; lia).
        replace (VerticalBlockView.rowStart Ab + r <? Eigen.rows M)
          with true by (symmetry; apply Nat.ltb_lt; lia).
        replace (VerticalBlockView.offset Ab a <=? VerticalBlockView.offset Ab a + c)
          with true by (symmetry; apply Nat.leb_le; lia).
        replace (VerticalBlockView.offset Ab a + c
                 <? VerticalBlockView.offset Ab a + Eigen.cols A)
          with true by (symmetry; apply Nat.ltb_lt; lia).
        replace (VerticalBlockView.offset Ab a + c <? Eigen.cols M)
          with true by (symmetry; apply Nat.ltb_lt; lia).
        simpl. f_equal; lia.
      * intros j A' Hin. apply In_nth_error in Hin as (n & Hn).
        apply nth_error_combine_seq in Hn as [-> Hn].
        pose proof (Hw 0 A eq_refl) as H0. rewrite Nat.add_0_r in H0.
        pose proof (offset_mono Ab (a + 1) (S a + n) ltac:(lia)). lia.
    + replace (a + S i) with (S a + i) in * by lia.
      apply IH; try assumption.
      intros i' A' Hi'. specialize (Hw (S i') A' Hi').
      replace (a + S i') with (S a + i') in Hw by lia. exact Hw.
Qed.

(** When the loop over the terms returns, every term had the rows of the
    view and the matrix is the one with every block written. *)
Lemma fill_terms_Returns (NDEBUG : bool) (As : list Matrix) :
  forall (j : nat) (M M' : Matrix),
    fill_terms NDEBUG M Ab j As = Returns M' ->
    M' = fold_left (fun M jA => assign_A M Ab (fst jA) (snd jA))
                   (combine (seq j (length As)) As) M
    /\ Forall (fun A => Eigen.rows A = VerticalBlockView.rows Ab) As.
Proof.
  induction As as [|A As IH]; intros j M M' E; cbn [fill_terms] in E.
  - injection E as <-. split; [reflexivity|constructor].
  - apply bind_Returns in E as (M1 & E1 & E).
    unfold set_A in E1.
    destruct ((Eigen.rows A =? Eigen.rows (VerticalBlockView.block M Ab j))
              && (Eigen.cols A =? Eigen.cols (VerticalBlockView.block M Ab j))) eqn:Ec.
    + injection E1 as <-. apply andb_prop in Ec as [Er _]. apply Nat.eqb_eq in Er.
      replace (j + 1) with (S j) in E by lia.
      apply IH in E as [-> Hall]. split; [reflexivity|].
      constructor; [exact Er|exact Hall].
    + apply bind_Returns in E1 as (_ & _ & E1). discriminate.
Qed.

(** The loop returns when every term has the rows of the view and the
    width of its block. *)
Lemma fill_terms_fits (NDEBUG : bool) (As : list Matrix) :
  forall (j : nat) (M : Matrix),
    (forall i A, nth_error As i = Some A ->
       Eigen.rows A = VerticalBlockView.rows Ab
       /\ VerticalBlockView.offset Ab (j + i + 1)
          = VerticalBlockView.offset Ab (j + i) + Eigen.cols A) ->
    fill_terms NDEBUG M Ab j As
    = Returns (fold_left (fun M jA => assign_A M Ab (fst jA) (snd jA))
                         (combine (seq j (length As)) As) M).
Proof.
  induction As as [|A As IH]; intros j M Hfit; cbn [fill_terms]; [reflexivity|].
  destruct (Hfit 0 A eq_refl) as [Hr Hw]. rewrite Nat.add_0_r in Hw.
  unfold set_A.
  replace (Eigen.rows (VerticalBlockView.block M Ab j)) with (VerticalBlockView.rows Ab)
    by reflexivity.
  replace (Eigen.cols (VerticalBlockView.block M Ab j)) with (Eigen.cols A)
    by (unfold VerticalBlockView.block, VerticalBlockView.range; cbn [Eigen.cols Eigen.block];
        lia).
  rewrite Hr, !Nat.eqb_refl. cbn [andb bind].
  replace (j + 1) with (S j) by lia.
  apply IH. intros i A' Hi. specialize (Hfit (S i) A' Hi).
  replace (j + S i) with (S j + i) in Hfit by lia. exact Hfit.
Qed.

(** The loop stops a build with assertions, and has no defined result in a
    build without, when a term has not the rows of the view. *)
Lemma fill_terms_misfit (NDEBUG : bool) (As : list Matrix) :
  forall (j : nat) (M : Matrix),
    Exists (fun A => Eigen.rows A <> VerticalBlockView.rows Ab) As ->
    (forall i A, nth_error As i = Some A ->
       VerticalBlockView.offset Ab (j + i + 1)
       = VerticalBlockView.offset Ab (j + i) + Eigen.cols A) ->
    fill_terms NDEBUG M Ab j As = if NDEBUG then Undefined else Aborts.
Proof.
  induction As as [|A As IH]; intros j M Hex Hw; [inversion Hex|].
  cbn [fill_terms]. unfold set_A.
  replace (Eigen.rows (VerticalBlockView.block M Ab j)) with (VerticalBlockView.rows Ab)
    by reflexivity.
  destruct (Eigen.rows A =? VerticalBlockView.rows Ab) eqn:Er.
  - pose proof (Hw 0 A eq_refl) as Hw0. rewrite Nat.add_0_r in Hw0.
    replace (Eigen.cols (VerticalBlockView.block M Ab j)) with (Eigen.cols A)
      by (unfold VerticalBlockView.block, VerticalBlockView.range;
          cbn [Eigen.cols Eigen.block]; lia).
    rewrite Nat.eqb_refl. cbn [andb bind].
    replace (j + 1) with (S j) by lia.
    apply IH.
    + apply Nat.eqb_eq in Er. inversion Hex as [? ? Hbad|? ? Hrest]; subst;
        [contradiction|exact Hrest].
    + intros i A' Hi. specialize (Hw (S i) A' Hi).
      replace (j + S i) with (S j + i) in Hw by lia. exact Hw.
  - cbn [andb]. unfold assert_. destruct NDEBUG; reflexivity.
Qed.

End FillTerms.

(** A product with a block of the factor that holds [A] is the product with
    [A]. *)
Lemma mul_agree (B A : Matrix) (x : Vector) :
  Eigen.rows B = Eigen.rows A -> Eigen.cols B = Eigen.cols A ->
  (forall r c, r < Eigen.rows A -> c < Eigen.cols A -> Eigen.coeff B r c = Eigen.coeff A r c) ->
  Eigen.mul B x = Eigen.mul A x.
Proof.
  intros Hr Hc Hx. unfold Eigen.mul, Eigen.row. rewrite Hr, Hc.
  apply map_ext_in. intros i Hi. apply in_seq in Hi. f_equal.
  apply map_ext_in. intros j Hj. apply in_seq in Hj. apply Hx; lia.
Qed.

Lemma map_positions_terms {B} (G : nat -> Index -> B) (Hf : Index * Matrix -> B)
    (terms : list (Index * Matrix)) :
  forall a : nat,
    (forall i t, nth_error terms i = Some t -> G (a + i) (fst t) = Hf t) ->
    map (fun pk => G (fst pk) (snd pk))
        (combine (seq a (length (map fst terms))) (map fst terms))
    = map Hf terms.
Proof.
  induction terms as [|t terms IH]; intros a HG; simpl; [reflexivity|].
  f_equal.
  - rewrite <- (HG 0 t eq_refl). now rewrite Nat.add_0_r.
  - apply IH. intros i t' Hi. rewrite <- (HG (S i) t' Hi). f_equal. lia.
Qed.

Lemma set_b_entry (M : Matrix) (Ab : BlockAb) (n : nat) (b : Vector) (i : nat) :
  i < length b -> VerticalBlockView.rowStart Ab + i < Eigen.rows M ->
  VerticalBlockView.offset Ab n < Eigen.cols M ->
  Eigen.coeff (set_b M Ab n b) (VerticalBlockView.rowStart Ab + i) (VerticalBlockView.offset Ab n)
  = nth i b 0%float.
Proof.
  intros Hi Hr Hc. unfold set_b, Eigen.assign_col. cbn [Eigen.coeff].
  rewrite Nat.eqb_refl.
  rewrite !(proj2 (Nat.ltb_lt _ _)) by lia.
  rewrite (proj2 (Nat.leb_le _ _)) by lia.
  cbn [andb]. f_equal. lia.
Qed.

Section Constructors.

Context {SharedDiagonal : Type} `{NoiseModel SharedDiagonal}.
Variable NDEBUG : bool.
Variable uninitialized : nat -> nat -> double.

(** The factor the constructor from terms hands to [assertInvariants]. *)
Lemma terms_fill (terms : list (Index * Matrix)) (b : Vector)
    (model : option SharedDiagonal) :
  JacobianFactor_terms NDEBUG uninitialized terms b model
  = (M <- fill_terms NDEBUG
            (Eigen.mkMatrix (length b)
               (list_sum (map (fun t => Eigen.cols (snd t)) terms ++ [1])) uninitialized)
            (VerticalBlockView.fromDims
               (map (fun t => Eigen.cols (snd t)) terms ++ [1]) (length b))
            0 (map snd terms) ;;
     checked NDEBUG
       (mkJacobianFactor (map fst terms) model (repeat 0 (length b))
          (set_b M
             (VerticalBlockView.fromDims
                (map (fun t => Eigen.cols (snd t)) terms ++ [1]) (length b))
             (length terms) b)
          (VerticalBlockView.fromDims
             (map (fun t => Eigen.cols (snd t)) terms ++ [1]) (length b)))).
Proof.
  unfold JacobianFactor_terms, allocate_blocks, VerticalBlockView.copyStructureFrom.
  rewrite fromDims_cols.
  unfold VerticalBlockView.rows. cbn [VerticalBlockView.fromDims VerticalBlockView.rowEnd
    VerticalBlockView.rowStart VerticalBlockView.firstBlock VerticalBlockView.dims skipn].
  rewrite Nat.sub_0_r. reflexivity.
Qed.

Lemma fromDims_rows (ds : list nat) (m : nat) :
  VerticalBlockView.rows (VerticalBlockView.fromDims ds m) = m.
Proof.
  unfold VerticalBlockView.rows.
  cbn [VerticalBlockView.fromDims VerticalBlockView.rowEnd VerticalBlockView.rowStart].
  apply Nat.sub_0_r.
Qed.

Lemma terms_widths (terms : list (Index * Matrix)) (m i : nat) (t : Index * Matrix) :
  nth_error terms i = Some t ->
  VerticalBlockView.offset
    (VerticalBlockView.fromDims (map (fun t => Eigen.cols (snd t)) terms ++ [1]) m) (i + 1)
  = VerticalBlockView.offset
      (VerticalBlockView.fromDims (map (fun t => Eigen.cols (snd t)) terms ++ [1]) m) i
    + Eigen.cols (snd t).
Proof.
  intros E. apply fromDims_offset_next.
  rewrite nth_error_app1.
  - exact (map_nth_error (fun t : Index * Matrix => Eigen.cols (snd t)) _ _ E).
  - rewrite length_map. apply (proj1 (nth_error_Some terms i)). rewrite E. discriminate.
Qed.

(** When every term has as many rows as [b], the blocks are written and the
    factor is handed to [assertInvariants]. *)
Lemma terms_checked (terms : list (Index * Matrix)) (b : Vector)
    (model : option SharedDiagonal) :
  Forall (fun t => Eigen.rows (snd t) = length b) terms ->
  JacobianFactor_terms NDEBUG uninitialized terms b model
  = checked NDEBUG
      (mkJacobianFactor (map fst terms) model (repeat 0 (length b))
         (set_b (blocks_written
                   (Eigen.mkMatrix (length b)
                      (list_sum (map (fun t => Eigen.cols (snd t)) terms ++ [1]))
                      uninitialized)
                   (VerticalBlockView.fromDims
                      (map (fun t => Eigen.cols (snd t)) terms ++ [1]) (length b))
                   (map snd terms))
                (VerticalBlockView.fromDims
                   (map (fun t => Eigen.cols (snd t)) terms ++ [1]) (length b))
                (length terms) b)
         (VerticalBlockView.fromDims
            (map (fun t => Eigen.cols (snd t)) terms ++ [1]) (length b))).
Proof.
  intros Hrows. rewrite terms_fill.
  rewrite (fill_terms_fits _ NDEBUG (map snd terms) 0).
  - reflexivity.
  - intros i A Hi. rewrite nth_error_map in Hi.
    destruct (nth_error terms i) as [t|] eqn:Et; [|discriminate].
    simpl in Hi. injection Hi as <-. split.
    + rewrite fromDims_rows.
      exact (proj1 (Forall_forall _ _) Hrows t (nth_error_In _ _ Et)).
    + apply (terms_widths terms (length b) i t Et).
Qed.

(** A factor the constructor from terms returns: every term had as many rows
    as [b], and the factor is the one handed to [assertInvariants]. *)
Lemma terms_Returns (terms : list (Index * Matrix)) (b : Vector)
    (model : option SharedDiagonal) (f : JacobianFactor SharedDiagonal) :
  JacobianFactor_terms NDEBUG uninitialized terms b model = Returns f ->
  Forall (fun t => Eigen.rows (snd t) = length b) terms
  /\ f = mkJacobianFactor (map fst terms) model (repeat 0 (length b))
           (set_b (blocks_written
                     (Eigen.mkMatrix (length b)
                        (list_sum (map (fun t => Eigen.cols (snd t)) terms ++ [1]))
                        uninitialized)
                     (VerticalBlockView.fromDims
                        (map (fun t => Eigen.cols (snd t)) terms ++ [1]) (length b))
                     (map snd terms))
                  (VerticalBlockView.fromDims
                     (map (fun t => Eigen.cols (snd t)) terms ++ [1]) (length b))
                  (length terms) b)
           (VerticalBlockView.fromDims
              (map (fun t => Eigen.cols (snd t)) terms ++ [1]) (length b)).
Proof.
  rewrite terms_fill. intros E.
  apply bind_Returns in E as (M & EM & E).
  apply fill_terms_Returns in EM as [-> Hall].
  apply checked_Returns in E. split; [|exact E].
  rewrite fromDims_rows in Hall.
  apply Forall_forall. intros t Ht.
  exact (proj1 (Forall_forall _ _) Hall (snd t) (in_map snd _ _ Ht)).
Qed.

(** A term with other rows than [b] stops a build with assertions at the
    assignment of its block; a build without has no defined result. *)
Lemma terms_misfit (terms : list (Index * Matrix)) (b : Vector)
    (model : option SharedDiagonal) :
  Exists (fun t => Eigen.rows (snd t) <> length b) terms ->
  JacobianFactor_terms NDEBUG uninitialized terms b model
  = if NDEBUG then Undefined else Aborts.
Proof.
  intros Hex. rewrite terms_fill.
  rewrite (fill_terms_misfit _ NDEBUG (map snd terms) 0).
  - destruct NDEBUG; reflexivity.
  - rewrite fromDims_rows. apply Exists_exists in Hex as (t & Ht & Hbad).
    apply Exists_exists. exists (snd t). split; [apply in_map; exact Ht|exact Hbad].
  - intros i A Hi. rewrite nth_error_map in Hi.
    destruct (nth_error terms i) as [t|] eqn:Et; [|discriminate].
    simpl in Hi. injection Hi as <-.
    apply (terms_widths terms (length b) i t Et).
Qed.

Lemma terms_matrix_shape (terms : list (Index * Matrix)) (b : Vector) (Ab : BlockAb)
    (n cols_ : nat) :
  let M := set_b (blocks_written (Eigen.mkMatrix (length b) cols_ uninitialized) Ab
                             (map snd terms)) Ab n b in
  Eigen.rows M = length b /\ Eigen.cols M = cols_.
Proof.
  unfold set_b, Eigen.assign_col, blocks_written. cbn [Eigen.rows Eigen.cols].
  destruct (fill_shape Ab (combine (seq 0 (length (map snd terms))) (map snd terms))
              (Eigen.mkMatrix (length b) cols_ uninitialized)) as [Hr Hc].
  rewrite Hr, Hc. split; reflexivity.
Qed.

(** What [assertInvariants] does on a factor of sound structure whose keys
    are distinct: a release build checks nothing; a debug build throws on a
    NaN and returns otherwise. *)
Lemma assertInvariants_structure (f : JacobianFactor SharedDiagonal) :
  size f + 1 = VerticalBlockView.nBlocks (Ab_ f) ->
  length (firstNonzeroBlocks_ f) = VerticalBlockView.rows (Ab_ f) ->
  forallb (fun b => b <? VerticalBlockView.nBlocks (Ab_ f)) (firstNonzeroBlocks_ f) = true ->
  NDEBUG = true \/ nodupb (keys_ f) = true ->
  assertInvariants NDEBUG f
  = if NDEBUG then Returns tt
    else if contains_NaN f
         then Throws (invalid_argument "JacobianFactor contains NaN matrix entries.")
         else Returns tt.
Proof.
  intros H1 H2 H3 Hk. unfold assertInvariants, GaussianFactor_assertInvariants, assert_.
  destruct NDEBUG; [reflexivity|].
  destruct Hk as [Hk|Hk]; [discriminate|]. rewrite Hk.
  rewrite H3. apply Nat.eqb_eq in H1, H2. rewrite H1, H2, orb_true_r. reflexivity.
Qed.

Lemma terms_offset_last (terms : list (Index * Matrix)) (m : nat) :
  VerticalBlockView.offset
    (VerticalBlockView.fromDims (map (fun t => Eigen.cols (snd t)) terms ++ [1]) m)
    (length terms)
  = list_sum (map (fun t => Eigen.cols (snd t)) terms).
Proof.
  rewrite <- (length_map (fun t : Index * Matrix => Eigen.cols (snd t)) terms).
  apply fromDims_offset_last.
Qed.

Lemma terms_keys (terms : list (Index * Matrix)) (b : Vector)
    (model : option SharedDiagonal) (f : JacobianFactor SharedDiagonal) :
  JacobianFactor_terms NDEBUG uninitialized terms b model = Returns f ->
  keys_ f = map fst terms /\ model_ f = model /\ rows f = length b
  /\ firstNonzeroBlocks_ f = repeat 0 (length b).
Proof.
  intros E. apply terms_Returns in E as [_ ->].
  unfold rows, VerticalBlockView.rows. simpl. repeat split. lia.
Qed.

Lemma terms_getb (terms : list (Index * Matrix)) (b : Vector)
    (model : option SharedDiagonal) (f : JacobianFactor SharedDiagonal) :
  JacobianFactor_terms NDEBUG uninitialized terms b model = Returns f -> getb f = b.
Proof.
  intros E. apply terms_Returns in E as [_ ->].
  unfold getb, size, VerticalBlockView.column, Eigen.col, Eigen.block.
  cbn [keys_ matrix_ Ab_ Eigen.rows Eigen.coeff].
  rewrite length_map.
  unfold VerticalBlockView.rows.
  cbn [VerticalBlockView.fromDims VerticalBlockView.rowStart VerticalBlockView.rowEnd].
  rewrite Nat.sub_0_r.
  etransitivity; [|apply (map_nth_seq_id b 0%float)].
  apply map_ext_in. intros i Hi. apply in_seq in Hi.
  rewrite !Nat.add_0_r.
  destruct (terms_matrix_shape terms b
              (VerticalBlockView.fromDims
                 (map (fun t : Index * Matrix => Eigen.cols (snd t)) terms ++ [1]) (length b))
              (length terms)
              (list_sum (map (fun t : Index * Matrix => Eigen.cols (snd t)) terms ++ [1])))
    as [Hr Hc].
  pose proof (terms_offset_last terms (length b)) as Hlast.
  apply (set_b_entry _ (VerticalBlockView.fromDims _ (length b)) (length terms) b i).
  - lia.
  - unfold blocks_written, set_b, Eigen.assign_col in *. cbn [Eigen.rows] in *.
    simpl. unfold Matrix in *. rewrite Hr. lia.
  - unfold blocks_written, set_b, Eigen.assign_col in *. cbn [Eigen.cols] in *.
    unfold Matrix in *. rewrite Hc, Hlast, list_sum_app. simpl. lia.
Qed.

Lemma terms_getA (terms : list (Index * Matrix)) (b : Vector)
    (model : option SharedDiagonal) (f : JacobianFactor SharedDiagonal)
    (pos : nat) (key : Index) (A : Matrix) :
  JacobianFactor_terms NDEBUG uninitialized terms b model = Returns f ->
  nth_error terms pos = Some (key, A) ->
  nth_error (keys_ f) pos = Some key
  /\ Eigen.rows (getA f pos) = length b
  /\ Eigen.cols (getA f pos) = Eigen.cols A
  /\ forall r c, r < Eigen.rows A -> r < length b -> c < Eigen.cols A ->
       Eigen.coeff (getA f pos) r c = Eigen.coeff A r c.
Proof.
  intros E Hpos. apply terms_Returns in E as [_ ->].
  pose proof (terms_widths terms (length b) pos (key, A) Hpos) as Hnext.
  cbn [snd] in Hnext.
  pose proof (terms_offset_last terms (length b)) as Hlast.
  assert (Hlt : pos < length terms).
  { apply (proj1 (nth_error_Some terms pos)). rewrite Hpos. discriminate. }
  pose proof (offset_mono
                (VerticalBlockView.fromDims
                   (map (fun t : Index * Matrix => Eigen.cols (snd t)) terms ++ [1])
                   (length b)) (pos + 1) (length terms) ltac:(lia)) as Hmono.
  cbn [keys_].
  split; [apply (map_nth_error fst _ _ Hpos)|].
  unfold getA, VerticalBlockView.block, VerticalBlockView.range, Eigen.block.
  cbn [matrix_ Ab_ Eigen.rows Eigen.cols Eigen.coeff].
  split; [unfold VerticalBlockView.rows; simpl; lia|].
  split; [lia|].
  intros r c Hr Hrb Hc.
  unfold set_b, Eigen.assign_col. cbn [Eigen.coeff].
  unfold Matrix in *. rewrite Hlast in *.
  replace (VerticalBlockView.offset _ pos + c =? _) with false
    by (symmetry; apply Nat.eqb_neq; lia).
  rewrite !andb_false_r. cbn [andb].
  unfold blocks_written.
  apply (fill_content _ _ 0).
  - intros i A' Hi. rewrite nth_error_map in Hi.
    destruct (nth_error terms i) as [t|] eqn:Et; [|discriminate].
    simpl in Hi. injection Hi as <-.
    apply (terms_widths terms (length b) i t Et).
  - apply (map_nth_error snd _ _ Hpos).
  - exact Hr.
  - simpl. exact Hrb.
  - exact Hc.
  - cbn [Eigen.cols]. rewrite list_sum_app. simpl. lia.
Qed.

(** X1: the constructor from terms stores what it is given.  The factor it
    returns has the keys of the terms in their order, [getb()] is [b], and
    the block of every term has the width and, on the rows the term and [b]
    share, the entries of its matrix. *)
Theorem terms_constructor_round_trip (terms : list (Index * Matrix)) (b : Vector)
    (model : option SharedDiagonal) (f : JacobianFactor SharedDiagonal) :
  JacobianFactor_terms NDEBUG uninitialized terms b model = Returns f ->
  keys_ f = map fst terms
  /\ model_ f = model
  /\ rows f = length b
  /\ getb f = b
  /\ forall pos key A, nth_error terms pos = Some (key, A) ->
       Eigen.rows (getA f pos) = length b
       /\ Eigen.cols (getA f pos) = Eigen.cols A
       /\ forall r c, r < Eigen.rows A -> r < length b -> c < Eigen.cols A ->
            Eigen.coeff (getA f pos) r c = Eigen.coeff A r c.
Proof.
  intros E.
  destruct (terms_keys terms b model f E) as (Hk & Hm & Hr & _).
  split; [exact Hk|]. split; [exact Hm|]. split; [exact Hr|].
  split; [apply (terms_getb terms b model f E)|].
  intros pos key A Hpos.
  destruct (terms_getA terms b model f pos key A E Hpos) as (_ & H1 & H2 & H3).
  repeat split; assumption.
Qed.

(** X2: a factor built from terms whose matrices have as many rows as [b]
    evaluates to [-b + A_1 * c[i_1] + ... + A_n * c[i_n]], the sum taken in
    the order of the terms. *)
Theorem terms_constructor_unweighted_error (terms : list (Index * Matrix)) (b : Vector)
    (model : option SharedDiagonal) (f : JacobianFactor SharedDiagonal) (c : VectorValues) :
  Forall (fun t => Eigen.rows (snd t) = length b) terms ->
  JacobianFactor_terms NDEBUG uninitialized terms b model = Returns f ->
  unweighted_error f c
  = fold_left (fun e t => Eigen.plus e (Eigen.mul (snd t) (c (fst t)))) terms (Eigen.neg b).
Proof.
  intros Hrows E.
  rewrite unweighted_error_residual. unfold residual, size.
  rewrite (terms_getb terms b model f E).
  destruct (terms_keys terms b model f E) as (Hk & _). rewrite Hk.
  rewrite (map_positions_terms
             (fun pos key => Eigen.mul (getA f pos) (c key))
             (fun t => Eigen.mul (snd t) (c (fst t))) terms 0).
  - apply fold_left_over_map.
  - intros i [key A] Hi. cbn [fst snd Nat.add].
    destruct (terms_getA terms b model f i key A E Hi) as (_ & Hr & Hc & Hx).
    pose proof (proj1 (Forall_forall _ _) Hrows (key, A) (nth_error_In _ _ Hi)) as HA.
    cbn [snd] in HA.
    apply mul_agree; [lia | exact Hc |].
    intros r col Hr' Hc'. apply Hx; lia.
Qed.

(** X3: what the constructor from terms can do, in a release build and, given
    distinct keys, in a debug build.  When a term has other rows than [b],
    a build with assertions stops at the assignment of its block and a build
    without has no defined result.  When every term has the rows of [b], a
    release build returns a factor, and a debug build returns a factor or
    throws the invalid-argument error for a NaN entry, which it does
    whenever [b] holds a NaN. *)
Theorem terms_constructor_outcome (terms : list (Index * Matrix)) (b : Vector)
    (model : option SharedDiagonal) :
  (Exists (fun t => Eigen.rows (snd t) <> length b) terms ->
   NDEBUG = true \/ nodupb (map fst terms) = true ->
   JacobianFactor_terms NDEBUG uninitialized terms b model
   = if NDEBUG then Undefined else Aborts)
  /\ (Forall (fun t => Eigen.rows (snd t) = length b) terms ->
      (NDEBUG = true ->
       exists f, JacobianFactor_terms NDEBUG uninitialized terms b model = Returns f)
      /\ (NDEBUG = false -> nodupb (map fst terms) = true ->
          (exists f, JacobianFactor_terms NDEBUG uninitialized terms b model = Returns f)
          \/ JacobianFactor_terms NDEBUG uninitialized terms b model
             = Throws (invalid_argument "JacobianFactor contains NaN matrix entries."))
      /\ (NDEBUG = false -> nodupb (map fst terms) = true ->
          existsb PrimFloat.is_nan b = true ->
          JacobianFactor_terms NDEBUG uninitialized terms b model
          = Throws (invalid_argument "JacobianFactor contains NaN matrix entries."))).
Proof.
  split; [intros Hex _; apply terms_misfit; exact Hex|].
  intros Hrows. rewrite (terms_checked terms b model Hrows). unfold checked.
  match goal with |- context [assertInvariants NDEBUG ?f0] =>
    assert (Hinv : NDEBUG = true \/ nodupb (map fst terms) = true ->
                   assertInvariants NDEBUG f0
                   = if NDEBUG then Returns tt
                     else if contains_NaN f0
                          then Throws (invalid_argument
                                         "JacobianFactor contains NaN matrix entries.")
                          else Returns tt)
  end.
  { intros Hk. apply assertInvariants_structure.
    - unfold size, VerticalBlockView.nBlocks. simpl.
      rewrite length_app, !length_map. simpl. now rewrite Nat.sub_0_r.
    - unfold VerticalBlockView.rows. simpl. rewrite repeat_length. lia.
    - apply forallb_repeat. apply Nat.ltb_lt. unfold VerticalBlockView.nBlocks. simpl.
      rewrite length_app. simpl. lia.
    - exact Hk. }
  split; [intros Hn; rewrite (Hinv (or_introl Hn)), Hn; eexists; reflexivity|].
  split.
  - intros Hn Hk. rewrite (Hinv (or_intror Hk)), Hn.
    destruct (contains_NaN _); [right; reflexivity|left; eexists; reflexivity].
  - intros Hn Hk Hnan. rewrite (Hinv (or_intror Hk)), Hn. clear Hinv.
    match goal with |- context [contains_NaN ?f0] => assert (HN : contains_NaN f0 = true) end.
    2:{ rewrite HN. reflexivity. }
    apply existsb_exists in Hnan as (x & Hin & Hx).
    apply (In_nth _ _ 0%float) in Hin as (i & Hi & Hnth).
    unfold contains_NaN. cbn [Ab_ matrix_].
    apply existsb_exists. exists i. split.
    { apply in_seq. unfold VerticalBlockView.rows.
      cbn [VerticalBlockView.fromDims VerticalBlockView.rowEnd VerticalBlockView.rowStart].
      alia. }
    apply existsb_exists.
    exists (list_sum (map (fun t : Index * Matrix => Eigen.cols (snd t)) terms)). split.
    { apply in_seq. rewrite fromDims_cols, list_sum_app. simpl. alia. }
    destruct (terms_matrix_shape terms b
                (VerticalBlockView.fromDims
                   (map (fun t : Index * Matrix => Eigen.cols (snd t)) terms ++ [1]) (length b))
                (length terms)
                (list_sum (map (fun t : Index * Matrix => Eigen.cols (snd t)) terms ++ [1])))
      as [Hr Hc].
    pose proof (terms_offset_last terms (length b)) as Hlast.
    aliases. rewrite <- Hlast.
    rewrite (set_b_entry _ (VerticalBlockView.fromDims _ (length b)) (length terms) b i).
    + aliases. rewrite Hnth. exact Hx.
    + exact Hi.
    + unfold blocks_written, set_b, Eigen.assign_col in *. cbn [Eigen.rows] in *.
      simpl. unfold Matrix in *. rewrite Hr. lia.
    + unfold blocks_written, set_b, Eigen.assign_col in *. cbn [Eigen.cols] in *.
      unfold Matrix in *. rewrite Hc, Hlast, list_sum_app. simpl. lia.
Qed.

End Constructors.

(** ** Copies (lines 63-68 and 216-223) *)

Lemma list_sum_skipn (l : list nat) (n : nat) :
  list_sum (skipn n l) = list_sum l - list_sum (firstn n l).
Proof.
  rewrite <- (firstn_skipn n l) at 2. rewrite list_sum_app. lia.
Qed.

Lemma plus_length (u v : Vector) :
  length (Eigen.plus u v) = Nat.min (length u) (length v).
Proof.
  revert v. induction u as [|x u IH]; intros [|y v]; simpl; try reflexivity.
  now rewrite IH.
Qed.

Section Copies.

Context {SharedDiagonal : Type} `{NoiseModel SharedDiagonal}.
Variable NDEBUG : bool.

Lemma copy_Returns (g f : JacobianFactor SharedDiagonal) :
  JacobianFactor_copy NDEBUG g = Returns f \/ assign NDEBUG g = Returns f ->
  f = mkJacobianFactor (keys_ g) (model_ g) (firstNonzeroBlocks_ g)
        (fst (VerticalBlockView.assignNoalias (matrix_ g) (Ab_ g)))
        (snd (VerticalBlockView.assignNoalias (matrix_ g) (Ab_ g))).
Proof.
  unfold JacobianFactor_copy, assign.
  destruct (VerticalBlockView.assignNoalias (matrix_ g) (Ab_ g)) as [M Ab].
  intros [E|E]; apply checked_Returns in E; exact E.
Qed.

Lemma copy_getb (g : JacobianFactor SharedDiagonal) :
  getb (mkJacobianFactor (keys_ g) (model_ g) (firstNonzeroBlocks_ g)
          (fst (VerticalBlockView.assignNoalias (matrix_ g) (Ab_ g)))
          (snd (VerticalBlockView.assignNoalias (matrix_ g) (Ab_ g))))
  = getb g.
Proof.
  pose proof (assignNoalias_offset (matrix_ g) (Ab_ g) (size g)) as Ok.
  unfold getb, size in *. cbn [keys_ matrix_ Ab_].
  unfold VerticalBlockView.column, Eigen.col, Eigen.block. cbn [Eigen.rows Eigen.coeff].
  rewrite Ok.
  unfold VerticalBlockView.assignNoalias at 1 2 4.
  cbn [fst snd VerticalBlockView.fromDims VerticalBlockView.rowStart].
  unfold VerticalBlockView.full, VerticalBlockView.range, Eigen.block. cbn [Eigen.coeff].
  unfold VerticalBlockView.rows at 1.
  unfold VerticalBlockView.assignNoalias at 1 2.
  cbn [snd VerticalBlockView.fromDims VerticalBlockView.rowStart VerticalBlockView.rowEnd].
  rewrite Nat.sub_0_r.
  apply map_ext. intros i. f_equal; lia.
Qed.

(** X4: a copy, made by the copy constructor or by [operator=], has the keys,
    the noise model, the staircase record, the dimensions, the right-hand
    side and the blocks of the active view of the original, and evaluates
    like it. *)
Theorem copy_preserves_the_active_view (g f : JacobianFactor SharedDiagonal) :
  JacobianFactor_copy NDEBUG g = Returns f \/ assign NDEBUG g = Returns f ->
  keys_ f = keys_ g
  /\ model_ f = model_ g
  /\ firstNonzeroBlocks_ f = firstNonzeroBlocks_ g
  /\ rows f = rows g
  /\ cols f = cols g
  /\ getb f = getb g
  /\ (forall k, Eigen.cols (getA f k) = Eigen.cols (getA g k)
                /\ forall r j, Eigen.coeff (getA f k) r j = Eigen.coeff (getA g k) r j)
  /\ (forall c, unweighted_error f c = unweighted_error g c)
  /\ (forall c, error_vector f c = error_vector g c)
  /\ (forall c, error f c = error g c).
Proof.
  intros E. apply copy_Returns in E.
  assert (Hk : keys_ f = keys_ g) by (subst f; reflexivity).
  assert (Hm : model_ f = model_ g) by (subst f; reflexivity).
  assert (Hr : rows f = rows g).
  { subst f. unfold rows, VerticalBlockView.rows, VerticalBlockView.assignNoalias.
    cbn [Ab_ snd VerticalBlockView.fromDims VerticalBlockView.rowStart
         VerticalBlockView.rowEnd].
    unfold VerticalBlockView.rows. lia. }
  assert (Hb : getb f = getb g) by (subst f; apply copy_getb).
  assert (HA : forall k, Eigen.cols (getA f k) = Eigen.cols (getA g k)
                         /\ forall r j, Eigen.coeff (getA f k) r j = Eigen.coeff (getA g k) r j).
  { intros k. subst f.
    exact (assignNoalias_getA g (keys_ g) (model_ g) (firstNonzeroBlocks_ g) k). }
  assert (Hu : forall c, unweighted_error f c = unweighted_error g c).
  { intros c. unfold unweighted_error, empty, size. rewrite Hk, Hb, Hr.
    destruct (rows g =? 0); [reflexivity|].
    apply fold_left_agree_in. intros e pos _. f_equal.
    destruct (HA pos) as [Hc Hx].
    apply mul_agree; [exact Hr | exact Hc | intros; apply Hx]. }
  assert (Hev : forall c, error_vector f c = error_vector g c).
  { intros c. unfold error_vector, empty. now rewrite Hr, Hm, Hb, Hu. }
  split; [exact Hk|]. split; [exact Hm|].
  split; [subst f; reflexivity|]. split; [exact Hr|].
  split.
  { subst f. unfold cols. cbn [Ab_].
    unfold VerticalBlockView.assignNoalias. cbn [snd]. rewrite fromDims_cols.
    unfold VerticalBlockView.cols, VerticalBlockView.columnOffset.
    rewrite firstn_all. apply list_sum_skipn. }
  split; [exact Hb|]. split; [exact HA|]. split; [exact Hu|]. split; [exact Hev|].
  intros c. unfold error, empty. now rewrite Hr, Hev.
Qed.

(** X5: a copy has a view of its own that spans its full extent, and the
    blocks of that view are the columns of its matrix, whatever the view of
    the original was: a copy can be handed to [eliminate]. *)
Theorem copy_spans_full_extent (g f : JacobianFactor SharedDiagonal) :
  JacobianFactor_copy NDEBUG g = Returns f \/ assign NDEBUG g = Returns f ->
  spans_full_extent f /\ blocks_cover f.
Proof.
  intros E. apply copy_Returns in E. subst f.
  unfold spans_full_extent, blocks_cover. cbn [Ab_ matrix_].
  unfold VerticalBlockView.assignNoalias. cbn [fst snd].
  unfold VerticalBlockView.full, VerticalBlockView.range, Eigen.block, VerticalBlockView.fromDims.
  cbn [Eigen.rows Eigen.cols VerticalBlockView.rowStart VerticalBlockView.rowEnd
       VerticalBlockView.firstBlock VerticalBlockView.dims].
  repeat split.
  unfold VerticalBlockView.offset, VerticalBlockView.nBlocks, VerticalBlockView.columnOffset.
  rewrite Nat.add_0_r, list_sum_skipn.
  destruct (Nat.le_gt_cases (VerticalBlockView.firstBlock (Ab_ g))
                            (length (VerticalBlockView.dims (Ab_ g)))) as [L|G].
  - replace (VerticalBlockView.firstBlock (Ab_ g)
             + (length (VerticalBlockView.dims (Ab_ g)) - VerticalBlockView.firstBlock (Ab_ g)))
      with (length (VerticalBlockView.dims (Ab_ g))) by lia.
    now rewrite firstn_all.
  - replace (length (VerticalBlockView.dims (Ab_ g)) - VerticalBlockView.firstBlock (Ab_ g))
      with 0 by lia.
    rewrite Nat.add_0_r, firstn_all2 by lia. lia.
Qed.

End Copies.

(** ** More on eliminate (lines 373-487) *)

Section RowstartsBound.

Variable Ab : BlockAb.
Variable nkeys : nat.

Lemma advance_varpos_le (fuel row varpos : nat) :
  varpos <= nkeys -> advance_varpos fuel Ab nkeys row varpos <= nkeys.
Proof.
  revert varpos. induction fuel as [|fuel IH]; simpl; intros varpos Hv; [exact Hv|].
  destruct ((varpos <? nkeys) && _) eqn:Ec; [|exact Hv].
  apply andb_prop in Ec as [Ec _]. apply Nat.ltb_lt in Ec. apply IH. lia.
Qed.

Lemma rowstarts_fold_le (n a : nat) (st : nat * list nat) :
  length (snd st) = a + n -> fst st <= nkeys ->
  (forall r, r < a -> nth r (snd st) 0 <= nkeys) ->
  forall r, r < a + n ->
    nth r (snd (fold_left (rowstarts_step Ab nkeys) (seq a n) st)) 0 <= nkeys.
Proof.
  revert a st. induction n as [|n IH]; intros a st Hlen Hvar Hdone r Hr.
  - simpl. apply Hdone. lia.
  - simpl.
    pose proof (advance_varpos_le nkeys a (fst st) Hvar) as Hadv.
    apply (IH (S a) (rowstarts_step Ab nkeys st a)); try lia.
    + unfold rowstarts_step; simpl. rewrite vector_set_length. lia.
    + exact Hadv.
    + intros r' Hr'. unfold rowstarts_step; simpl.
      destruct (Nat.eq_dec r' a) as [->|N].
      * rewrite nth_vector_set_same by lia. exact Hadv.
      * rewrite nth_vector_set_other by lia. apply Hdone. lia.
Qed.

(** No row of the new staircase names a block after the last key. *)
Lemma rowstarts_le (fnz : list nat) (r : nat) :
  r < VerticalBlockView.rows Ab -> nth r (rowstarts Ab nkeys fnz) 0 <= nkeys.
Proof.
  intros Hr. unfold rowstarts.
  apply (rowstarts_fold_le (VerticalBlockView.rows Ab) 0
           (0, vector_resize fnz (VerticalBlockView.rows Ab) 0)).
  - apply vector_resize_length.
  - simpl. lia.
  - intros r' Hr'. lia.
  - lia.
Qed.

End RowstartsBound.

Section EliminateMore.

Context {SharedDiagonal : Type} `{NoiseModel SharedDiagonal}.
Variable NDEBUG : bool.

(** The conditional [eliminate] returns. *)
Lemma eliminate_Returns_conditional (f : JacobianFactor SharedDiagonal) (nrFrontals : nat)
    (conditional : GaussianConditional) (f' : JacobianFactor SharedDiagonal) :
  eliminate NDEBUG f nrFrontals = Returns (conditional, f') ->
  exists model,
    model_ f = Some model
    /\ let noiseModel := QR_model model f in
       let fd := frontalDim f nrFrontals in
       let Ab := VerticalBlockView.mkBlockAb
                   (VerticalBlockView.dims (Ab_ f))
                   (VerticalBlockView.rowStart (Ab_ f))
                   (VerticalBlockView.rowStart (Ab_ f) + fd)
                   (VerticalBlockView.firstBlock (Ab_ f)) in
       conditional
       = make_conditional (keys_ f) nrFrontals
           (zero_lower_left
              (Eigen.mkMatrix (Eigen.rows (matrix_ f)) (Eigen.cols (matrix_ f))
                              (fst (QR model (matrix_ f))))
              (dim noiseModel))
           Ab
           (Eigen.segment (sigmas noiseModel) (VerticalBlockView.rowStart (Ab_ f))
                          (VerticalBlockView.rowStart (Ab_ f) + fd
                           - VerticalBlockView.rowStart (Ab_ f))).
Proof.
  unfold eliminate. intros E.
  apply bind_Returns in E as (_ & _ & E).
  apply bind_Returns in E as (_ & _ & E).
  apply bind_Returns in E as (_ & _ & E).
  apply bind_Returns in E as (model & Hm & E).
  destruct (model_ f) as [m|] eqn:Em; simpl in Hm; [|discriminate].
  injection Hm as <-.
  exists m. split; [reflexivity|].
  destruct (frontalDim_range f nrFrontals) as [Hfd _].
  rewrite Hfd in E.
  fold (QR_model m f) in E.
  destruct (dim (QR_model m f) <? frontalDim f nrFrontals) eqn:Esing.
  - apply bind_Returns in E as (var & _ & E). discriminate.
  - apply bind_Returns in E as (_ & _ & E).
    apply bind_Returns in E as (_ & _ & E).
    injection E as <- _. reflexivity.
Qed.

(** In a debug build [eliminate] stops on a factor whose view does not span
    its full extent. *)
Lemma eliminate_partial_view (f : JacobianFactor SharedDiagonal) (nrFrontals : nat) :
  ~ spans_full_extent f -> eliminate false f nrFrontals = Aborts.
Proof.
  intros Hn. unfold eliminate. cbv zeta.
  destruct ((VerticalBlockView.rowStart (Ab_ f) =? 0)
            && (VerticalBlockView.rowEnd (Ab_ f) =? Eigen.rows (matrix_ f))
            && (VerticalBlockView.firstBlock (Ab_ f) =? 0)) eqn:Et; [|reflexivity].
  exfalso. apply Hn.
  apply andb_prop in Et as [Et E3]. apply andb_prop in Et as [E1 E2].
  apply Nat.eqb_eq in E1, E2, E3. repeat split; assumption.
Qed.

(** X6: [eliminate] cannot be called again on the factor it leaves behind.
    After the elimination of at least one variable the view of that factor no
    longer starts at the first block, and a debug build stops in the second
    call, whatever the number of frontal variables asked for. *)
Theorem eliminate_again_aborts (g : JacobianFactor SharedDiagonal) (nrFrontals : nat)
    (conditional : GaussianConditional) (f : JacobianFactor SharedDiagonal) :
  eliminate NDEBUG g nrFrontals = Returns (conditional, f) ->
  0 < nrFrontals ->
  ~ spans_full_extent f /\ forall n, eliminate false f n = Aborts.
Proof.
  intros E Hn. apply eliminate_Returns in E as (model & _ & _ & ->).
  assert (Hnot : ~ spans_full_extent
                     (mkJacobianFactor (skipn nrFrontals (keys_ g))
                        (Some (if isConstrained (QR_model model g)
                               then Constrained_MixedSigmas
                                      (sub (sigmas (QR_model model g))
                                           (frontalDim g nrFrontals) (dim (QR_model model g)))
                               else Diagonal_Sigmas
                                      (sub (sigmas (QR_model model g))
                                           (frontalDim g nrFrontals) (dim (QR_model model g)))))
                        (rowstarts
                           (VerticalBlockView.mkBlockAb (VerticalBlockView.dims (Ab_ g))
                              (VerticalBlockView.rowStart (Ab_ g) + frontalDim g nrFrontals)
                              (dim (QR_model model g))
                              (VerticalBlockView.firstBlock (Ab_ g) + nrFrontals))
                           (length (skipn nrFrontals (keys_ g))) (firstNonzeroBlocks_ g))
                        (zero_lower_left
                           (Eigen.mkMatrix (Eigen.rows (matrix_ g)) (Eigen.cols (matrix_ g))
                              (fst (QR model (matrix_ g))))
                           (dim (QR_model model g)))
                        (VerticalBlockView.mkBlockAb (VerticalBlockView.dims (Ab_ g))
                           (VerticalBlockView.rowStart (Ab_ g) + frontalDim g nrFrontals)
                           (dim (QR_model model g))
                           (VerticalBlockView.firstBlock (Ab_ g) + nrFrontals)))).
  { intros (_ & _ & Hfb). cbn [Ab_ VerticalBlockView.firstBlock] in Hfb. lia. }
  split; [exact Hnot|].
  intros n. apply eliminate_partial_view. exact Hnot.
Qed.

(** X7: the conditional [eliminate] returns is on all the keys of the factor,
    with [nrFrontals] frontal variables, [frontalDim] rows and the sigmas of
    these rows.  When the view of the factor spanned its full extent, the
    rows of the conditional and of the remaining factor are together as many
    as the rank QR reported, and, with a rank within the bounds of the
    matrix, the conditional is upper triangular. *)
Theorem eliminate_conditional (g : JacobianFactor SharedDiagonal) (nrFrontals : nat)
    (conditional : GaussianConditional) (f : JacobianFactor SharedDiagonal) :
  eliminate NDEBUG g nrFrontals = Returns (conditional, f) ->
  exists model,
    model_ g = Some model
    /\ cg_keys conditional = keys_ g
    /\ cg_nrFrontals conditional = nrFrontals
    /\ VerticalBlockView.rows (rsd_ conditional) = frontalDim g nrFrontals
    /\ cg_sigmas conditional
       = Eigen.segment (sigmas (QR_model model g)) (VerticalBlockView.rowStart (Ab_ g))
                       (frontalDim g nrFrontals)
    /\ (spans_full_extent g ->
        VerticalBlockView.rows (rsd_ conditional) + rows f = QR_rank model g
        /\ (QR_rank_in_bounds model g ->
            forall i j, j < i -> i < frontalDim g nrFrontals ->
                        Eigen.coeff (cg_matrix conditional) i j = 0%float)).
Proof.
  intros E.
  destruct (eliminate_Returns_conditional g nrFrontals conditional f E)
    as (model & Hm & Hc).
  apply eliminate_Returns in E as (model' & Hm' & Hle & Hf).
  rewrite Hm in Hm'. injection Hm' as <-.
  exists model. split; [exact Hm|].
  cbv zeta in Hc, Hf. unfold make_conditional, VerticalBlockView.assignNoalias in Hc.
  subst conditional f.
  cbn [cg_keys cg_nrFrontals rsd_ cg_sigmas cg_matrix].
  unfold rows, VerticalBlockView.rows, VerticalBlockView.fromDims.
  cbn [Ab_ VerticalBlockView.rowStart VerticalBlockView.rowEnd].
  split; [reflexivity|]. split; [reflexivity|]. split; [lia|].
  split; [f_equal; lia|].
  intros (Hrs & Hre & Hfb). fold (QR_rank model g) in *.
  split; [lia|].
  intros (Hrank & Hcols) i j Hji Hi.
  unfold VerticalBlockView.full, VerticalBlockView.range, Eigen.block. cbn [Eigen.coeff].
  apply zero_lower_left_zero; cbn [Eigen.rows Eigen.cols];
    unfold VerticalBlockView.offset, VerticalBlockView.columnOffset;
    cbn [VerticalBlockView.rowStart VerticalBlockView.firstBlock VerticalBlockView.dims];
    rewrite ?Hrs, ?Hfb; cbn [Nat.add firstn list_sum];
    fold (QR_rank model g); simpl list_sum; lia.
Qed.

(** X8: [eliminate] keeps the structure of the factor that [assertInvariants]
    asserts, also in a release build, which does not check it: the factor
    left behind has one block more than keys, one staircase entry for every
    row, and every entry names a block of its view. *)
Theorem eliminate_keeps_structure (g : JacobianFactor SharedDiagonal) (nrFrontals : nat)
    (conditional : GaussianConditional) (f : JacobianFactor SharedDiagonal) :
  nrFrontals <= size g ->
  size g + 1 = VerticalBlockView.nBlocks (Ab_ g) ->
  eliminate NDEBUG g nrFrontals = Returns (conditional, f) ->
  structure_holds f
  /\ size f + 1 = VerticalBlockView.nBlocks (Ab_ f)
  /\ size f = size g - nrFrontals.
Proof.
  intros Hn Hs E. apply eliminate_Returns in E as (model & _ & _ & ->).
  cbv zeta. unfold structure_holds, size in *. cbn [keys_ Ab_ firstNonzeroBlocks_].
  unfold VerticalBlockView.nBlocks in *. cbn [VerticalBlockView.dims VerticalBlockView.firstBlock].
  rewrite length_skipn.
  split; [|split; lia].
  split; [right; lia|].
  split; [apply rowstarts_length|].
  apply Forall_forall. intros x Hin.
  apply (In_nth _ _ 0) in Hin as (r & Hr & <-).
  rewrite rowstarts_length in Hr.
  pose proof (rowstarts_le _ (length (keys_ g) - nrFrontals) (firstNonzeroBlocks_ g) r Hr).
  lia.
Qed.

End EliminateMore.

(** ** Residuals (lines 266-272) *)

Section ResidualLength.

Context {SharedDiagonal : Type}.

(** X9: the unweighted residual has one entry for every row of the
    factor. *)
Theorem unweighted_error_length (f : JacobianFactor SharedDiagonal) (c : VectorValues) :
  length (unweighted_error f c) = rows f.
Proof.
  assert (Hb : length (Eigen.neg (getb f)) = rows f).
  { unfold Eigen.neg, getb, VerticalBlockView.column, Eigen.col, Eigen.block, rows.
    cbn [Eigen.rows]. now rewrite !length_map, length_seq. }
  unfold unweighted_error. destruct (empty f); [exact Hb|].
  apply (fold_left_keeps_Q
           (fun e pos => Eigen.plus e (Eigen.mul (getA f pos) (c (nth pos (keys_ f) 0))))
           (fun e => length e = rows f)); [|exact Hb].
  intros e pos He. rewrite plus_length, He.
  unfold Eigen.mul, getA, VerticalBlockView.block, VerticalBlockView.range, Eigen.block, rows.
  cbn [Eigen.rows]. rewrite length_map, length_seq. apply Nat.min_id.
Qed.

End ResidualLength.

(** ** collectInfo and allocate (lines 490-514) *)

Lemma at_Returns {A} (v : list A) (i : nat) (d : A) :
  i < length v -> at_ v i = Returns (nth i v d).
Proof.
  intros Hi. unfold at_.
  destruct (nth_error v i) as [x|] eqn:E.
  - simpl. f_equal. symmetry. apply (nth_error_nth _ _ _ E).
  - apply nth_error_None in E. lia.
Qed.

Section CollectInfo.

Context {SharedDiagonal : Type}.
Variable NDEBUG : bool.
Variable uninitialized : nat -> nat -> double.
Variable Index_max : Index.

Lemma collectInfo_rows_Returns (f : JacobianFactor SharedDiagonal) (index : nat)
    (var : nat -> Index) (rows_ : list nat) :
  forall rowSources,
    (forall row, In row rows_ ->
       collectInfo_row NDEBUG Index_max f index row
       = Returns (mkRowSource (var row) index row)) ->
    collectInfo_rows NDEBUG Index_max f index rows_ rowSources
    = Returns (rowSources ++ map (fun row => mkRowSource (var row) index row) rows_).
Proof.
  induction rows_ as [|row rest IH]; intros rowSources Hrow; simpl.
  - now rewrite app_nil_r.
  - rewrite (Hrow row (or_introl eq_refl)). simpl.
    rewrite IH by (intros row' Hin; apply Hrow; now right).
    now rewrite <- app_assoc.
Qed.

(** X10: [collectInfo] adds, after the entries the list already has, one
    entry per row of the factor in the order of the rows, each with the index
    of the factor, the row, and the first variable the staircase records for
    the row: the key of the recorded block or, when the recorded block is
    the right-hand side, the last key plus one in the arithmetic of [Index],
    which is 0 when the last key is the largest [Index]. *)
Theorem collectInfo_appends_one_entry_per_row (f : JacobianFactor SharedDiagonal)
    (index : nat) (rowSources : list RowSource) :
  assertInvariants NDEBUG f = Returns tt ->
  length (firstNonzeroBlocks_ f) = rows f ->
  Forall (fun block => block <= size f) (firstNonzeroBlocks_ f) ->
  keys_ f <> [] ->
  collectInfo NDEBUG Index_max f index rowSources
  = Returns
      (rowSources
       ++ map (fun row =>
                 mkRowSource
                   (nth (nth row (firstNonzeroBlocks_ f) 0)
                        (keys_ f ++ [Index_succ Index_max (last (keys_ f) 0)]) 0)
                   index row)
              (seq 0 (rows f))).
Proof.
  intros Hinv Hlen Hle Hne. unfold collectInfo. rewrite Hinv. cbn [bind].
  apply collectInfo_rows_Returns. intros row Hin. apply in_seq in Hin.
  unfold collectInfo_row.
  rewrite (at_Returns _ row 0) by lia. cbn [bind].
  assert (Hrow : row < length (firstNonzeroBlocks_ f)) by lia.
  pose proof (proj1 (Forall_forall _ _) Hle (nth row (firstNonzeroBlocks_ f) 0)
                (nth_In _ 0 Hrow)) as Hb.
  cbv beta in Hb.
  unfold size in *.
  destruct (nth row (firstNonzeroBlocks_ f) 0 <? length (keys_ f)) eqn:Elt.
  - apply Nat.ltb_lt in Elt.
    rewrite (at_Returns _ _ 0) by exact Elt. cbn [bind].
    now rewrite app_nth1 by exact Elt.
  - apply Nat.ltb_ge in Elt.
    assert (Eeq : nth row (firstNonzeroBlocks_ f) 0 = length (keys_ f)) by lia.
    rewrite Eeq, Nat.eqb_refl. unfold Index in *. rewrite (back_last _ Hne). cbn [bind].
    now rewrite nth_middle.
Qed.

(** X11: on a factor without keys that has rows, as the constructor from a
    right-hand side alone builds it, [collectInfo] has no defined result: for
    the first row it asks for the last key of an empty list of keys. *)
Theorem collectInfo_without_keys (f : JacobianFactor SharedDiagonal)
    (index : nat) (rowSources : list RowSource) :
  assertInvariants NDEBUG f = Returns tt ->
  keys_ f = [] -> 0 < rows f ->
  firstNonzeroBlocks_ f = repeat 0 (rows f) ->
  collectInfo NDEBUG Index_max f index rowSources = Undefined.
Proof.
  intros Hinv Hk Hr Hfnz. unfold collectInfo. rewrite Hinv. cbn [bind].
  destruct (rows f) as [|n] eqn:En; [lia|].
  cbn [seq collectInfo_rows]. unfold collectInfo_row, size.
  rewrite Hfnz, Hk. reflexivity.
Qed.

(** X12: [allocate] gives the factor the keys of the variable slots in their
    order, [m] rows and one block for every entry of [varDims], of that
    width, followed by a column for the right-hand side; [varDims] gets that
    last width 1 appended.  The view spans the new matrix, and with as many
    dimensions as slots, and old staircase entries that name a block of the
    new view, the factor has the structure [assertInvariants] asks for. *)
Theorem allocate_structure (f : JacobianFactor SharedDiagonal)
    (variableSlots : list (Index * list nat)) (varDims : list nat) (m : nat) :
  let f' := fst (allocate uninitialized f variableSlots varDims m) in
  snd (allocate uninitialized f variableSlots varDims m) = varDims ++ [1]
  /\ keys_ f' = map fst variableSlots
  /\ model_ f' = model_ f
  /\ rows f' = m /\ cols f' = list_sum varDims + 1
  /\ spans_full_extent f' /\ blocks_cover f'
  /\ (forall k w, nth_error varDims k = Some w -> Eigen.cols (getA f' k) = w)
  /\ Eigen.cols (getA f' (length varDims)) = 1
  /\ (length varDims = length variableSlots ->
      Forall (fun block => block <= length varDims) (firstNonzeroBlocks_ f) ->
      structure_holds f').
Proof.
  unfold allocate, allocate_blocks, VerticalBlockView.copyStructureFrom.
  cbn [fst snd].
  rewrite fromDims_cols, list_sum_app.
  unfold rows, cols, spans_full_extent, blocks_cover, structure_holds, size.
  cbn [keys_ model_ Ab_ matrix_ firstNonzeroBlocks_ Eigen.rows Eigen.cols
       VerticalBlockView.fromDims VerticalBlockView.firstBlock VerticalBlockView.dims skipn].
  change (VerticalBlockView.mkBlockAb (varDims ++ [1]) 0
            (VerticalBlockView.rows (VerticalBlockView.mkBlockAb (varDims ++ [1]) 0 m 0)) 0)
    with (VerticalBlockView.fromDims (varDims ++ [1])
            (VerticalBlockView.rows (VerticalBlockView.fromDims (varDims ++ [1]) m))).
  assert (Hm : VerticalBlockView.rows (VerticalBlockView.fromDims (varDims ++ [1]) m) = m).
  { unfold VerticalBlockView.rows, VerticalBlockView.fromDims.
    cbn [VerticalBlockView.rowEnd VerticalBlockView.rowStart]. lia. }
  rewrite !Hm, fromDims_cols, list_sum_app.
  split; [reflexivity|]. split; [reflexivity|]. split; [reflexivity|].
  split; [reflexivity|]. split; [reflexivity|].
  split; [repeat split|]. split; [reflexivity|].
  unfold getA, VerticalBlockView.block, VerticalBlockView.range, Eigen.block.
  cbn [matrix_ Ab_ Eigen.cols].
  split.
  { intros k w Hk.
    rewrite (fromDims_offset_next (varDims ++ [1]) m k w); [lia|].
    rewrite nth_error_app1; [exact Hk|].
    apply nth_error_Some. rewrite Hk. discriminate. }
  split.
  { rewrite (fromDims_offset_next (varDims ++ [1]) m (length varDims) 1); [lia|].
    rewrite nth_error_app2, Nat.sub_diag by lia. reflexivity. }
  intros Hlen Hold.
  unfold VerticalBlockView.nBlocks.
  cbn [VerticalBlockView.fromDims VerticalBlockView.firstBlock VerticalBlockView.dims].
  rewrite length_app, length_map, vector_resize_length. cbn [length].
  split; [right; lia|]. split; [reflexivity|].
  unfold vector_resize. apply Forall_app. split.
  - rewrite <- (firstn_skipn m (firstNonzeroBlocks_ f)) in Hold.
    apply Forall_app in Hold as [Hold _].
    apply Forall_forall. intros x Hx.
    pose proof (proj1 (Forall_forall _ _) Hold x Hx) as Hle. cbv beta in Hle. lia.
  - apply Forall_forall. intros x Hx. apply repeat_spec in Hx. lia.
Qed.

End CollectInfo.

(** ** copyRow (lines 517-530) *)

Lemma set_block_row_frame (M : Matrix) (Ab : BlockAb) (slot row : nat)
    (v : nat -> double) (i j : nat) :
  i <> VerticalBlockView.rowStart Ab + row
  \/ j < VerticalBlockView.offset Ab slot
  \/ VerticalBlockView.offset Ab (slot + 1) <= j ->
  Eigen.coeff (set_block_row M Ab slot row v) i j = Eigen.coeff M i j.
Proof.
  intros Hout. unfold set_block_row. cbn [Eigen.coeff].
  destruct (i =? VerticalBlockView.rowStart Ab + row) eqn:E1; [|reflexivity].
  destruct (VerticalBlockView.offset Ab slot <=? j) eqn:E2;
    [|now rewrite !andb_false_r].
  destruct (j <? VerticalBlockView.offset Ab (slot + 1)) eqn:E3;
    [|now rewrite !andb_false_r].
  apply Nat.eqb_eq in E1. apply Nat.leb_le in E2. apply Nat.ltb_lt in E3. lia.
Qed.

Lemma set_block_row_entry (M : Matrix) (Ab : BlockAb) (slot row : nat)
    (v : nat -> double) (j : nat) :
  row < VerticalBlockView.rows Ab ->
  VerticalBlockView.rowStart Ab + row < Eigen.rows M ->
  VerticalBlockView.offset Ab (slot + 1) <= Eigen.cols M ->
  VerticalBlockView.offset Ab slot + j < VerticalBlockView.offset Ab (slot + 1) ->
  Eigen.coeff (set_block_row M Ab slot row v)
              (VerticalBlockView.rowStart Ab + row) (VerticalBlockView.offset Ab slot + j)
  = v j.
Proof.
  intros Hr HrM HcM Hj. unfold set_block_row. cbn [Eigen.coeff].
  rewrite Nat.eqb_refl.
  rewrite !(proj2 (Nat.ltb_lt _ _)) by lia.
  rewrite (proj2 (Nat.leb_le _ _)) by lia.
  cbn [andb]. f_equal. lia.
Qed.

Lemma find_seq_le (p : nat -> bool) (n a s : nat) :
  a <= s < a + n -> p s = true -> exists k, find p (seq a n) = Some k /\ k <= s.
Proof.
  revert a. induction n as [|n IH]; intros a Hs Hp; [lia|].
  simpl. destruct (p a) eqn:Ea.
  - exists a. split; [reflexivity|lia].
  - destruct (Nat.eq_dec a s) as [->|N]; [congruence|].
    apply IH; [lia|exact Hp].
Qed.

Section CopyRow.

Context {SharedDiagonal : Type}.

(** Under the staircase invariant every entry of a row in a block before the
    one recorded for the row compares equal to zero. *)
Lemma staircase_zero_before (f : JacobianFactor SharedDiagonal) (r k j : nat) :
  staircase f -> r < rows f ->
  k < nth r (firstNonzeroBlocks_ f) 0 -> k < VerticalBlockView.nBlocks (Ab_ f) ->
  j < Eigen.cols (getA f k) ->
  PrimFloat.eqb (Eigen.coeff (getA f k) r j) 0%float = true.
Proof.
  intros Hs Hr Hk HkB Hj.
  destruct (PrimFloat.eqb (Eigen.coeff (getA f k) r j) 0%float) eqn:Ez; [reflexivity|].
  exfalso.
  assert (Hnz : block_has_nonzero f r k = true).
  { unfold block_has_nonzero. apply existsb_exists. exists j. split.
    - apply in_seq. lia.
    - now rewrite Ez. }
  destruct (find_seq_le (block_has_nonzero f r) (VerticalBlockView.nBlocks (Ab_ f)) 0 k
              ltac:(lia) Hnz) as (k' & Hfind & Hle).
  specialize (Hs r k' Hr Hfind). lia.
Qed.

(** X13: [copyRow] changes the matrix of the factor and nothing else, and in
    the matrix only row [row] of block [slot].  That row is set to zero when
    the source does not involve the variable or its staircase records a later
    block for the source row, and to the row of the source block otherwise.
    When the source satisfies the staircase invariant, every entry written is
    the entry of the source, or is 0 where the entry of the source compares
    equal to 0. *)
Theorem copyRow_writes_one_row (this source : JacobianFactor SharedDiagonal)
    (sourceRow : nat) (sourceSlot : option nat) (row slot : nat)
    (this' : JacobianFactor SharedDiagonal) :
  copyRow this source sourceRow sourceSlot row slot = Returns this' ->
  (keys_ this' = keys_ this /\ model_ this' = model_ this
   /\ firstNonzeroBlocks_ this' = firstNonzeroBlocks_ this /\ Ab_ this' = Ab_ this
   /\ Eigen.rows (matrix_ this') = Eigen.rows (matrix_ this)
   /\ Eigen.cols (matrix_ this') = Eigen.cols (matrix_ this))
  /\ (forall i j,
        i <> VerticalBlockView.rowStart (Ab_ this) + row
        \/ j < VerticalBlockView.offset (Ab_ this) slot
        \/ VerticalBlockView.offset (Ab_ this) (slot + 1) <= j ->
        Eigen.coeff (matrix_ this') i j = Eigen.coeff (matrix_ this) i j)
  /\ (row < rows this ->
      VerticalBlockView.rowStart (Ab_ this) + row < Eigen.rows (matrix_ this) ->
      VerticalBlockView.offset (Ab_ this) (slot + 1) <= Eigen.cols (matrix_ this) ->
      forall j, j < Eigen.cols (getA this slot) ->
        match sourceSlot with
        | None => Eigen.coeff (getA this' slot) row j = 0%float
        | Some s =>
            ((nth sourceRow (firstNonzeroBlocks_ source) 0 <=? s) = true ->
             Eigen.cols (getA source s) = Eigen.cols (getA this slot))
            /\ Eigen.coeff (getA this' slot) row j
               = (if nth sourceRow (firstNonzeroBlocks_ source) 0 <=? s
                  then Eigen.coeff (getA source s) sourceRow j else 0%float)
            /\ (staircase source -> sourceRow < rows source ->
                s < VerticalBlockView.nBlocks (Ab_ source) ->
                j < Eigen.cols (getA source s) ->
                Eigen.coeff (getA this' slot) row j = Eigen.coeff (getA source s) sourceRow j
                \/ (Eigen.coeff (getA this' slot) row j = 0%float
                    /\ PrimFloat.eqb (Eigen.coeff (getA source s) sourceRow j) 0%float = true))
        end).
Proof.
  intros E.
  assert (Hv : exists v,
             this' = with_matrix this (set_block_row (matrix_ this) (Ab_ this) slot row v)
             /\ match sourceSlot with
                | None => v = fun _ => 0%float
                | Some s =>
                    ((nth sourceRow (firstNonzeroBlocks_ source) 0 <=? s) = true ->
                     Eigen.cols (getA source s) = Eigen.cols (getA this slot))
                    /\ v = fun j =>
                             if nth sourceRow (firstNonzeroBlocks_ source) 0 <=? s
                             then Eigen.coeff (getA source s) sourceRow j else 0%float
                end).
  { unfold copyRow in E. destruct sourceSlot as [s|].
    - apply bind_Returns in E as (block & Hblock & E).
      unfold at_ in Hblock.
      destruct (nth_error (firstNonzeroBlocks_ source) sourceRow) as [b0|] eqn:En;
        [|discriminate].
      injection Hblock as ->.
      rewrite (nth_error_nth _ _ 0 En).
      destruct (block <=? s) eqn:Eb.
      + destruct (Eigen.cols (getA source s) =? Eigen.cols (getA this slot)) eqn:Ec;
          [|discriminate].
        injection E as <-. eexists. split; [reflexivity|].
        split; [intros _; now apply Nat.eqb_eq|reflexivity].
      + injection E as <-. eexists. split; [reflexivity|].
        split; [discriminate|reflexivity].
    - injection E as <-. eexists. split; reflexivity. }
  destruct Hv as (v & -> & Hv).
  split; [repeat split|].
  split; [intros i j Hout; apply set_block_row_frame; exact Hout|].
  intros Hrow HrM HcM j Hj.
  assert (Hentry : Eigen.coeff
                     (getA (with_matrix this
                              (set_block_row (matrix_ this) (Ab_ this) slot row v)) slot)
                     row j = v j).
  { unfold getA, VerticalBlockView.block, VerticalBlockView.range, Eigen.block in *.
    cbn [Eigen.coeff Eigen.cols with_matrix matrix_ Ab_] in *.
    apply set_block_row_entry; try assumption. lia. }
  rewrite Hentry.
  destruct sourceSlot as [s|]; [|now rewrite Hv].
  destruct Hv as [Hc ->].
  split; [exact Hc|]. split; [reflexivity|].
  intros Hs Hsr Hsb Hjs.
  destruct (nth sourceRow (firstNonzeroBlocks_ source) 0 <=? s) eqn:Eb; [left; reflexivity|].
  right. split; [reflexivity|].
  apply Nat.leb_gt in Eb.
  apply staircase_zero_before; assumption.
Qed.

End CopyRow.

(** ** copyFNZ (lines 533-541) *)

Section CopyFNZ.

Variable keys : list Index.
Variable n : nat.
Variable rowSources : list RowSource.

(** The [while] loop returns: it moves [i] forward over keys below the first
    variable of the row and stops at [n] or at the first key that is not
    below it. *)
Lemma copyFNZ_while_Returns (fuel row i : nat) :
  n <= length keys -> row < length rowSources -> i <= n -> n - i <= fuel ->
  exists i',
    copyFNZ_while fuel keys n rowSources row i = Returns i'
    /\ i <= i' <= n
    /\ (forall j, i <= j < i' ->
          nth j keys 0 < firstNonzeroVar (nth row rowSources (mkRowSource 0 0 0)))
    /\ (i' = n
        \/ firstNonzeroVar (nth row rowSources (mkRowSource 0 0 0)) <= nth i' keys 0).
Proof.
  intros Hn Hrow. revert i. induction fuel as [|fuel IH]; intros i Hi Hfuel; simpl.
  - exists i. split; [reflexivity|]. split; [lia|]. split; [intros j Hj; lia|left; lia].
  - destruct (i <? n) eqn:Elt.
    + apply Nat.ltb_lt in Elt.
      rewrite (at_Returns rowSources row (mkRowSource 0 0 0)) by exact Hrow.
      rewrite (at_Returns keys i 0) by lia. cbn [bind].
      destruct (nth i keys 0 <? firstNonzeroVar (nth row rowSources (mkRowSource 0 0 0)))
        eqn:Ek.
      * apply Nat.ltb_lt in Ek.
        destruct (IH (i + 1) ltac:(lia) ltac:(lia)) as (i' & E & Hb & Hbelow & Hstop).
        exists i'. split; [exact E|]. split; [lia|]. split; [|exact Hstop].
        intros j Hj. destruct (Nat.eq_dec j i) as [->|N]; [exact Ek|].
        apply Hbelow. lia.
      * apply Nat.ltb_ge in Ek.
        exists i. split; [reflexivity|]. split; [lia|].
        split; [intros j Hj; lia|right; exact Ek].
    + apply Nat.ltb_ge in Elt.
      exists i. split; [reflexivity|]. split; [lia|]. split; [intros j Hj; lia|left; lia].
Qed.

Lemma copyFNZ_rows_Returns (k : nat) :
  forall (a i : nat) (fnz : list nat),
    n <= length keys -> a + k <= length rowSources -> a + k <= length fnz -> i <= n ->
    exists fnz',
      copyFNZ_rows keys n rowSources (seq a k) i fnz = Returns fnz'
      /\ length fnz' = length fnz
      /\ (forall r, r < a \/ a + k <= r -> nth r fnz' 0 = nth r fnz 0)
      /\ (forall r, a <= r < a + k ->
            i <= nth r fnz' 0 <= n
            /\ (nth r fnz' 0 = n
                \/ firstNonzeroVar (nth r rowSources (mkRowSource 0 0 0))
                   <= nth (nth r fnz' 0) keys 0)
            /\ (forall r', a <= r' <= r -> nth r' fnz' 0 <= nth r fnz' 0)
            /\ (forall j, i <= j < nth r fnz' 0 ->
                  exists r', a <= r' <= r
                    /\ nth j keys 0
                       < firstNonzeroVar (nth r' rowSources (mkRowSource 0 0 0)))).
Proof.
  induction k as [|k IH]; intros a i fnz Hn Hrs Hfnz Hi.
  - exists fnz. split; [reflexivity|]. split; [reflexivity|].
    split; [reflexivity|]. intros r Hr. lia.
  - cbn [seq copyFNZ_rows].
    destruct (copyFNZ_while_Returns n a i Hn ltac:(lia) Hi ltac:(lia))
      as (i1 & E1 & Hb1 & Hbelow1 & Hstop1).
    rewrite E1. cbn [bind]. unfold store_.
    rewrite (proj2 (Nat.ltb_lt a (length fnz))) by lia. cbn [bind].
    destruct (IH (S a) i1 (vector_set fnz a i1) Hn ltac:(lia)
                 ltac:(rewrite vector_set_length; lia) ltac:(lia))
      as (fnz' & E & Hlen & Hsame & Hrows).
    exists fnz'. split; [exact E|].
    split; [now rewrite Hlen, vector_set_length|].
    assert (Ha : nth a fnz' 0 = i1).
    { rewrite Hsame by lia. apply nth_vector_set_same. lia. }
    split.
    + intros r Hr. rewrite Hsame by lia. apply nth_vector_set_other. lia.
    + intros r Hr. destruct (Nat.eq_dec r a) as [->|N].
      * rewrite Ha. split; [lia|]. split; [exact Hstop1|].
        split.
        -- intros r' Hr'. replace r' with a by lia. rewrite Ha. lia.
        -- intros j Hj. exists a. split; [lia|]. apply Hbelow1. exact Hj.
      * destruct (Hrows r ltac:(lia)) as (Hb & Hstop & Hmono & Hbelow).
        split; [lia|]. split; [exact Hstop|].
        split.
        -- intros r' Hr'. destruct (Nat.eq_dec r' a) as [->|N'].
           ++ rewrite Ha. lia.
           ++ apply Hmono. lia.
        -- intros j Hj. destruct (Nat.lt_ge_cases j i1) as [L|G].
           ++ exists a. split; [lia|]. apply Hbelow1. lia.
           ++ destruct (Hbelow j ltac:(lia)) as (r' & Hr' & Hlt).
              exists r'. split; [lia|exact Hlt].
Qed.

End CopyFNZ.

Section CopyFNZ_factor.

Context {SharedDiagonal : Type}.

(** X14: [copyFNZ] returns when the factor has at least [n] keys, and the
    row sources and the staircase at least [m] entries.  It changes the first
    [m] entries of the staircase and nothing else.  The entry of a row is at
    most [n], is [n] or the position of a key that is not below the first
    variable of the row, and is not below the entries of the rows before it.
    When the first variables of the rows are in ascending order, every key
    before the recorded position is below the first variable of the row. *)
Theorem copyFNZ_records_first_blocks (f : JacobianFactor SharedDiagonal) (m n : nat)
    (rowSources : list RowSource) :
  n <= size f -> m <= length rowSources -> m <= length (firstNonzeroBlocks_ f) ->
  exists f',
    copyFNZ f m n rowSources = Returns f'
    /\ keys_ f' = keys_ f /\ model_ f' = model_ f
    /\ matrix_ f' = matrix_ f /\ Ab_ f' = Ab_ f
    /\ length (firstNonzeroBlocks_ f') = length (firstNonzeroBlocks_ f)
    /\ (forall r, m <= r ->
          nth r (firstNonzeroBlocks_ f') 0 = nth r (firstNonzeroBlocks_ f) 0)
    /\ (forall r, r < m ->
          nth r (firstNonzeroBlocks_ f') 0 <= n
          /\ (nth r (firstNonzeroBlocks_ f') 0 = n
              \/ firstNonzeroVar (nth r rowSources (mkRowSource 0 0 0))
                 <= nth (nth r (firstNonzeroBlocks_ f') 0) (keys_ f) 0)
          /\ forall r', r' <= r ->
               nth r' (firstNonzeroBlocks_ f') 0 <= nth r (firstNonzeroBlocks_ f') 0)
    /\ ((forall r r', r <= r' -> r' < m ->
           firstNonzeroVar (nth r rowSources (mkRowSource 0 0 0))
           <= firstNonzeroVar (nth r' rowSources (mkRowSource 0 0 0))) ->
        forall r j, r < m -> j < nth r (firstNonzeroBlocks_ f') 0 ->
          nth j (keys_ f) 0 < firstNonzeroVar (nth r rowSources (mkRowSource 0 0 0))).
Proof.
  intros Hn Hm Hfnz. unfold copyFNZ, size in *.
  destruct (copyFNZ_rows_Returns (keys_ f) n rowSources m 0 0 (firstNonzeroBlocks_ f)
              Hn ltac:(lia) ltac:(lia) ltac:(lia))
    as (fnz' & E & Hlen & Hsame & Hrows).
  rewrite E. cbn [bind].
  eexists. split; [reflexivity|].
  unfold with_firstNonzeroBlocks. cbn [keys_ model_ matrix_ Ab_ firstNonzeroBlocks_].
  split; [reflexivity|]. split; [reflexivity|]. split; [reflexivity|].
  split; [reflexivity|]. split; [exact Hlen|].
  split; [intros r Hr; apply Hsame; lia|].
  split.
  - intros r Hr. destruct (Hrows r ltac:(lia)) as (Hb & Hstop & Hmono & _).
    split; [lia|]. split; [exact Hstop|].
    intros r' Hr'. apply Hmono. lia.
  - intros Hsorted r j Hr Hj.
    destruct (Hrows r ltac:(lia)) as (_ & _ & _ & Hbelow).
    destruct (Hbelow j ltac:(lia)) as (r' & Hr' & Hlt).
    pose proof (Hsorted r' r ltac:(lia) Hr). lia.
Qed.

End CopyFNZ_factor.

(** ** transposeMultiplyAdd, matrix and matrix_augmented (lines 308-329) *)

Section TransposeMultiplyAdd.

Variable G : nat -> Vector -> Vector.

(** The loop over the positions, as a loop over the keys with their
    positions: a variable that is no key keeps its vector, and with distinct
    keys every key gets the update of its own position, once. *)
Lemma update_keys_fold (keys : list Index) :
  forall (a : nat) (x : VectorValues),
    let x' := fold_left (fun x pk => VectorValues_set x (snd pk) (G (fst pk) (x (snd pk))))
                        (combine (seq a (length keys)) keys) x in
    (forall k, ~ In k keys -> x' k = x k)
    /\ (NoDup keys -> forall i key, nth_error keys i = Some key ->
          x' key = G (a + i) (x key)).
Proof.
  induction keys as [|k0 keys IH]; intros a x; cbn zeta.
  - split; [reflexivity|]. intros _ [|i] key E; discriminate.
  - cbn [length seq combine fold_left fst snd].
    destruct (IH (S a) (VectorValues_set x k0 (G a (x k0)))) as [Hframe Hown].
    cbn zeta in Hframe, Hown.
    split.
    + intros k Hk. rewrite Hframe by (intros Hin; apply Hk; now right).
      unfold VectorValues_set.
      destruct (k =? k0) eqn:Ek; [|reflexivity].
      apply Nat.eqb_eq in Ek. exfalso. apply Hk. now left.
    + intros Hnd [|i] key E; inversion Hnd as [|? ? Hnotin Hnd']; subst.
      * injection E as <-. rewrite Hframe by exact Hnotin.
        unfold VectorValues_set. now rewrite Nat.eqb_refl, Nat.add_0_r.
      * cbn [nth_error] in E. rewrite (Hown Hnd' i key E).
        unfold VectorValues_set.
        destruct (key =? k0) eqn:Ek.
        -- apply Nat.eqb_eq in Ek. subst key. exfalso. apply Hnotin.
           apply (nth_error_In _ _ E).
        -- f_equal. lia.
Qed.

End TransposeMultiplyAdd.

Section MatrixMembers.

Context {SharedDiagonal : Type} `{NoiseModel SharedDiagonal}.
Variable WhitenInPlace : SharedDiagonal -> Matrix -> nat -> nat -> double.
Variable WhitenSystem : SharedDiagonal -> Matrix -> Vector -> Matrix * Vector.
Variable gtsam_transposeMultiplyAdd : double -> Matrix -> Vector -> Vector -> Vector.

(** X15: [transposeMultiplyAdd] needs the noise model.  With one, it returns
    and leaves the vector of every variable that is no key of the factor as
    it was; when the keys are distinct, the vector of every key is updated
    once, with the block of the key and the whitened and scaled [e]. *)
Theorem transposeMultiplyAdd_updates_own_keys (f : JacobianFactor SharedDiagonal)
    (alpha : double) (e : Vector) (x : VectorValues) :
  (model_ f = None ->
   transposeMultiplyAdd gtsam_transposeMultiplyAdd f alpha e x = Undefined)
  /\ (forall model, model_ f = Some model ->
      exists x',
        transposeMultiplyAdd gtsam_transposeMultiplyAdd f alpha e x = Returns x'
        /\ (forall k, ~ In k (keys_ f) -> x' k = x k)
        /\ (NoDup (keys_ f) -> forall pos key, nth_error (keys_ f) pos = Some key ->
              x' key = gtsam_transposeMultiplyAdd 1%float (getA f pos)
                         (scaled alpha (whiten model e)) (x key))).
Proof.
  unfold transposeMultiplyAdd. split.
  - intros ->. reflexivity.
  - intros model ->. cbn [deref bind]. eexists. split; [reflexivity|].
    unfold size.
    rewrite (fold_left_agree_in _
               (fun x pos =>
                  (fun x pos key =>
                     VectorValues_set x key
                       (gtsam_transposeMultiplyAdd 1%float (getA f pos)
                          (scaled alpha (whiten model e)) (x key)))
                    x pos (nth (pos - 0) (keys_ f) 0)))
      by (intros; now rewrite Nat.sub_0_r).
    rewrite (fold_left_positions
               (fun x pos key =>
                  VectorValues_set x key
                    (gtsam_transposeMultiplyAdd 1%float (getA f pos)
                       (scaled alpha (whiten model e)) (x key)))
               (keys_ f) 0 x).
    exact (update_keys_fold
             (fun pos v => gtsam_transposeMultiplyAdd 1%float (getA f pos)
                             (scaled alpha (whiten model e)) v)
             (keys_ f) 0 x).
Qed.

(** X16: without weighting, [matrix] and [matrix_augmented] need no noise
    model and agree: for a factor with one block more than keys, the last of
    width 1, every row of the augmented matrix is the row of [A] followed by
    the entry of [b].  With weighting both need the noise model. *)
Theorem matrix_augmented_is_A_b (f : JacobianFactor SharedDiagonal) :
  size f + 1 = VerticalBlockView.nBlocks (Ab_ f) ->
  VerticalBlockView.offset (Ab_ f) (size f + 1) = VerticalBlockView.offset (Ab_ f) (size f) + 1 ->
  (exists A b Ab,
      matrix WhitenSystem f false = Returns (A, b)
      /\ matrix_augmented WhitenInPlace f false = Returns Ab
      /\ b = getb f
      /\ Eigen.rows A = rows f /\ Eigen.rows Ab = rows f /\ length b = rows f
      /\ Eigen.cols Ab = Eigen.cols A + 1
      /\ forall i, i < rows f -> Eigen.row Ab i = Eigen.row A i ++ [nth i b 0%float])
  /\ (model_ f = None ->
      matrix WhitenSystem f true = Undefined
      /\ matrix_augmented WhitenInPlace f true = Undefined).
Proof.
  intros Hs Hlast. split.
  - unfold matrix, matrix_augmented. do 3 eexists.
    split; [reflexivity|]. split; [reflexivity|]. split; [reflexivity|].
    rewrite <- Hs.
    pose proof (offset_mono (Ab_ f) 0 (size f) ltac:(lia)) as Hmono.
    unfold VerticalBlockView.range, Eigen.block, Eigen.row, rows.
    cbn [Eigen.rows Eigen.cols Eigen.coeff].
    split; [reflexivity|]. split; [reflexivity|].
    split.
    { unfold getb, VerticalBlockView.column, Eigen.col, Eigen.block. cbn [Eigen.rows].
      now rewrite length_map, length_seq. }
    split; [lia|].
    intros i Hi.
    replace (VerticalBlockView.offset (Ab_ f) (size f + 1) - VerticalBlockView.offset (Ab_ f) 0)
      with (S (VerticalBlockView.offset (Ab_ f) (size f) - VerticalBlockView.offset (Ab_ f) 0))
      by lia.
    rewrite seq_S, map_app. f_equal. cbn [map Nat.add]. f_equal.
    unfold getb, VerticalBlockView.column, Eigen.col, Eigen.block. cbn [Eigen.rows Eigen.coeff].
    rewrite (nth_map_seq _ 0 _ i) by exact Hi.
    f_equal; lia.
  - intros Hm. unfold matrix, matrix_augmented. rewrite Hm. split; reflexivity.
Qed.

End MatrixMembers.

(** ** When sparse and the conversion of a Hessian factor are defined *)

Section Definedness.

Context {SharedDiagonal : Type} `{NoiseModel SharedDiagonal}.
Variable NDEBUG : bool.
Variable choleskyCareful : Matrix -> outcome ((nat -> nat -> double) * (nat * bool)).

Lemma sparse_vars_outcome (f : JacobianFactor SharedDiagonal) (model : SharedDiagonal)
    (columnIndices : list nat) (vars : list Index) :
  forall pos entries,
    (exists key, In key vars /\ length columnIndices <= key)
    -> sparse_vars f model columnIndices pos vars entries = Undefined.
Proof.
  induction vars as [|var vars IH]; intros pos entries (key & Hin & Hkey).
  - destruct Hin.
  - cbn [sparse_vars]. unfold at_.
    destruct (nth_error columnIndices var) as [column_start|] eqn:En; [|reflexivity].
    cbn [deref bind]. apply IH.
    destruct Hin as [->|Hin].
    + apply nth_error_None in Hkey. congruence.
    + exists key. split; assumption.
Qed.

(** X17: [sparse] reads the column table without checking it.  It returns
    exactly when the factor has a noise model, the table has an entry for
    every key of the factor, and the table is not empty, its last entry being
    the column of the right-hand side; in every other case the call has no
    defined result.  It never throws. *)
Theorem sparse_defined_iff (f : JacobianFactor SharedDiagonal) (columnIndices : list nat) :
  ((exists entries, sparse f columnIndices = Returns entries)
   <-> model_ f <> None
       /\ (forall key, In key (keys_ f) -> key < length columnIndices)
       /\ columnIndices <> [])
  /\ ((exists entries, sparse f columnIndices = Returns entries)
      \/ sparse f columnIndices = Undefined).
Proof.
  unfold sparse.
  destruct (model_ f) as [model|]; cbn [deref bind].
  2:{ split; [|right; reflexivity].
      split; [intros (l & E); discriminate|intros (Hm & _); congruence]. }
  destruct (Forall_Exists_dec (fun key => key < length columnIndices)
              (fun key => lt_dec key (length columnIndices)) (keys_ f)) as [Hcov|Hnot].
  - rewrite (sparse_vars_Returns f model columnIndices (keys_ f)
               (proj1 (Forall_forall _ _) Hcov)).
    cbn [bind].
    destruct columnIndices as [|c0 cs].
    + cbn. split; [|right; reflexivity].
      split; [intros (l & E); discriminate|intros (_ & _ & Hne); congruence].
    + rewrite (back_last (c0 :: cs)) by discriminate. cbn [bind].
      split; [|left; eexists; reflexivity].
      split; [|intros _; eexists; reflexivity].
      intros _. split; [discriminate|]. split; [|discriminate].
      apply Forall_forall. exact Hcov.
  - assert (Hbad : exists key, In key (keys_ f) /\ length columnIndices <= key).
    { apply Exists_exists in Hnot as (key & Hin & Hkey). exists key. split; [exact Hin|lia]. }
    rewrite (sparse_vars_outcome f model columnIndices (keys_ f) 0 [] Hbad).
    cbn [bind]. split; [|right; reflexivity].
    split; [intros (l & E); discriminate|].
    intros (_ & Hcov & _). destruct Hbad as (key & Hin & Hkey).
    specialize (Hcov key Hin). lia.
Qed.

(** X18: a Hessian factor without keys cannot be converted.  When
    [choleskyCareful] throws, the constructor throws; when it returns, the
    constructor asks for the largest element of an empty set of variables,
    and the conversion has no defined result, in every build. *)
Theorem Hessian_without_keys (factor : HessianFactor) :
  hf_keys factor = [] ->
  let information := VerticalBlockView.full (hf_matrix factor) (info_ factor) in
  (forall e, choleskyCareful information = Throws e ->
     @JacobianFactor_Hessian SharedDiagonal _ NDEBUG choleskyCareful factor = Throws e)
  /\ (forall r, choleskyCareful information = Returns r ->
        @JacobianFactor_Hessian SharedDiagonal _ NDEBUG choleskyCareful factor = Undefined).
Proof.
  intros Hk information. unfold JacobianFactor_Hessian.
  change (VerticalBlockView.assignNoalias (hf_matrix factor) (info_ factor))
    with (information,
          VerticalBlockView.fromDims
            (skipn (VerticalBlockView.firstBlock (info_ factor))
                   (VerticalBlockView.dims (info_ factor)))
            (VerticalBlockView.rows (info_ factor))).
  cbv iota beta. rewrite Hk.
  split.
  - intros e E. rewrite E. reflexivity.
  - intros r E. rewrite E. reflexivity.
Qed.

End Definedness.

(** ** CameraSet: ErrorVector, project2 and reprojectionError *)

Lemma firstn_vector_set {A} (z : list A) (i : nat) (x : A) :
  i < length z -> firstn (i + 1) (vector_set z i x) = firstn i z ++ [x].
Proof.
  revert i. induction z as [|y z IH]; intros [|i] Hi; simpl in *; try lia.
  - reflexivity.
  - f_equal. apply IH. lia.
Qed.

Lemma skipn_vector_set {A} (z : list A) (i j : nat) (x : A) :
  i < j -> skipn j (vector_set z i x) = skipn j z.
Proof.
  revert i j. induction z as [|y z IH]; intros [|i] [|j] Hij; simpl; try lia; try reflexivity.
  apply IH. lia.
Qed.

Section Blocks.

Variable ZDim N : nat.

(** Writing blocks of [ZDim] rows keeps the shape, leaves the rows outside
    the blocks alone and leaves every block with what was written to it. *)
Lemma row_blocks_shape {C} (Ef : C -> Matrix) (l : list (nat * C)) (E : Matrix) :
  Eigen.rows (fold_left (fun E ic => Eigen.assign_block E (ZDim * fst ic) 0
                                       (CameraSet.fixed ZDim N (Ef (snd ic)))) l E)
  = Eigen.rows E
  /\ Eigen.cols (fold_left (fun E ic => Eigen.assign_block E (ZDim * fst ic) 0
                                          (CameraSet.fixed ZDim N (Ef (snd ic)))) l E)
     = Eigen.cols E.
Proof.
  revert E. induction l as [|x l IH]; intros E; simpl; [split; reflexivity|].
  destruct (IH (Eigen.assign_block E (ZDim * fst x) 0 (CameraSet.fixed ZDim N (Ef (snd x)))))
    as [Hr Hc].
  rewrite Hr, Hc. split; reflexivity.
Qed.

Lemma row_blocks_frame {C} (Ef : C -> Matrix) (l : list (nat * C)) (E : Matrix)
    (r col : nat) :
  (forall i c, In (i, c) l -> ~ (ZDim * i <= r < ZDim * i + ZDim)) ->
  Eigen.coeff (fold_left (fun E ic => Eigen.assign_block E (ZDim * fst ic) 0
                                        (CameraSet.fixed ZDim N (Ef (snd ic)))) l E) r col
  = Eigen.coeff E r col.
Proof.
  revert E. induction l as [|[i c] l IH]; intros E Hout; simpl; [reflexivity|].
  rewrite IH by (intros i' c' Hin; apply (Hout i' c'); now right).
  specialize (Hout i c (or_introl eq_refl)).
  unfold Eigen.assign_block, CameraSet.fixed. cbn [Eigen.coeff Eigen.rows Eigen.cols].
  destruct (ZDim * i <=? r) eqn:E1; [|reflexivity].
  destruct (r <? ZDim * i + ZDim) eqn:E2; [|reflexivity].
  apply Nat.leb_le in E1. apply Nat.ltb_lt in E2. lia.
Qed.

Lemma row_blocks_content {C} (Ef : C -> Matrix) (cams : list C) :
  forall (a : nat) (E : Matrix) (i : nat) (c : C) (r col : nat),
    nth_error cams i = Some c -> r < ZDim -> col < N ->
    ZDim * (a + i) + r < Eigen.rows E -> col < Eigen.cols E ->
    Eigen.coeff (fold_left (fun E ic => Eigen.assign_block E (ZDim * fst ic) 0
                                          (CameraSet.fixed ZDim N (Ef (snd ic))))
                           (combine (seq a (length cams)) cams) E)
                (ZDim * (a + i) + r) col
    = Eigen.coeff (Ef c) r col.
Proof.
  induction cams as [|c0 cams IH]; intros a E i c r col Hi Hr Hcol HrE HcE.
  - destruct i; discriminate.
  - destruct i as [|i]; simpl in Hi |- *.
    + injection Hi as ->. rewrite Nat.add_0_r in *.
      rewrite row_blocks_frame.
      * unfold Eigen.assign_block, CameraSet.fixed. cbn [Eigen.coeff Eigen.rows Eigen.cols].
        rewrite !(proj2 (Nat.ltb_lt _ _)) by lia.
        rewrite !(proj2 (Nat.leb_le _ _)) by lia.
        cbn [andb]. f_equal; lia.
      * intros j c' Hin. apply In_nth_error in Hin as (n & Hn).
        apply nth_error_combine_seq in Hn as [-> _]. nia.
    + replace (a + S i) with (S a + i) in * by lia.
      apply IH; assumption.
Qed.

End Blocks.

Section ProjectionProperties.

Variables CAMERA POINT Z : Type.
Variables D ZDim N : nat.
Variable Z_minus : Z -> Z -> Z.
Variable Z_vector : Z -> Vector.
Variable Z_default : Z.
Variable CAMERA_project2 : CAMERA -> POINT -> bool -> bool -> outcome (Z * Matrix * Matrix).
Variable uninitialized_vector : nat -> double.
Variable uninitialized : nat -> nat -> double.

Lemma errors_fold (pairs : list (Z * Z)) :
  (forall z, length (Z_vector z) = ZDim) ->
  forall done rest : Vector,
    length rest = ZDim * length pairs ->
    snd (fold_left
           (fun st pm =>
              (fst st + ZDim,
               CameraSet.assign_segment (snd st) (fst st) ZDim
                 (Z_vector (Z_minus (fst pm) (snd pm)))))
           pairs (length done, done ++ rest))
    = done ++ concat (map (fun pm => Z_vector (Z_minus (fst pm) (snd pm))) pairs).
Proof.
  intros Hdim. induction pairs as [|pm pairs IH]; intros done rest Hrest.
  - simpl in *. destruct rest; [reflexivity|simpl in Hrest; lia].
  - cbn [fold_left fst snd map concat].
    assert (Hseg : CameraSet.assign_segment (done ++ rest) (length done) ZDim
                     (Z_vector (Z_minus (fst pm) (snd pm)))
                   = (done ++ Z_vector (Z_minus (fst pm) (snd pm))) ++ skipn ZDim rest).
    { unfold CameraSet.assign_segment.
      rewrite firstn_app, firstn_all, Nat.sub_diag, firstn_O, app_nil_r.
      rewrite <- (Hdim (Z_minus (fst pm) (snd pm))) at 1. rewrite firstn_all.
      rewrite skipn_app, skipn_all2 by lia.
      replace (length done + ZDim - length done) with ZDim by lia.
      now rewrite <- app_assoc. }
    rewrite Hseg.
    replace (length done + ZDim)
      with (length (done ++ Z_vector (Z_minus (fst pm) (snd pm))))
      by (rewrite length_app, Hdim; reflexivity).
    rewrite IH.
    + now rewrite <- app_assoc.
    + rewrite length_skipn, Hrest. cbn [length]. lia.
Qed.

Lemma ErrorVector_Returns (predicted measured : list Z) :
  (forall z, length (Z_vector z) = ZDim) ->
  length measured = length predicted ->
  CameraSet.ErrorVector Z ZDim Z_minus Z_vector uninitialized_vector predicted measured
  = Returns (concat (map (fun pm => Z_vector (Z_minus (fst pm) (snd pm)))
                         (combine predicted measured))).
Proof.
  intros Hdim Heq. unfold CameraSet.ErrorVector.
  rewrite Heq, Nat.eqb_refl. cbn [negb]. f_equal.
  assert (Hlen : length (combine predicted measured) = length predicted).
  { rewrite length_combine. lia. }
  pose proof (errors_fold (combine predicted measured) Hdim []
                (map uninitialized_vector (seq 0 (ZDim * length predicted)))) as Hfold.
  cbn [length app] in Hfold.
  apply Hfold. rewrite length_map, length_seq, Hlen. reflexivity.
Qed.

(** X19: [ErrorVector] throws the runtime error of a size mismatch exactly
    when the two lists differ in length.  Otherwise it returns, one after the
    other, the vectors of the differences [predicted[i] - measured[i]], which
    makes [ZDim] entries for every measurement. *)
Theorem ErrorVector_stacks_differences (predicted measured : list Z) :
  (forall z, length (Z_vector z) = ZDim) ->
  (length measured <> length predicted ->
   CameraSet.ErrorVector Z ZDim Z_minus Z_vector uninitialized_vector predicted measured
   = Throws (runtime_error "CameraSet::errors: size mismatch"))
  /\ (length measured = length predicted ->
      exists b,
        CameraSet.ErrorVector Z ZDim Z_minus Z_vector uninitialized_vector predicted measured
        = Returns b
        /\ b = concat (map (fun pm => Z_vector (Z_minus (fst pm) (snd pm)))
                           (combine predicted measured))
        /\ length b = ZDim * length predicted).
Proof.
  intros Hdim. split.
  - intros Hne. unfold CameraSet.ErrorVector.
    apply Nat.eqb_neq in Hne. rewrite Hne. reflexivity.
  - intros Heq. rewrite (ErrorVector_Returns predicted measured Hdim Heq).
    eexists. split; [reflexivity|]. split; [reflexivity|].
    assert (Hlen : length (combine predicted measured) = length predicted).
    { rewrite length_combine. lia. }
    rewrite <- Hlen. clear Hlen.
    induction (combine predicted measured) as [|pm l IH]; cbn [map concat length]; [lia|].
    rewrite length_app, Hdim, IH. lia.
Qed.

Lemma project2_loop_Returns (point : POINT) (ok : CAMERA -> Z * Matrix * Matrix)
    (cameras : list CAMERA) :
  forall (i : nat) (z : list Z) (Fs : option (list Matrix)) (E : option Matrix),
    (forall c, In c cameras ->
       CAMERA_project2 c point (CameraSet.given Fs) (CameraSet.given E) = Returns (ok c)) ->
    i + length cameras <= length z ->
    (forall l, Fs = Some l -> i + length cameras <= length l) ->
    CameraSet.project2_loop CAMERA POINT Z ZDim N CAMERA_project2 point cameras i z Fs E
    = Returns
        (firstn i z ++ map (fun c => fst (fst (ok c))) cameras
                    ++ skipn (i + length cameras) z,
         option_map (fun l => firstn i l ++ map (fun c => snd (fst (ok c))) cameras
                                         ++ skipn (i + length cameras) l) Fs,
         option_map (fun E =>
                       fold_left (fun E ic => Eigen.assign_block E (ZDim * fst ic) 0
                                                (CameraSet.fixed ZDim N (snd (ok (snd ic)))))
                                 (combine (seq i (length cameras)) cameras) E) E).
Proof.
  induction cameras as [|c cameras IH]; intros i z Fs E Hok Hz HFs.
  - cbn [CameraSet.project2_loop length map app combine seq fold_left].
    rewrite Nat.add_0_r, firstn_skipn.
    destruct Fs as [l|], E as [E0|]; cbn [option_map];
      rewrite ?Nat.add_0_r, ?firstn_skipn; reflexivity.
  - cbn [CameraSet.project2_loop length] in *.
    rewrite (Hok c (or_introl eq_refl)). cbn [bind].
    rewrite IH.
    + rewrite firstn_vector_set, skipn_vector_set by lia.
      replace (i + 1 + length cameras) with (i + S (length cameras)) by lia.
      cbn [map]. rewrite <- app_assoc. cbn [app].
      f_equal. f_equal.
      * destruct Fs as [l|]; cbn [option_map]; [|reflexivity].
        specialize (HFs l eq_refl).
        rewrite firstn_vector_set, skipn_vector_set by lia.
        replace (i + 1 + length cameras) with (i + S (length cameras)) by lia.
        rewrite <- app_assoc. reflexivity.
      * destruct E as [E0|]; cbn [option_map]; [|reflexivity].
        replace (i + 1) with (S i) by lia. reflexivity.
    + intros c' Hin.
      replace (CameraSet.given (option_map _ Fs)) with (CameraSet.given Fs)
        by (destruct Fs; reflexivity).
      replace (CameraSet.given (option_map _ E)) with (CameraSet.given E)
        by (destruct E; reflexivity).
      apply Hok. now right.
    + rewrite vector_set_length. lia.
    + intros l Hl. destruct Fs as [l0|]; [|discriminate].
      cbn [option_map] in Hl. injection Hl as <-.
      rewrite vector_set_length. specialize (HFs l0 eq_refl). lia.
Qed.

Lemma project2_loop_Throws (point : POINT) (ok : CAMERA -> Z * Matrix * Matrix)
    (e : exception) (before : list CAMERA) (c : CAMERA) (after : list CAMERA) :
  forall (i : nat) (z : list Z) (Fs : option (list Matrix)) (E : option Matrix),
    (forall c', In c' before ->
       CAMERA_project2 c' point (CameraSet.given Fs) (CameraSet.given E) = Returns (ok c')) ->
    CAMERA_project2 c point (CameraSet.given Fs) (CameraSet.given E) = Throws e ->
    CameraSet.project2_loop CAMERA POINT Z ZDim N CAMERA_project2 point
      (before ++ c :: after) i z Fs E
    = Throws e.
Proof.
  induction before as [|c0 before IH]; intros i z Fs E Hok Hc.
  - cbn [app CameraSet.project2_loop]. rewrite Hc. reflexivity.
  - cbn [app CameraSet.project2_loop].
    rewrite (Hok c0 (or_introl eq_refl)). cbn [bind].
    apply IH.
    + intros c' Hin.
      replace (CameraSet.given (option_map _ Fs)) with (CameraSet.given Fs)
        by (destruct Fs; reflexivity).
      replace (CameraSet.given (option_map _ E)) with (CameraSet.given E)
        by (destruct E; reflexivity).
      apply Hok. now right.
    + replace (CameraSet.given (option_map _ Fs)) with (CameraSet.given Fs)
        by (destruct Fs; reflexivity).
      replace (CameraSet.given (option_map _ E)) with (CameraSet.given E)
        by (destruct E; reflexivity).
      exact Hc.
Qed.

(** What [project2] returns when every camera projects the point. *)
Lemma project2_Returns (this : list CAMERA) (point : POINT)
    (Fs : option (list Matrix)) (E : option Matrix) (ok : CAMERA -> Z * Matrix * Matrix) :
  (forall c, In c this ->
     CAMERA_project2 c point (CameraSet.given Fs) (CameraSet.given E) = Returns (ok c)) ->
  exists Fs' E',
    CameraSet.project2 CAMERA POINT Z D ZDim N Z_default CAMERA_project2 uninitialized
      this point Fs E
    = Returns (map (fun c => fst (fst (ok c))) this, Fs', E')
    /\ Fs' = option_map (fun _ => map (fun c => snd (fst (ok c))) this) Fs
    /\ (E = None -> E' = None)
    /\ (E <> None ->
        exists E1, E' = Some E1
          /\ Eigen.rows E1 = ZDim * length this /\ Eigen.cols E1 = N
          /\ forall i c r col, nth_error this i = Some c -> r < ZDim -> col < N ->
               Eigen.coeff E1 (ZDim * i + r) col = Eigen.coeff (snd (ok c)) r col).
Proof.
  intros Hok. unfold CameraSet.project2.
  rewrite (project2_loop_Returns point ok this).
  - cbn [firstn Nat.add app]. rewrite skipn_all2 by (rewrite repeat_length; lia).
    rewrite app_nil_r.
    eexists. eexists. split; [reflexivity|].
    split.
    { destruct Fs as [l|]; cbn [option_map]; [|reflexivity].
      rewrite skipn_all2 by (rewrite vector_resize_length; lia).
      now rewrite app_nil_r. }
    split; [intros ->; reflexivity|].
    intros HE. destruct E as [E0|]; [|congruence]. cbn [option_map].
    eexists. split; [reflexivity|].
    destruct (row_blocks_shape ZDim N (fun c => snd (ok c))
                (combine (seq 0 (length this)) this)
                (CameraSet.resize uninitialized E0 (ZDim * length this) N)) as [Hr Hc].
    assert (Hshape : Eigen.rows (CameraSet.resize uninitialized E0 (ZDim * length this) N)
                     = ZDim * length this
                     /\ Eigen.cols (CameraSet.resize uninitialized E0 (ZDim * length this) N)
                        = N).
    { unfold CameraSet.resize.
      destruct ((Eigen.rows E0 =? ZDim * length this) && (Eigen.cols E0 =? N)) eqn:Es.
      - apply andb_prop in Es as [E1 E2]. apply Nat.eqb_eq in E1, E2. split; assumption.
      - split; reflexivity. }
    destruct Hshape as [Hr0 Hc0].
    split; [congruence|]. split; [congruence|].
    intros i c r col Hi Hr' Hcol.
    assert (Hlt : i < length this).
    { apply (proj1 (nth_error_Some this i)). rewrite Hi. discriminate. }
    apply (row_blocks_content ZDim N (fun c => snd (ok c)) this 0 _ i c r col Hi Hr' Hcol).
    + rewrite Hr0. cbn [Nat.add]. nia.
    + rewrite Hc0. exact Hcol.
  - intros c Hin.
    replace (CameraSet.given (option_map _ Fs)) with (CameraSet.given Fs)
      by (destruct Fs; reflexivity).
    replace (CameraSet.given (option_map _ E)) with (CameraSet.given E)
      by (destruct E; reflexivity).
    apply Hok. exact Hin.
  - rewrite repeat_length. lia.
  - intros l Hl. destruct Fs as [l0|]; [|discriminate].
    cbn [option_map] in Hl. injection Hl as <-. rewrite vector_resize_length. lia.
Qed.

Lemma project2_Throws (before : list CAMERA) (c : CAMERA) (after : list CAMERA)
    (point : POINT) (Fs : option (list Matrix)) (E : option Matrix)
    (ok : CAMERA -> Z * Matrix * Matrix) (e : exception) :
  (forall c', In c' before ->
     CAMERA_project2 c' point (CameraSet.given Fs) (CameraSet.given E) = Returns (ok c')) ->
  CAMERA_project2 c point (CameraSet.given Fs) (CameraSet.given E) = Throws e ->
  CameraSet.project2 CAMERA POINT Z D ZDim N Z_default CAMERA_project2 uninitialized
    (before ++ c :: after) point Fs E
  = Throws e.
Proof.
  intros Hok Hc. unfold CameraSet.project2.
  apply (project2_loop_Throws point ok e before c after).
  - intros c' Hin.
    replace (CameraSet.given (option_map _ Fs)) with (CameraSet.given Fs)
      by (destruct Fs; reflexivity).
    replace (CameraSet.given (option_map _ E)) with (CameraSet.given E)
      by (destruct E; reflexivity).
    apply Hok. exact Hin.
  - replace (CameraSet.given (option_map _ Fs)) with (CameraSet.given Fs)
      by (destruct Fs; reflexivity).
    replace (CameraSet.given (option_map _ E)) with (CameraSet.given E)
      by (destruct E; reflexivity).
    exact Hc.
Qed.

(** X20: [project2] returns the projections of the cameras in the order of
    the set when every camera projects the point; [Fs], when asked for, is the
    list of the derivatives with respect to the cameras, and [E], when asked
    for, has [ZDim] rows for every camera and [N] columns and holds the
    derivatives with respect to the point, camera after camera.  When a
    camera throws and the cameras before it do not, [project2] throws what
    that camera throws. *)
Theorem project2_projects_every_camera (point : POINT)
    (Fs : option (list Matrix)) (E : option Matrix) (ok : CAMERA -> Z * Matrix * Matrix) :
  (forall this : list CAMERA,
     (forall c, In c this ->
        CAMERA_project2 c point (CameraSet.given Fs) (CameraSet.given E) = Returns (ok c)) ->
     exists Fs' E',
       CameraSet.project2 CAMERA POINT Z D ZDim N Z_default CAMERA_project2 uninitialized
         this point Fs E
       = Returns (map (fun c => fst (fst (ok c))) this, Fs', E')
       /\ Fs' = option_map (fun _ => map (fun c => snd (fst (ok c))) this) Fs
       /\ (E = None -> E' = None)
       /\ (E <> None ->
           exists E1, E' = Some E1
             /\ Eigen.rows E1 = ZDim * length this /\ Eigen.cols E1 = N
             /\ forall i c r col, nth_error this i = Some c -> r < ZDim -> col < N ->
                  Eigen.coeff E1 (ZDim * i + r) col = Eigen.coeff (snd (ok c)) r col))
  /\ (forall (before : list CAMERA) (c : CAMERA) (after : list CAMERA) (e : exception),
        (forall c', In c' before ->
           CAMERA_project2 c' point (CameraSet.given Fs) (CameraSet.given E)
           = Returns (ok c')) ->
        CAMERA_project2 c point (CameraSet.given Fs) (CameraSet.given E) = Throws e ->
        CameraSet.project2 CAMERA POINT Z D ZDim N Z_default CAMERA_project2 uninitialized
          (before ++ c :: after) point Fs E
        = Throws e).
Proof.
  split.
  - intros this Hok. apply project2_Returns. exact Hok.
  - intros before c after e Hok Hc. apply (project2_Throws before c after point Fs E ok e Hok Hc).
Qed.

(** X21: [reprojectionError] projects first and compares the sizes after.
    When a camera throws, the call throws what the camera throws, whatever
    the number of measurements.  When every camera projects the point, the
    call throws the runtime error of a size mismatch if there are not as many
    measurements as cameras, and otherwise returns the stacked differences
    between the projections and the measurements. *)
Theorem reprojectionError_projects_then_compares (point : POINT) (measured : list Z)
    (Fs : option (list Matrix)) (E : option Matrix) (ok : CAMERA -> Z * Matrix * Matrix) :
  (forall z, length (Z_vector z) = ZDim) ->
  (forall (before : list CAMERA) (c : CAMERA) (after : list CAMERA) (e : exception),
     (forall c', In c' before ->
        CAMERA_project2 c' point (CameraSet.given Fs) (CameraSet.given E) = Returns (ok c')) ->
     CAMERA_project2 c point (CameraSet.given Fs) (CameraSet.given E) = Throws e ->
     CameraSet.reprojectionError CAMERA POINT Z D ZDim N Z_minus Z_vector Z_default
       CAMERA_project2 uninitialized_vector uninitialized
       (before ++ c :: after) point measured Fs E
     = Throws e)
  /\ (forall this : list CAMERA,
        (forall c, In c this ->
           CAMERA_project2 c point (CameraSet.given Fs) (CameraSet.given E)
           = Returns (ok c)) ->
        (length measured <> length this ->
         CameraSet.reprojectionError CAMERA POINT Z D ZDim N Z_minus Z_vector Z_default
           CAMERA_project2 uninitialized_vector uninitialized this point measured Fs E
         = Throws (runtime_error "CameraSet::errors: size mismatch"))
        /\ (length measured = length this ->
            exists Fs' E',
              CameraSet.reprojectionError CAMERA POINT Z D ZDim N Z_minus Z_vector Z_default
                CAMERA_project2 uninitialized_vector uninitialized this point measured Fs E
              = Returns
                  (concat (map (fun cm => Z_vector (Z_minus (fst (fst (ok (fst cm)))) (snd cm)))
                               (combine this measured)),
                   Fs', E'))).
Proof.
  intros Hdim. split.
  - intros before c after e Hok Hc. unfold CameraSet.reprojectionError.
    rewrite (project2_Throws before c after point Fs E ok e Hok Hc). reflexivity.
  - intros this Hok. unfold CameraSet.reprojectionError.
    destruct (project2_Returns this point Fs E ok Hok) as (Fs' & E' & Hp & _).
    rewrite Hp. cbn [bind fst snd].
    split.
    + intros Hne. unfold CameraSet.ErrorVector. rewrite length_map.
      apply Nat.eqb_neq in Hne. rewrite Hne. reflexivity.
    + intros Heq.
      rewrite (ErrorVector_Returns (map (fun c => fst (fst (ok c))) this) measured Hdim)
        by (rewrite length_map; exact Heq).
      cbn [bind]. exists Fs', E'. f_equal. f_equal. f_equal.
      clear. revert measured. induction this as [|c this IH]; intros [|m measured];
        cbn [map combine concat]; try reflexivity.
      now rewrite IH.
Qed.

End ProjectionProperties.

(** ** The factor built from a right-hand side alone (lines 85-90) *)

Section FromRightHandSide.

Context {SharedDiagonal : Type} `{NoiseModel SharedDiagonal}.
Variable NDEBUG : bool.
Variable uninitialized : nat -> nat -> double.
Variable gtsam_transposeMultiplyAdd : double -> Matrix -> Vector -> Vector -> Vector.

(** X22: the constructor from a right-hand side alone builds what the
    constructor from terms builds from no term and a null noise model: a
    factor without keys whose [getb()] is the vector given and whose
    unweighted residual is its negation.  The factor has no noise model, so
    the members that whiten, [error_vector], [sparse] and
    [transposeMultiplyAdd], have no defined result on it. *)
Theorem factor_from_right_hand_side (b : Vector) (f : JacobianFactor SharedDiagonal) :
  JacobianFactor_b NDEBUG uninitialized b = Returns f ->
  JacobianFactor_terms NDEBUG uninitialized [] b None = Returns f
  /\ keys_ f = [] /\ model_ f = None /\ rows f = length b /\ getb f = b
  /\ (forall c, unweighted_error f c = Eigen.neg b)
  /\ (forall c, error_vector f c = Undefined)
  /\ (forall columnIndices, sparse f columnIndices = Undefined)
  /\ (forall alpha e x,
        transposeMultiplyAdd gtsam_transposeMultiplyAdd f alpha e x = Undefined).
Proof.
  intros E.
  change (JacobianFactor_terms NDEBUG uninitialized [] b None = Returns f) in E.
  destruct (terms_keys NDEBUG uninitialized [] b None f E) as (Hk & Hm & Hr & _).
  pose proof (terms_getb NDEBUG uninitialized [] b None f E) as Hb.
  cbn [map] in Hk.
  split; [exact E|]. split; [exact Hk|]. split; [exact Hm|]. split; [exact Hr|].
  split; [exact Hb|].
  split.
  { intros c. unfold unweighted_error, empty, size. rewrite Hk, Hb.
    destruct (rows f =? 0); reflexivity. }
  split.
  { intros c. unfold error_vector. rewrite Hm. destruct (empty f); reflexivity. }
  split.
  { intros columnIndices. unfold sparse. rewrite Hm. reflexivity. }
  intros alpha e x. unfold transposeMultiplyAdd. rewrite Hm. reflexivity.
Qed.

End FromRightHandSide.

(** ** The constructor from any Gaussian factor (lines 70-79) *)

Section FromGaussianFactor.

Context {SharedDiagonal : Type} `{NoiseModel SharedDiagonal}.
Variable NDEBUG : bool.
Variable choleskyCareful : Matrix -> outcome ((nat -> nat -> double) * (nat * bool)).

(** What a copy shares with the original. *)
Lemma copy_content (g f : JacobianFactor SharedDiagonal) :
  JacobianFactor_copy NDEBUG g = Returns f \/ assign NDEBUG g = Returns f ->
  keys_ f = keys_ g /\ model_ f = model_ g
  /\ firstNonzeroBlocks_ f = firstNonzeroBlocks_ g
  /\ rows f = rows g /\ getb f = getb g
  /\ forall k, Eigen.cols (getA f k) = Eigen.cols (getA g k)
               /\ forall r j, Eigen.coeff (getA f k) r j = Eigen.coeff (getA g k) r j.
Proof.
  intros E. apply (copy_Returns NDEBUG) in E. subst f.
  split; [reflexivity|]. split; [reflexivity|]. split; [reflexivity|].
  split.
  { unfold rows, VerticalBlockView.rows, VerticalBlockView.assignNoalias.
    cbn [Ab_ snd VerticalBlockView.fromDims VerticalBlockView.rowStart
         VerticalBlockView.rowEnd].
    unfold VerticalBlockView.rows. lia. }
  split; [apply copy_getb|].
  intros k. exact (assignNoalias_getA g (keys_ g) (model_ g) (firstNonzeroBlocks_ g) k).
Qed.

(** Two factors with the same keys, right-hand side and blocks evaluate
    alike. *)
Lemma same_blocks_same_residual (f g : JacobianFactor SharedDiagonal) :
  keys_ f = keys_ g -> rows f = rows g -> getb f = getb g ->
  (forall k, Eigen.cols (getA f k) = Eigen.cols (getA g k)
             /\ forall r j, Eigen.coeff (getA f k) r j = Eigen.coeff (getA g k) r j) ->
  forall c, unweighted_error f c = unweighted_error g c.
Proof.
  intros Hk Hr Hb HA c. unfold unweighted_error, empty, size. rewrite Hk, Hb, Hr.
  destruct (rows g =? 0); [reflexivity|].
  apply fold_left_agree_in. intros e pos _. f_equal.
  destruct (HA pos) as [Hc Hx].
  apply mul_agree; [exact Hr | exact Hc | intros; apply Hx].
Qed.

(** X23: the constructor from a reference to a Gaussian factor, given a
    Jacobian factor, returns a factor with the keys, the noise model, the
    staircase record, the right-hand side and the blocks of the active view of
    that factor, which evaluates like it and whose own view spans its full
    extent.  Given a factor that is neither a Jacobian nor a Hessian factor
    it throws the invalid-argument error. *)
Theorem GaussianFactor_constructor_keeps_content (rhs f : JacobianFactor SharedDiagonal) :
  JacobianFactor_GaussianFactor NDEBUG choleskyCareful (IsJacobianFactor rhs) = Returns f ->
  keys_ f = keys_ rhs /\ model_ f = model_ rhs
  /\ firstNonzeroBlocks_ f = firstNonzeroBlocks_ rhs
  /\ rows f = rows rhs /\ getb f = getb rhs
  /\ (forall k, Eigen.cols (getA f k) = Eigen.cols (getA rhs k)
                /\ forall r j, Eigen.coeff (getA f k) r j = Eigen.coeff (getA rhs k) r j)
  /\ (forall c, unweighted_error f c = unweighted_error rhs c)
  /\ spans_full_extent f
  /\ forall keys,
       exists what,
         @JacobianFactor_GaussianFactor SharedDiagonal _ NDEBUG choleskyCareful
           (IsOtherFactor keys)
         = Throws (invalid_argument what).
Proof.
  intros E. cbn [JacobianFactor_GaussianFactor] in E.
  apply bind_Returns in E as (tmp & Etmp & E).
  apply bind_Returns in E as (this & Ethis & E).
  apply (checked_Returns NDEBUG) in E. subst f.
  destruct (copy_content rhs tmp (or_introl Etmp)) as (Hk1 & Hm1 & Hf1 & Hr1 & Hb1 & HA1).
  destruct (copy_content tmp this (or_intror Ethis)) as (Hk2 & Hm2 & Hf2 & Hr2 & Hb2 & HA2).
  assert (HA : forall k, Eigen.cols (getA this k) = Eigen.cols (getA rhs k)
                         /\ forall r j, Eigen.coeff (getA this k) r j
                                        = Eigen.coeff (getA rhs k) r j).
  { intros k. destruct (HA1 k) as [Hc1 Hx1]. destruct (HA2 k) as [Hc2 Hx2].
    split; [congruence|]. intros r j. now rewrite Hx2, Hx1. }
  split; [congruence|]. split; [congruence|]. split; [congruence|].
  split; [congruence|]. split; [congruence|]. split; [exact HA|].
  split.
  { apply same_blocks_same_residual; [congruence|congruence|congruence|exact HA]. }
  split.
  { pose proof (copy_Returns NDEBUG tmp this (or_intror Ethis)) as Hthis.
    rewrite Hthis. repeat split. }
  intros keys. eexists. reflexivity.
Qed.

End FromGaussianFactor.

(** ** The further properties at concrete inputs *)

Lemma terms_constructor_round_trip_witness :
  exists f : JacobianFactor Example.Model,
    JacobianFactor_terms false Example.zero_storage [(0, Example.identity2)] [1; 1]%float
      (Some (Example.Unit 2))
    = Returns f
    /\ keys_ f = [0]
    /\ getb f = [1; 1]%float
    /\ Eigen.coeff (getA f 0) 1 1 = 1%float.
Proof.
  destruct (JacobianFactor_terms false Example.zero_storage [(0, Example.identity2)]
              [1; 1]%float (Some (Example.Unit 2))) as [f| | |] eqn:E;
    try (vm_compute in E; discriminate).
  exists f. split; [reflexivity|].
  destruct (terms_constructor_round_trip false Example.zero_storage
              [(0, Example.identity2)] [1; 1]%float (Some (Example.Unit 2)) f E)
    as (Hk & _ & _ & Hb & HA).
  destruct (HA 0 0 Example.identity2 eq_refl) as (_ & _ & Hx).
  split; [exact Hk|]. split; [exact Hb|].
  apply (Hx 1 1); simpl; lia.
Defined.

Lemma terms_constructor_unweighted_error_witness :
  exists f : JacobianFactor Example.Model,
    JacobianFactor_terms false Example.zero_storage [(0, Example.identity2)] [1; 1]%float
      (Some (Example.Unit 2))
    = Returns f
    /\ unweighted_error f (fun _ => [3; 1]%float)
       = Eigen.plus (Eigen.neg [1; 1]%float) (Eigen.mul Example.identity2 [3; 1]%float).
Proof.
  destruct (JacobianFactor_terms false Example.zero_storage [(0, Example.identity2)]
              [1; 1]%float (Some (Example.Unit 2))) as [f| | |] eqn:E;
    try (vm_compute in E; discriminate).
  exists f. split; [reflexivity|].
  apply (terms_constructor_unweighted_error false Example.zero_storage
           [(0, Example.identity2)] [1; 1]%float (Some (Example.Unit 2)) f
           (fun _ => [3; 1]%float)).
  - repeat constructor.
  - exact E.
Defined.

Lemma terms_constructor_outcome_witness :
  JacobianFactor_terms false Example.zero_storage [(0, Example.identity2)] [1]%float
    (Some (Example.Unit 1))
  = Aborts
  /\ JacobianFactor_terms true Example.zero_storage [(0, Example.identity2)] [1]%float
       (Some (Example.Unit 1))
     = Undefined
  /\ (exists f : JacobianFactor Example.Model,
        JacobianFactor_terms true Example.zero_storage [(0, Example.identity2)]
          [1; PrimFloat.nan]%float (Some (Example.Unit 2))
        = Returns f)
  /\ JacobianFactor_terms false Example.zero_storage [(0, Example.identity2)]
       [1; PrimFloat.nan]%float (Some (Example.Unit 2))
     = Throws (invalid_argument "JacobianFactor contains NaN matrix entries.").
Proof.
  split.
  { apply (proj1 (terms_constructor_outcome false Example.zero_storage
                    [(0, Example.identity2)] [1]%float (Some (Example.Unit 1)))).
    - apply Exists_cons_hd. simpl. lia.
    - right. reflexivity. }
  split.
  { apply (proj1 (terms_constructor_outcome true Example.zero_storage
                    [(0, Example.identity2)] [1]%float (Some (Example.Unit 1)))).
    - apply Exists_cons_hd. simpl. lia.
    - left. reflexivity. }
  split.
  { apply (proj2 (terms_constructor_outcome true Example.zero_storage
                    [(0, Example.identity2)] [1; PrimFloat.nan]%float
                    (Some (Example.Unit 2)))).
    - repeat constructor.
    - reflexivity. }
  apply (proj2 (terms_constructor_outcome false Example.zero_storage
                  [(0, Example.identity2)] [1; PrimFloat.nan]%float
                  (Some (Example.Unit 2)))).
  - repeat constructor.
  - reflexivity.
  - reflexivity.
  - reflexivity.
Defined.

Lemma copy_preserves_the_active_view_witness :
  exists conditional f' f'',
    eliminate false Example.two_variables 1 = Returns (conditional, f')
    /\ JacobianFactor_copy false f' = Returns f''
    /\ keys_ f'' = keys_ f'
    /\ getb f'' = getb f'
    /\ forall c, unweighted_error f'' c = unweighted_error f' c.
Proof.
  destruct (eliminate false Example.two_variables 1) as [[conditional f']| | |] eqn:E;
    try (vm_compute in E; discriminate).
  assert (Hc : match eliminate false Example.two_variables 1 with
               | Returns r =>
                   match JacobianFactor_copy false (snd r) with
                   | Returns _ => True
                   | _ => False
                   end
               | _ => False
               end) by (vm_compute; exact I).
  rewrite E in Hc.
  change (match JacobianFactor_copy false f' with Returns _ => True | _ => False end) in Hc.
  destruct (JacobianFactor_copy false f') as [f''| | |] eqn:Ec; try contradiction.
  exists conditional, f', f''. split; [reflexivity|]. split; [exact Ec|].
  destruct (copy_preserves_the_active_view false f' f'' (or_introl Ec))
    as (Hk & _ & _ & _ & _ & Hb & _ & Hu & _).
  repeat split; assumption.
Defined.

Lemma copy_spans_full_extent_witness :
  exists conditional f' f'',
    eliminate false Example.two_variables 1 = Returns (conditional, f')
    /\ ~ spans_full_extent f'
    /\ JacobianFactor_copy false f' = Returns f''
    /\ spans_full_extent f'' /\ blocks_cover f''.
Proof.
  destruct (eliminate false Example.two_variables 1) as [[conditional f']| | |] eqn:E;
    try (vm_compute in E; discriminate).
  assert (Hc : match eliminate false Example.two_variables 1 with
               | Returns r =>
                   match JacobianFactor_copy false (snd r) with
                   | Returns _ => True
                   | _ => False
                   end
               | _ => False
               end) by (vm_compute; exact I).
  rewrite E in Hc.
  change (match JacobianFactor_copy false f' with Returns _ => True | _ => False end) in Hc.
  destruct (JacobianFactor_copy false f') as [f''| | |] eqn:Ec; try contradiction.
  exists conditional, f', f''. split; [reflexivity|].
  split.
  - apply (eliminate_Returns false) in E as (model & _ & _ & ->).
    intros (_ & _ & Hfb). cbn [Ab_ VerticalBlockView.firstBlock] in Hfb. lia.
  - split; [exact Ec|].
    apply (copy_spans_full_extent false f' f''). left. exact Ec.
Defined.

Lemma eliminate_again_aborts_witness :
  exists conditional f',
    eliminate false Example.two_variables 1 = Returns (conditional, f')
    /\ eliminate false f' 1 = Aborts.
Proof.
  destruct (eliminate false Example.two_variables 1) as [[conditional f']| | |] eqn:E;
    try (vm_compute in E; discriminate).
  exists conditional, f'. split; [reflexivity|].
  apply (eliminate_again_aborts false Example.two_variables 1 conditional f' E).
  lia.
Defined.

Lemma eliminate_conditional_witness :
  exists conditional f',
    eliminate false Example.two_variables 1 = Returns (conditional, f')
    /\ cg_keys conditional = [0; 1]
    /\ cg_nrFrontals conditional = 1
    /\ VerticalBlockView.rows (rsd_ conditional) = 1
    /\ VerticalBlockView.rows (rsd_ conditional) + rows f' = 2.
Proof.
  destruct (eliminate false Example.two_variables 1) as [[conditional f']| | |] eqn:E;
    try (vm_compute in E; discriminate).
  exists conditional, f'. split; [reflexivity|].
  destruct (eliminate_conditional false Example.two_variables 1 conditional f' E)
    as (model & Hm & Hk & Hn & Hr & _ & Hfull).
  injection Hm as <-.
  destruct (Hfull ltac:(repeat split)) as [Hsum _].
  split; [rewrite Hk; reflexivity|]. split; [exact Hn|].
  split; [rewrite Hr; reflexivity|]. rewrite Hsum. reflexivity.
Defined.

Lemma eliminate_keeps_structure_witness :
  exists conditional f',
    eliminate true Example.two_variables 1 = Returns (conditional, f')
    /\ structure_holds f'
    /\ size f' = 1.
Proof.
  destruct (eliminate true Example.two_variables 1) as [[conditional f']| | |] eqn:E;
    try (vm_compute in E; discriminate).
  exists conditional, f'. split; [reflexivity|].
  destruct (eliminate_keeps_structure true Example.two_variables 1 conditional f')
    as (Hs & _ & Hsize).
  - vm_compute. lia.
  - reflexivity.
  - exact E.
  - split; [exact Hs|exact Hsize].
Defined.

Lemma collectInfo_appends_one_entry_per_row_witness :
  collectInfo false 5 Example.exhausted_row 7 []
  = Returns [mkRowSource 0 7 0; mkRowSource 2 7 1]
  /\ collectInfo false 1 Example.exhausted_row 7 []
     = Returns [mkRowSource 0 7 0; mkRowSource 0 7 1].
Proof.
  split.
  - apply (collectInfo_appends_one_entry_per_row false 5 Example.exhausted_row 7 []).
    + reflexivity.
    + reflexivity.
    + repeat constructor.
    + discriminate.
  - apply (collectInfo_appends_one_entry_per_row false 1 Example.exhausted_row 7 []).
    + reflexivity.
    + reflexivity.
    + repeat constructor.
    + discriminate.
Defined.

Lemma collectInfo_without_keys_witness :
  collectInfo false 5 Example.no_keys 0 [] = Undefined.
Proof.
  apply (collectInfo_without_keys false 5 Example.no_keys 0 []).
  - reflexivity.
  - reflexivity.
  - vm_compute. lia.
  - reflexivity.
Defined.

Lemma copyRow_writes_one_row_witness :
  exists this' : JacobianFactor Example.Model,
    copyRow Example.prior Example.two_variables 0 (Some 2) 0 1 = Returns this'
    /\ keys_ this' = keys_ Example.prior
    /\ Eigen.coeff (getA this' 1) 0 0 = 3%float
    /\ Eigen.coeff (matrix_ this') 1 2 = 1%float.
Proof.
  destruct (copyRow Example.prior Example.two_variables 0 (Some 2) 0 1)
    as [this'| | |] eqn:E; try (vm_compute in E; discriminate).
  exists this'. split; [reflexivity|].
  destruct (copyRow_writes_one_row Example.prior Example.two_variables 0 (Some 2) 0 1
              this' E) as ((Hk & _) & Hframe & Hrow).
  split; [exact Hk|]. split.
  - destruct (Hrow ltac:(vm_compute; lia) ltac:(vm_compute; lia) ltac:(vm_compute; lia)
                   0 ltac:(vm_compute; lia)) as (_ & Hx & _).
    rewrite Hx. reflexivity.
  - rewrite Hframe; [reflexivity|]. left. vm_compute. lia.
Defined.

Lemma copyFNZ_records_first_blocks_witness :
  exists f' : JacobianFactor Example.Model,
    copyFNZ Example.two_variables 2 2 Example.two_row_sources = Returns f'
    /\ firstNonzeroBlocks_ f' = [0; 1]
    /\ forall r j, r < 2 -> j < nth r (firstNonzeroBlocks_ f') 0 ->
         nth j (keys_ Example.two_variables) 0
         < firstNonzeroVar (nth r Example.two_row_sources (mkRowSource 0 0 0)).
Proof.
  destruct (copyFNZ_records_first_blocks Example.two_variables 2 2 Example.two_row_sources)
    as (f' & E & _ & _ & _ & _ & _ & _ & _ & Hbelow).
  - vm_compute. lia.
  - vm_compute. lia.
  - vm_compute. lia.
  - exists f'. split; [exact E|]. split.
    + apply (f_equal (fun o : outcome (JacobianFactor Example.Model) =>
                        match o with Returns f => firstNonzeroBlocks_ f | _ => [] end)) in E.
      vm_compute in E. symmetry. exact E.
    + apply Hbelow. intros r r' Hle Hr'.
      destruct r' as [|[|r']]; [| |lia];
        destruct r as [|[|r]]; simpl; lia.
Defined.

Lemma matrix_augmented_is_A_b_witness :
  exists A b Ab,
    matrix Example.WhitenSystem_unit Example.prior false = Returns (A, b)
    /\ matrix_augmented Example.WhitenInPlace_unit Example.prior false = Returns Ab
    /\ Eigen.row Ab 0 = Eigen.row A 0 ++ [nth 0 b 0%float]
    /\ Eigen.row Ab 0 = [1; 0; 1]%float.
Proof.
  destruct (matrix_augmented_is_A_b Example.WhitenInPlace_unit Example.WhitenSystem_unit
              Example.prior) as [(A & b & Ab & EA & EAb & _ & _ & _ & _ & _ & Hrow) _].
  - reflexivity.
  - reflexivity.
  - exists A, b, Ab. split; [exact EA|]. split; [exact EAb|].
    split; [apply Hrow; vm_compute; lia|].
    apply (f_equal (fun o : outcome Matrix =>
                      match o with Returns M => Eigen.row M 0 | _ => [] end)) in EAb.
    vm_compute in EAb. symmetry. exact EAb.
Defined.

Lemma Hessian_without_keys_witness :
  @JacobianFactor_Hessian Example.Model _ false Example.choleskyCareful
    Example.keyless_Hessian
  = Undefined.
Proof.
  destruct (Hessian_without_keys false Example.choleskyCareful Example.keyless_Hessian
              eq_refl) as [_ Hu].
  eapply Hu. reflexivity.
Defined.

Lemma ErrorVector_stacks_differences_witness :
  CameraSet.ErrorVector Example.Point2 2 Example.Point2_minus Example.Point2_vector
    (fun _ => 0%float) [(3, 4); (5, 6)]%float [(1, 1); (2, 2)]%float
  = Returns [2; 3; 3; 4]%float
  /\ CameraSet.ErrorVector Example.Point2 2 Example.Point2_minus Example.Point2_vector
       (fun _ => 0%float) [(3, 4); (5, 6)]%float [(1, 1)]%float
     = Throws (runtime_error "CameraSet::errors: size mismatch").
Proof.
  destruct (ErrorVector_stacks_differences Example.Point2 2 Example.Point2_minus
              Example.Point2_vector (fun _ => 0%float)
              [(3, 4); (5, 6)]%float [(1, 1); (2, 2)]%float (fun z => eq_refl))
    as [_ Hret].
  destruct (ErrorVector_stacks_differences Example.Point2 2 Example.Point2_minus
              Example.Point2_vector (fun _ => 0%float)
              [(3, 4); (5, 6)]%float [(1, 1)]%float (fun z => eq_refl))
    as [Hthrow _].
  split.
  - destruct (Hret eq_refl) as (b & E & Hb & _). rewrite E, Hb. reflexivity.
  - apply Hthrow. simpl. lia.
Defined.

Lemma reprojectionError_projects_then_compares_witness :
  CameraSet.reprojectionError double Example.Point3 Example.Point2 1 2 3
    Example.Point2_minus Example.Point2_vector (0, 0)%float Example.offset_camera_project2
    (fun _ => 0%float) Example.zero_storage
    [1; 2]%float (2, 4, 0)%float [(1, 1)]%float None None
  = Throws (runtime_error "CheiralityException")
  /\ CameraSet.reprojectionError double Example.Point3 Example.Point2 1 2 3
       Example.Point2_minus Example.Point2_vector (0, 0)%float Example.offset_camera_project2
       (fun _ => 0%float) Example.zero_storage
       [1; 2]%float (2, 4, 2)%float [(1, 1)]%float None None
     = Throws (runtime_error "CameraSet::errors: size mismatch").
Proof.
  split.
  - destruct (reprojectionError_projects_then_compares double Example.Point3 Example.Point2
                1 2 3 Example.Point2_minus Example.Point2_vector (0, 0)%float
                Example.offset_camera_project2 (fun _ => 0%float) Example.zero_storage
                (2, 4, 0)%float [(1, 1)]%float None None
                (fun c => Example.offset_camera_project c (2, 4, 0)%float)
                (fun z => eq_refl)) as [Hthrow _].
    apply (Hthrow [] 1%float [2%float]).
    + intros c' [].
    + reflexivity.
  - destruct (reprojectionError_projects_then_compares double Example.Point3 Example.Point2
                1 2 3 Example.Point2_minus Example.Point2_vector (0, 0)%float
                Example.offset_camera_project2 (fun _ => 0%float) Example.zero_storage
                (2, 4, 2)%float [(1, 1)]%float None None
                (fun c => Example.offset_camera_project c (2, 4, 2)%float)
                (fun z => eq_refl)) as [_ Hok].
    apply (Hok [1; 2]%float).
    + intros c _. reflexivity.
    + simpl. lia.
Defined.

Lemma factor_from_right_hand_side_witness :
  exists f : JacobianFactor Example.Model,
    JacobianFactor_b false Example.zero_storage [1; 2]%float = Returns f
    /\ getb f = [1; 2]%float
    /\ error_vector f Example.ones = Undefined.
Proof.
  destruct (@JacobianFactor_b Example.Model false Example.zero_storage [1; 2]%float)
    as [f| | |] eqn:E; try (vm_compute in E; discriminate).
  exists f. split; [reflexivity|].
  destruct (factor_from_right_hand_side false Example.zero_storage
              (fun _ _ _ x => x) [1; 2]%float f E)
    as (_ & _ & _ & _ & Hb & _ & Hev & _).
  split; [exact Hb|apply Hev].
Defined.

Lemma GaussianFactor_constructor_keeps_content_witness :
  exists f : JacobianFactor Example.Model,
    JacobianFactor_GaussianFactor false Example.choleskyCareful
      (IsJacobianFactor Example.two_variables)
    = Returns f
    /\ keys_ f = [0; 1]
    /\ getb f = [3; 1]%float
    /\ forall c, unweighted_error f c = unweighted_error Example.two_variables c.
Proof.
  destruct (JacobianFactor_GaussianFactor false Example.choleskyCareful
              (IsJacobianFactor Example.two_variables)) as [f| | |] eqn:E;
    try (vm_compute in E; discriminate).
  exists f. split; [reflexivity|].
  destruct (GaussianFactor_constructor_keeps_content false Example.choleskyCareful
              Example.two_variables f E) as (Hk & _ & _ & _ & Hb & _ & Hu & _).
  split; [exact Hk|]. split; [rewrite Hb; reflexivity|exact Hu].
Defined.
